(** * Monitoring and sync scheduling engine of 123subscribe

    A shallow embedding of the change detector ([sync/file_comparator.py]),
    the transfer orchestrator ([sync/file_syncer.py]), the per-share tick of
    the monitor ([main.py]), the task scheduler
    ([scheduler/task_scheduler.py]) and the task monitor
    ([scheduler/monitor.py]), followed by the properties established about
    them. *)

From Stdlib Require Import ZArith List String Ascii Bool Lia.
From stdpp Require Import base option gmap strings list.
Import ListNotations.

Open Scope Z_scope.
Open Scope string_scope.
Open Scope list_scope.

(** ** Python values *)

(** Truthiness of an optional string: [None] and [''] are falsy. *)
Definition truthy (s : option string) : bool :=
  match s with
  | Some s => negb (String.eqb s "")
  | None => false
  end.

(** [range(n)] as the list [0, 1, ..., n-1]; empty when [n <= 0]. *)
Definition range (n : Z) : list Z := List.map Z.of_nat (seq 0 (Z.to_nat n)).

(** ** Insertion-ordered dictionaries with string keys

    A Python [dict] keeps its keys in insertion order and assigning to an
    existing key keeps the key's position; [list(d.values())] follows that
    order. *)
Module PyDict.
Section Dict.
Context {V : Type}.

Definition t : Type := list (string * V).

Definition empty : t := [].

(** [d.get(k)] / [k in d] *)
Fixpoint get (k : string) (d : t) : option V :=
  match d with
  | [] => None
  | (k', v) :: d' => if String.eqb k k' then Some v else get k d'
  end.

(** [d[k] = v] *)
Fixpoint set (k : string) (v : V) (d : t) : t :=
  match d with
  | [] => [(k, v)]
  | (k', v') :: d' =>
      if String.eqb k k' then (k', v) :: d' else (k', v') :: set k v d'
  end.

(** [list(d.values())] *)
Definition values (d : t) : list V := List.map snd d.

Definition keys (d : t) : list string := List.map fst d.

(** [{key(x): x for x in l}] *)
Definition comprehension (key : V -> string) (l : list V) : t :=
  fold_left (fun d x => set (key x) x d) l empty.
End Dict.
Arguments t : clear implicits.
End PyDict.

(** ** File descriptors *)

(** The dictionaries built by [ShareHandler.get_file_list], later stamped
    with ['synced_at'] by the monitor and round-tripped through the state
    file.  The fields that the code reads with [.get(key, default)] or tests
    for presence are optional; ['name'] is always set by the lister. *)
Record FileInfo : Type := mkFileInfo {
  file_id : option string;
  name : string;
  path : option string;
  fsize : Z;                 (* 'size' *)
  ftype : option Z;          (* 'type': 0 file, 1 folder *)
  md5 : option string;
  synced_at : option string
}.

(** [file_info.get('path', '')] *)
Definition path_key (f : FileInfo) : string := default "" (path f).

(** [file_info.get('md5', '')] *)
Definition md5_key (f : FileInfo) : string := default "" (md5 f).

(** [file_info.get('type') == 1] *)
Definition is_directory (f : FileInfo) : bool :=
  match ftype f with
  | Some t => Z.eqb t 1
  | None => false
  end.

(** ** Change detector: [FileComparator] *)
Module FileComparator.

(** [target_file_map = {file_info.get('path', ''): file_info for ...}] *)
Definition target_map (target_files : list FileInfo) : PyDict.t FileInfo :=
  PyDict.comprehension path_key target_files.

(** One iteration of the loop over [source_files]; [files_to_sync] is the
    list being appended to. *)
Definition compare_step (target_file_map : PyDict.t FileInfo)
    (files_to_sync : list FileInfo) (source_file : FileInfo) : list FileInfo :=
  if is_directory source_file then files_to_sync
  else
    let file_path := path_key source_file in
    let source_md5 := md5_key source_file in
    match PyDict.get file_path target_file_map with
    | None => files_to_sync ++ [source_file]
    | Some target_file =>
        let target_md5 := md5_key target_file in
        if negb (String.eqb source_md5 target_md5)
        then files_to_sync ++ [source_file]
        else files_to_sync
    end.

Definition get_files_to_sync (source_files target_files : list FileInfo)
    : list FileInfo :=
  let target_file_map := target_map target_files in
  fold_left (compare_step target_file_map) source_files [].

(** *** Reading of the contract, independent of the dictionary *)

(** The descriptor a path-keyed map built from [known] holds for [p]:
    the last entry of [known] with that path. *)
Definition known_descriptor (known : list FileInfo) (p : string)
    : option FileInfo :=
  last (List.filter (fun k => String.eqb p (path_key k)) known).

(** A source entry is due when it is not a directory and its path is
    unknown or known with another fingerprint. *)
Definition due (known : list FileInfo) (f : FileInfo) : bool :=
  negb (is_directory f) &&
  match known_descriptor known (path_key f) with
  | None => true
  | Some k => negb (String.eqb (md5_key f) (md5_key k))
  end.

(** Entries that share a path also share a fingerprint. *)
Definition consistent_fingerprints (l : list FileInfo) : Prop :=
  forall f g, In f l -> In g l -> path_key f = path_key g ->
              md5_key f = md5_key g.

End FileComparator.

(** ** The world outside the engine *)

(** The per-share record kept in [monitor_state] and in the state file; a
    key that is missing from the dictionary is [None]. *)
Record ShareState : Type := mkShareState {
  last_monitor_time : option Z;
  last_sync_time : option Z;
  files : option (list FileInfo);
  last_synced_files_count : option Z
}.

(** [{}] *)
Definition no_state : ShareState := mkShareState None None None None.

(** The dictionary returned by a save call; only ['code'] is inspected. *)
Record SaveResult : Type := mkSaveResult { code : option Z }.

(** What one external save call does: it returns a (possibly [None])
    result or raises. *)
Inductive Outcome : Type :=
  | Returns (result : option SaveResult)
  | Raises (e : string).

(** Observable actions, in the order they happen. *)
Inductive Event : Type :=
  (* share_handler.save_file_to_cloud(share_key, file_id, target_folder_id,
                                      file_path, share_pwd, file_info, duplicate) *)
  | SaveFileToCloud (share_key fid target : string) (file_path : string)
      (share_pwd : option string) (info : option FileInfo) (dup : Z)
  (* api_client.save_shared_file(file_id, file_info, target_folder_id,
                                 filename, contain_dir, duplicate) *)
  | SaveSharedFile (fid : string) (info : option FileInfo) (target : string)
      (filename : option string) (contain_dir : bool) (dup : Z)
  (* time.sleep(seconds) *)
  | Sleep (seconds : Z)
  (* the listing requests of share_handler.get_file_list, all issued with
     the same secret *)
  | ListShare (share_key : string) (share_pwd : option string) (host : string)
  (* json.dump(self.monitor_state, f) *)
  | Persist (snapshot : gmap string ShareState).

(** The environment threaded through the effectful code: the clock in
    seconds (advanced by [time.sleep] only), the number of save calls issued
    so far and the chronological trace of actions. *)
Record Env : Type := mkEnv {
  now : Z;
  calls : nat;
  trace : list Event
}.

Definition emit (e : Event) (env : Env) : Env :=
  mkEnv (now env) (calls env) (trace env ++ [e]).

(** A save call is recorded and consumes one answer of the backend. *)
Definition issue (e : Event) (env : Env) : Env :=
  mkEnv (now env) (S (calls env)) (trace env ++ [e]).

(** [time.sleep(seconds)] *)
Definition sleep (seconds : Z) (env : Env) : Env :=
  mkEnv (now env + seconds) (calls env) (trace env ++ [Sleep seconds]).

Definition is_save (e : Event) : bool :=
  match e with
  | SaveFileToCloud _ _ _ _ _ _ _ | SaveSharedFile _ _ _ _ _ _ => true
  | _ => false
  end.

Definition is_persist (e : Event) : bool :=
  match e with Persist _ => true | _ => false end.

Definition sleep_seconds (e : Event) : Z :=
  match e with Sleep s => s | _ => 0 end.

(** Number of save calls and total time slept in a trace. *)
Definition save_calls (tr : list Event) : nat := length (List.filter is_save tr).
Definition total_delay (tr : list Event) : Z :=
  fold_right Z.add 0 (List.map sleep_seconds tr).

(** The content of the state file after the actions of [tr], starting from
    content [d0]: the last snapshot written. *)
Definition disk_after (d0 : gmap string ShareState) (tr : list Event)
    : gmap string ShareState :=
  fold_left (fun d e => match e with Persist s => s | _ => d end) tr d0.

(** What happened between two environments of one run. *)
Definition new_events (before after : Env) : list Event :=
  drop (length (trace before)) (trace after).

(** ** Strings *)

(** ['/' in s] *)
Fixpoint has_slash (s : string) : bool :=
  match s with
  | EmptyString => false
  | String c s' => Ascii.eqb c "/" || has_slash s'
  end.

(** [s.split('/')] *)
Fixpoint split_slash (s : string) : list string :=
  match s with
  | EmptyString => [""]
  | String c s' =>
      if Ascii.eqb c "/" then "" :: split_slash s'
      else match split_slash s' with
           | [] => [String c ""]
           | h :: t => String c h :: t
           end
  end.

(** [file_path.split('/')[-1] if '/' in file_path else file_path] *)
Definition flat_filename (file_path : string) : string :=
  if has_slash file_path then List.last (split_slash file_path) ""
  else file_path.

(** ** Transfer orchestrator: [FileSyncer] *)
Module FileSyncer.

Inductive SyncOutcome : Type :=
  | Synced (result : option SaveResult)   (* return result *)
  | ValueError                            (* missing file_id or share_id *)
  | SyncFailed.                           (* raise Exception(...) after the loop *)

(** [result and result.get('code') == 0] *)
Definition result_ok (result : option SaveResult) : bool :=
  match result with
  | Some r => match code r with Some c => Z.eqb c 0 | None => false end
  | None => false
  end.

Section SyncFile.
Variable backend : nat -> Outcome.
Variables (share_id file_id : option string) (target_folder_id : string)
          (share_pwd : option string) (retries : Z)
          (file_path : option string) (preserve_path : bool)
          (file_info : option FileInfo) (duplicate : Z).

(** The external call of one attempt. *)
Definition save_call (sid fid : string) : Event :=
  if preserve_path && truthy file_path then
    SaveFileToCloud sid fid target_folder_id (default "" file_path)
                    share_pwd file_info duplicate
  else
    let filename :=
      if truthy file_path then Some (flat_filename (default "" file_path))
      else None in
    SaveSharedFile fid file_info target_folder_id filename false duplicate.

(** [for attempt in range(retries + 1): ...] *)
Fixpoint attempt_loop (sid fid : string) (attempts : list Z) (env : Env)
    : SyncOutcome * Env :=
  match attempts with
  | [] => (SyncFailed, env)
  | attempt :: rest =>
      let env1 := issue (save_call sid fid) env in
      match backend (calls env) with
      | Returns result =>
          if result_ok result then (Synced result, env1)
          else attempt_loop sid fid rest env1
      | Raises _ =>
          let env2 :=
            if Z.ltb attempt retries
            then sleep ((attempt + 1) * 2) env1
            else env1 in
          attempt_loop sid fid rest env2
      end
  end.

Definition sync_file (env : Env) : SyncOutcome * Env :=
  if negb (truthy file_id) || negb (truthy share_id) then (ValueError, env)
  else attempt_loop (default "" share_id) (default "" file_id)
                    (range (retries + 1)) env.
End SyncFile.

(** The actions of [k] consecutive attempts numbered from [a] that each
    raise and are each followed by a retry. *)
Definition backoff_events (call : Event) (a k : nat) : list Event :=
  concat (List.map (fun i => [call; Sleep ((Z.of_nat i + 1) * 2)]) (seq a k)).

(** Whether an answer of the backend ends the loop with success. *)
Definition answer_ok (o : Outcome) : bool :=
  match o with
  | Returns result => result_ok result
  | Raises _ => false
  end.

(** What the loop does after an attempt numbered [attempt] that got the
    failing answer [o]: it sleeps only when the answer was an exception and
    the attempt was not the last one allowed. *)
Definition after_failure (retries : Z) (attempt : nat) (o : Outcome) : list Event :=
  match o with
  | Raises _ =>
      if Z.ltb (Z.of_nat attempt) retries
      then [Sleep ((Z.of_nat attempt + 1) * 2)]
      else []
  | Returns _ => []
  end.

(** The actions of [k] failing attempts numbered from [a], the first of
    which consumes the backend's answer number [c0]. *)
Definition failed_attempts (backend : nat -> Outcome) (retries : Z)
    (call : Event) (c0 a k : nat) : list Event :=
  concat (List.map
            (fun i => call :: after_failure retries (a + i) (backend (c0 + i)%nat))
            (seq 0 k)).

End FileSyncer.

(** ** Monitor orchestrator: [Cloud123Monitor]

    One per-share tick, run on its own: in the sequential mode of
    [monitor_all] (the default) no other tick touches the aggregate while
    this one runs. *)
Module Monitor.

(** One entry of [monitored_shares]; the keys read with [.get] are
    optional. *)
Record ShareConfig : Type := mkShareConfig {
  url : string;
  target_folder_id : string;
  enabled : option bool;
  preserve_path : option bool;
  duplicate : option Z;
  password : option string
}.

(** The monitor's own state: the in-memory aggregate and the
    environment. *)
Record State : Type := mkState {
  monitor_state : gmap string ShareState;
  env : Env
}.

(** [f"{share_id}_{share_pwd or 'no_pwd'}"] *)
Definition generate_share_key (share_id : string) (share_pwd : option string)
    : string :=
  share_id ++ "_" ++ (if truthy share_pwd then default "" share_pwd else "no_pwd").

(** [user_password if user_password else link_pwd] *)
Definition final_password (user_password link_pwd : option string)
    : option string :=
  if truthy user_password then user_password else link_pwd.

(** [file_info['synced_at'] = time.strftime(...)] *)
Definition stamp (file_info : FileInfo) (t : string) : FileInfo :=
  mkFileInfo (file_id file_info) (name file_info) (path file_info)
             (fsize file_info) (ftype file_info) (md5 file_info) (Some t).

(** The known-files entry of a share record for a path, read the way the
    next tick reads it: through the path-keyed map of [files]. *)
Definition known_entry (s : ShareState) (p : string) : option FileInfo :=
  PyDict.get p (FileComparator.target_map (default [] (files s))).

(** A dictionary whose keys are distinct and are the paths of its
    values. *)
Definition path_keyed (m : PyDict.t FileInfo) : Prop :=
  NoDup (PyDict.keys m) /\
  Forall (fun kv => fst kv = path_key (snd kv)) m.

(** Every request that carries a share and a secret carries these. *)
Definition tick_event (sid : string) (secret : option string) (e : Event)
    : Prop :=
  match e with
  | SaveFileToCloud sk _ _ _ pw _ _ => sk = sid /\ pw = secret
  | ListShare sk pw _ => sk = sid /\ pw = secret
  | _ => True
  end.

(** [_save_monitor_state]: the whole aggregate is written out.  The code
    logs and swallows a failing write; writes are taken to succeed here. *)
Definition save_monitor_state (st : State) : State :=
  mkState (monitor_state st) (emit (Persist (monitor_state st)) (env st)).

Section Tick.
(** Collaborators: the link parser ([None] when it raises
    [ShareLinkError]), the remote listing as flattened by
    [get_file_list] ([None] when it raises), the save backend and
    [time.strftime]. *)
Variable parse_share_link : string -> option (string * option string * string).
Variable remote_listing : string -> option string -> string -> option (list FileInfo).
Variable backend : nat -> Outcome.
Variable strftime : Z -> string.

(** [share_handler.get_file_list(share_key, user_password, link_pwd, host)]:
    the secret of every listing request is resolved inside the handler. *)
Definition get_file_list (share_key : string)
    (user_password link_pwd : option string) (host : string) (e : Env)
    : option (list FileInfo) * Env :=
  let final_pwd := if truthy user_password then user_password else link_pwd in
  (remote_listing share_key final_pwd host,
   emit (ListShare share_key final_pwd host) e).

(** [_transfer_file]: [true] when [sync_file] returns, [false] when it
    (or a missing ['file_id'] / ['path'] key) raises.  [sync_file] runs
    with its default of 3 retries. *)
Definition transfer_file (file_info : FileInfo) (share_id : string)
    (share_pwd : option string) (target : string) (preserve : bool)
    (dup : Z) (e : Env) : bool * Env :=
  match file_id file_info, path file_info with
  | Some fid, Some fpath =>
      match FileSyncer.sync_file backend (Some share_id) (Some fid) target
              share_pwd 3 (Some fpath) preserve (Some file_info) dup e with
      | (FileSyncer.Synced _, e') => (true, e')
      | (_, e') => (false, e')
      end
  | _, _ => (false, e)
  end.

(** The loop state: [success_count], [current_file_map] and the
    monitor's state. *)
Definition LoopState : Type := (Z * PyDict.t FileInfo * State)%type.

(** Body of [for file_info in updated_files]. *)
Definition transfer_step (share_id share_key : string)
    (final_pwd : option string) (target : string) (preserve : bool)
    (dup : Z) (acc : LoopState) (file_info : FileInfo) : LoopState :=
  let '(success_count, current_file_map, st) := acc in
  match transfer_file file_info share_id final_pwd target preserve dup (env st) with
  | (false, e1) =>
      (success_count, current_file_map, mkState (monitor_state st) e1)
  | (true, e1) =>
      let success_count := success_count + 1 in
      let file_info := stamp file_info (strftime (now e1)) in
      let current_file_map :=
        PyDict.set (path_key file_info) file_info current_file_map in
      let current_file_list := PyDict.values current_file_map in
      let record :=
        mkShareState (Some (now e1)) (Some (now e1))
                     (Some current_file_list) (Some success_count) in
      let st1 := mkState (<[share_key := record]> (monitor_state st)) e1 in
      (success_count, current_file_map, save_monitor_state st1)
  end.

(** [for file_info in updated_files: ...] *)
Definition transfer_loop (share_id share_key : string)
    (final_pwd : option string) (target : string) (preserve : bool)
    (dup : Z) (updated_files : list FileInfo) (acc : LoopState) : LoopState :=
  fold_left (transfer_step share_id share_key final_pwd target preserve dup)
            updated_files acc.

(** [_monitor_share_link] *)
Definition monitor_share_link (share_config : ShareConfig) (st : State)
    : State :=
  if negb (default true (enabled share_config)) then st
  else
    let target := target_folder_id share_config in
    let preserve := default true (preserve_path share_config) in
    let dup := default 2 (duplicate share_config) in
    match parse_share_link (url share_config) with
    | None => st
    | Some (share_id, link_pwd, host) =>
        let user_password := password share_config in
        let final_pwd := final_password user_password link_pwd in
        let share_key := generate_share_key share_id final_pwd in
        match get_file_list share_id user_password link_pwd host (env st) with
        | (None, e1) => mkState (monitor_state st) e1
        | (Some file_list, e1) =>
            let share_state := default no_state (monitor_state st !! share_key) in
            let known := default [] (files share_state) in
            let updated_files :=
              FileComparator.get_files_to_sync file_list known in
            match updated_files with
            | _ :: _ =>
                let current_file_map := PyDict.comprehension path_key known in
                snd (transfer_loop share_id share_key final_pwd target
                       preserve dup updated_files
                       (0, current_file_map, mkState (monitor_state st) e1))
            | [] =>
                let new_state :=
                  mkShareState (Some (now e1))
                               (last_sync_time share_state)
                               (Some known)
                               (Some 0) in
                save_monitor_state
                  (mkState (<[share_key := new_state]> (monitor_state st)) e1)
            end
        end
    end.

(** Body of the sequential loop of [monitor_all]: the tick of one share,
    which swallows its own exceptions, then [time.sleep(1)]. *)
Definition monitor_all_step (st : State) (share_config : ShareConfig) : State :=
  let st1 := monitor_share_link share_config st in
  mkState (monitor_state st1) (sleep 1 (env st1)).

(** [monitor_all] with [thread_pool_size == 0]. *)
Definition monitor_all (monitored_shares : list ShareConfig) (st : State)
    : State :=
  fold_left monitor_all_step monitored_shares st.
End Tick.

End Monitor.

(** ** Task scheduler: [TaskScheduler] *)
Module TaskScheduler.
Section Scheduler.
(** Callables and their bound keyword arguments are opaque. *)
Context {Func Kwargs : Type}.

(** A job of the [schedule] library as created by
    [schedule.every(n).seconds.do(task_wrapper)].  The wrapper closes over
    the task id, the callable and its keyword arguments.

    Modelled from the spec: the [schedule] package is not part of the
    sources; a registered entry fires once its interval has elapsed, so a
    fresh job's next fire time is the moment of registration plus its
    interval, and cancelling a job removes that very job object. *)
Record ScheduleJob : Type := mkScheduleJob {
  handle : nat;                 (* identity of the Job object *)
  period : Z;
  next_run : Z;
  wrapped_id : string;
  wrapped_func : Func;
  wrapped_kwargs : Kwargs
}.

(** An element of [self.jobs]. *)
Record JobInfo : Type := mkJobInfo {
  id : string;
  func : Func;
  interval : Z;
  kwargs : Kwargs;
  schedule_job : nat            (* the Job object, by identity *)
}.

Record Scheduler : Type := mkScheduler {
  jobs : list JobInfo;               (* self.jobs *)
  library_jobs : list ScheduleJob;   (* the schedule library's job list *)
  next_handle : nat;                 (* allocator of object identities *)
  running : bool                     (* self.running *)
}.

(** [f"task_{int(time.time())}"] *)
Variable default_task_id : Z -> string.

(** [add_interval_task(task_func, interval_seconds, task_id, **kwargs)]
    called at time [t]. *)
Definition add_interval_task (task_func : Func) (interval_seconds : Z)
    (task_id : option string) (kw : Kwargs) (t : Z) (s : Scheduler)
    : string * Scheduler :=
  let task_id := match task_id with
                 | None => default_task_id t
                 | Some i => i
                 end in
  let job := mkScheduleJob (next_handle s) interval_seconds
                           (t + interval_seconds) task_id task_func kw in
  let job_info := mkJobInfo task_id task_func interval_seconds kw (handle job) in
  (task_id,
   mkScheduler (jobs s ++ [job_info]) (library_jobs s ++ [job])
               (S (next_handle s)) (running s)).

(** First position of [task_id] in [self.jobs], with the job found. *)
Fixpoint find_job (task_id : string) (l : list JobInfo) (i : nat)
    : option (nat * JobInfo) :=
  match l with
  | [] => None
  | job :: rest =>
      if String.eqb (id job) task_id then Some (i, job)
      else find_job task_id rest (S i)
  end.

(** [self.jobs.pop(i)] *)
Definition pop_at (i : nat) (l : list JobInfo) : list JobInfo :=
  take i l ++ drop (S i) l.

(** [schedule.cancel_job(job)] *)
Definition cancel_job (h : nat) (l : list ScheduleJob) : list ScheduleJob :=
  List.filter (fun j => negb (Nat.eqb (handle j) h)) l.

(** [remove_job(task_id)] *)
Definition remove_job (task_id : string) (s : Scheduler) : bool * Scheduler :=
  match find_job task_id (jobs s) 0 with
  | Some (job_to_remove, job) =>
      (true,
       mkScheduler (pop_at job_to_remove (jobs s))
                   (cancel_job (schedule_job job) (library_jobs s))
                   (next_handle s) (running s))
  | None => (false, s)
  end.

(** [update_task_interval(task_id, new_interval_seconds)] called at time
    [t]. *)
Definition update_task_interval (task_id : string) (new_interval_seconds : Z)
    (t : Z) (s : Scheduler) : bool * Scheduler :=
  match find_job task_id (jobs s) 0 with
  | None => (false, s)
  | Some (_, job_to_update) =>
      let task_func := func job_to_update in
      let kw := kwargs job_to_update in
      let s1 := snd (remove_job task_id s) in
      let s2 := snd (add_interval_task task_func new_interval_seconds
                                       (Some task_id) kw t s1) in
      (true, s2)
  end.

(** [start()]: nothing when already running; otherwise the flag is set
    and the scheduler thread started. *)
Definition start (s : Scheduler) : Scheduler :=
  if running s then s
  else mkScheduler (jobs s) (library_jobs s) (next_handle s) true.

(** [stop()]: nothing when not running; otherwise the flag is cleared,
    then [schedule.clear()] and [self.jobs.clear()]. *)
Definition stop (s : Scheduler) : Scheduler :=
  if negb (running s) then s
  else mkScheduler [] [] (next_handle s) false.

(** [get_job_count()] *)
Definition get_job_count (s : Scheduler) : nat := length (jobs s).

(** The next fire time of a registered entry: that of its library job. *)
Definition next_fire (job : JobInfo) (s : Scheduler) : option Z :=
  next_run <$> List.find (fun j => Nat.eqb (handle j) (schedule_job job))
                         (library_jobs s).

(** Identities handed out so far are below the allocator. *)
Definition handles_allocated (s : Scheduler) : Prop :=
  forall j, In j (library_jobs s) -> (handle j < next_handle s)%nat.

(** A registered entry and the library job that runs it. *)
Definition registered_as (job : JobInfo) (j : ScheduleJob) : Prop :=
  schedule_job job = handle j /\ id job = wrapped_id j /\
  interval job = period j /\ func job = wrapped_func j /\
  kwargs job = wrapped_kwargs j.

(** [__init__] *)
Definition init : Scheduler := mkScheduler [] [] 0 false.

(** The operations that change the registrations, each with the clock
    reading it makes. *)
Inductive Op : Type :=
  | AddIntervalTask (f : Func) (interval_seconds : Z)
      (task_id : option string) (kw : Kwargs) (t : Z)
  | RemoveJob (task_id : string)
  | UpdateTaskInterval (task_id : string) (new_interval_seconds : Z) (t : Z)
  | Start
  | Stop.

Definition apply (s : Scheduler) (op : Op) : Scheduler :=
  match op with
  | AddIntervalTask f n i kw t => snd (add_interval_task f n i kw t s)
  | RemoveJob i => snd (remove_job i s)
  | UpdateTaskInterval i n t => snd (update_task_interval i n t s)
  | Start => start s
  | Stop => stop s
  end.

Definition run (ops : list Op) : Scheduler := fold_left apply ops init.
End Scheduler.
Arguments ScheduleJob : clear implicits.
Arguments JobInfo : clear implicits.
Arguments Scheduler : clear implicits.
End TaskScheduler.

(** ** Task monitor: [TaskMonitor] *)
Module TaskMonitor.

Inductive Status : Type := Running | Completed.

(** [details] dictionaries live in a store and are referred to by
    address: [task_info.copy()] is a shallow copy, so a history record
    shares its [details] object with the live status entry. *)
Record TaskInfo : Type := mkTaskInfo {
  task_id : string;
  task_name : string;
  status : Status;
  start_time : Z;
  end_time : option Z;
  duration : option Z;
  success : option bool;
  error : option string;
  details : nat
}.

Record Monitor : Type := mkMonitor {
  task_history : list TaskInfo;
  task_status : gmap string TaskInfo;
  details_store : gmap nat (gmap string string);
  next_details : nat
}.

(** [__init__] *)
Definition init : Monitor := mkMonitor [] ∅ ∅ 0.

(** [start_task(task_id, task_name)] at time [t]. *)
Definition start_task (tid tname : string) (t : Z) (m : Monitor) : Monitor :=
  let info := mkTaskInfo tid tname Running t None None None None (next_details m) in
  mkMonitor (task_history m)
            (<[tid := info]> (task_status m))
            (<[next_details m := ∅]> (details_store m))
            (S (next_details m)).

(** [d.update(extra)]: the keys of [extra] win. *)
Definition dict_update (d extra : gmap string string) : gmap string string :=
  extra ∪ d.

(** [update_task(task_id, details)] *)
Definition update_task (tid : string) (extra : gmap string string)
    (m : Monitor) : Monitor :=
  match task_status m !! tid with
  | Some info =>
      let d := default ∅ (details_store m !! details info) in
      mkMonitor (task_history m) (task_status m)
                (<[details info := dict_update d extra]> (details_store m))
                (next_details m)
  | None => m
  end.

(** The cap written in [complete_task]. *)
Definition max_history : nat := 1000.

(** [complete_task(task_id, success, error, details)] at time [t]. *)
Definition complete_task (tid : string) (ok : bool) (err : option string)
    (extra : option (gmap string string)) (t : Z) (m : Monitor) : Monitor :=
  match task_status m !! tid with
  | Some task_info =>
      let end_time := t in
      let task_info :=
        mkTaskInfo (task_id task_info) (task_name task_info) Completed
                   (start_time task_info) (Some end_time)
                   (Some (end_time - start_time task_info))
                   (Some ok) err (details task_info) in
      let store :=
        match extra with
        | Some x =>
            if bool_decide (x = ∅) then details_store m
            else <[details task_info :=
                     dict_update (default ∅ (details_store m !! details task_info)) x]>
                   (details_store m)
        | None => details_store m
        end in
      let history := task_history m ++ [task_info] in
      let history :=
        if Nat.ltb max_history (length history) then drop 1 history
        else history in
      mkMonitor history (<[tid := task_info]> (task_status m)) store
                (next_details m)
  | None => m
  end.

(** [l[start:]] for a Python list. *)
Definition slice_from {A : Type} (start : Z) (l : list A) : list A :=
  let n := Z.of_nat (length l) in
  let i := if Z.ltb start 0 then Z.max (n + start) 0 else Z.min start n in
  drop (Z.to_nat i) l.

(** [get_recent_history(limit)]: [self.task_history[-limit:]] *)
Definition get_recent_history (limit : Z) (m : Monitor) : list TaskInfo :=
  slice_from (- limit) (task_history m).

(** [clear_history()] *)
Definition clear_history (m : Monitor) : Monitor :=
  mkMonitor [] (task_status m) (details_store m) (next_details m).

(** The mutating operations, each with the clock reading it makes. *)
Inductive Op : Type :=
  | StartTask (tid tname : string) (t : Z)
  | UpdateTask (tid : string) (extra : gmap string string)
  | CompleteTask (tid : string) (ok : bool) (err : option string)
      (extra : option (gmap string string)) (t : Z)
  | ClearHistory.

Definition apply (m : Monitor) (op : Op) : Monitor :=
  match op with
  | StartTask tid tname t => start_task tid tname t m
  | UpdateTask tid extra => update_task tid extra m
  | CompleteTask tid ok err extra t => complete_task tid ok err extra t m
  | ClearHistory => clear_history m
  end.

Definition run (ops : list Op) : Monitor := fold_left apply ops init.

(** The [n] most recent records of a history, oldest first. *)
Definition most_recent {A : Type} (n : nat) (l : list A) : list A :=
  drop (length l - n)%nat l.

(** [get_task_status(task_id)] *)
Definition get_task_status (tid : string) (m : Monitor) : option TaskInfo :=
  task_status m !! tid.

(** [task['details']] as a reader of a record sees it now. *)
Definition details_of (m : Monitor) (r : TaskInfo) : gmap string string :=
  default ∅ (details_store m !! details r).

(** [task['success'] is True], [task['success'] is False] and
    [task['status'] == 'running']. *)
Definition is_success (r : TaskInfo) : bool :=
  match success r with Some true => true | _ => false end.
Definition is_failure (r : TaskInfo) : bool :=
  match success r with Some false => true | _ => false end.
Definition is_running (r : TaskInfo) : bool :=
  match status r with Running => true | Completed => false end.

Record Statistics : Type := mkStatistics {
  total_executed : nat;
  success_count : nat;
  failed_count : nat;
  running_count : nat
}.

(** [get_statistics()] *)
Definition get_statistics (m : Monitor) : Statistics :=
  mkStatistics
    (length (task_history m))
    (length (List.filter is_success (task_history m)))
    (length (List.filter is_failure (task_history m)))
    (length (List.filter is_running (map snd (map_to_list (task_status m))))).

(** Every [details] object referred to was created by [start_task]. *)
Definition details_allocated (m : Monitor) : Prop :=
  Forall (fun r => (details r < next_details m)%nat) (task_history m) /\
  map_Forall (fun _ r => (details r < next_details m)%nat) (task_status m).

End TaskMonitor.

(** ** Scheduler manager: the wrapper of [SchedulerManager.add_task] *)
Module SchedulerManager.

(** What the wrapped callable does when it is called: it returns [None],
    a dictionary or another value, or it raises. *)
Inductive TaskResult : Type :=
  | ReturnsNone
  | ReturnsDict (d : gmap string string)
  | ReturnsValue (v : string)
  | RaisesError (e : string).

(** [success], [error] and [details] after the [try] block. *)
Definition task_success (result : TaskResult) : bool :=
  match result with RaisesError _ => false | _ => true end.
Definition task_error (result : TaskResult) : option string :=
  match result with RaisesError e => Some e | _ => None end.
Definition task_details (result : TaskResult) : gmap string string :=
  match result with
  | ReturnsDict d => TaskMonitor.dict_update ∅ d
  | ReturnsValue v => <["result" := v]> ∅
  | ReturnsNone | RaisesError _ => ∅
  end.

(** [monitored_task()]: the callable starts at time [t0] and is over at
    time [t1]; it does not itself touch the task monitor. *)
Definition monitored_task (task_id task_name : string) (result : TaskResult)
    (t0 t1 : Z) (m : TaskMonitor.Monitor) : TaskMonitor.Monitor :=
  let m1 := TaskMonitor.start_task task_id task_name t0 m in
  TaskMonitor.complete_task task_id (task_success result) (task_error result)
    (Some (task_details result)) t1 m1.

End SchedulerManager.

(** ** Grouping by directory: [FileComparator.group_files_by_directory] *)
Module Grouping.

(** [s.rsplit('/', 1)[0]]: what precedes the last ['/'], or [s] itself when
    there is none. *)
Fixpoint rsplit_slash_head (s : string) : string :=
  match s with
  | EmptyString => EmptyString
  | String c s' =>
      if Ascii.eqb c "/" && negb (has_slash s') then EmptyString
      else String c (rsplit_slash_head s')
  end.

(** [file_path.rsplit('/', 1)[0] if '/' in file_path else ''] *)
Definition directory_of (file_path : string) : string :=
  if has_slash file_path then rsplit_slash_head file_path else "".

(** One iteration of the loop over [files]. *)
Definition group_step (grouped_files : PyDict.t (list FileInfo))
    (file_info : FileInfo) : PyDict.t (list FileInfo) :=
  let file_path := path_key file_info in
  let directory := directory_of file_path in
  let grouped_files :=
    match PyDict.get directory grouped_files with
    | None => PyDict.set directory [] grouped_files
    | Some _ => grouped_files
    end in
  PyDict.set directory
    (default [] (PyDict.get directory grouped_files) ++ [file_info])
    grouped_files.

Definition group_files_by_directory (files : list FileInfo)
    : PyDict.t (list FileInfo) :=
  fold_left group_step files PyDict.empty.

(** The files of one directory, in listing order. *)
Definition files_in (directory : string) (files : list FileInfo) : list FileInfo :=
  List.filter (fun f => String.eqb (directory_of (path_key f)) directory) files.

End Grouping.

(** ** File names sent to the save API: [Cloud123APIClient.save_shared_file]

    Python strings are lists of characters here, so that lengths and slices
    read as in the source. *)
Module ApiClient.

(** A Python [str] is a sequence of Unicode code points: [len], indices
    and slices count code points, whatever the encoding of the text. *)
Definition str : Type := list N.

(** The code point of an ASCII character. *)
Definition chr (c : ascii) : N := N_of_ascii c.

(** [invalid_chars]: double quote, backslash, colon, star, question mark,
    bar, greater-than, less-than and, unless directories are kept, slash. *)
Definition invalid_chars (contain_dir : bool) : str :=
  List.map chr [ascii_of_nat 34; "\"; ":"; "*"; "?"; "|"; ">"; "<"]%char ++
  (if contain_dir then [] else [chr "/"]).

(** [s.replace(char, '')] for a single character. *)
Definition replace_char (char : N) (s : str) : str :=
  List.filter (fun x => negb (N.eqb x char)) s.

(** [for char in invalid_chars: filename = filename.replace(char, '')] *)
Definition strip_invalid (contain_dir : bool) (filename : str)
    : str :=
  fold_left (fun f char => replace_char char f) (invalid_chars contain_dir)
            filename.

(** [s.rfind(c)]: the index of the last occurrence, or [-1]. *)
Fixpoint rfind_from (c : N) (s : str) (i found : Z) : Z :=
  match s with
  | [] => found
  | x :: s' => rfind_from c s' (i + 1) (if N.eqb x c then i else found)
  end.

Definition rfind (c : N) (s : str) : Z := rfind_from c s 0 (-1).

(** [s[:n]] and [s[n:]] *)
Definition slice_to (n : Z) (s : str) : str :=
  let len := Z.of_nat (length s) in
  take (Z.to_nat (if Z.ltb n 0 then Z.max (len + n) 0 else n)) s.

Definition slice_from (n : Z) (s : str) : str :=
  let len := Z.of_nat (length s) in
  drop (Z.to_nat (if Z.ltb n 0 then Z.max (len + n) 0 else n)) s.

(** [s[i:j]] for indices that are not negative. *)
Definition slice (i j : Z) (s : str) : str :=
  take (Z.to_nat j - Z.to_nat i) (drop (Z.to_nat i) s).

(** [os.path.splitext(p)] as the standard library computes it: the
    extension starts at the last dot, provided that dot comes after the last
    slash and is preceded, within the last path component, by a character
    that is not a dot. *)
Definition splitext (p : str) : str * str :=
  let sepIndex := rfind (chr "/") p in
  let dotIndex := rfind (chr ".") p in
  if Z.ltb sepIndex dotIndex then
    if existsb (fun x => negb (N.eqb x (chr "."))) (slice (sepIndex + 1) dotIndex p)
    then (slice_to dotIndex p, slice_from dotIndex p)
    else (p, [])
  else (p, []).

(** The body of [if filename: ...]: strip the invalid characters, then cut
    the name down when it is longer than 256 characters. *)
Definition clean_filename (contain_dir : bool) (filename : str)
    : str :=
  let filename := strip_invalid contain_dir filename in
  if Nat.ltb 256 (length filename) then
    let '(name_part, ext_part) := splitext filename in
    slice_to (256 - Z.of_nat (length ext_part)) name_part ++ ext_part
  else filename.

(** The ["filename"] field of the request:
    [filename if filename else file_id], after the cleaning above. *)
Definition request_filename (file_id : str)
    (filename : option str) (contain_dir : bool) : str :=
  let filename :=
    match filename with
    | Some (c :: f) => Some (clean_filename contain_dir (c :: f))
    | other => other
    end in
  match filename with
  | Some (c :: f) => c :: f
  | _ => file_id
  end.

(** What an attempt to save meets: an error before any answer can be read
    (no token, [file_info] missing, a target folder that is no number, a
    transport error, a body that is not JSON), or an answer with its HTTP
    status and the ['code'] of its body. *)
Inductive Response : Type :=
  | NoAnswer (e : string)
  | Answer (status_code : Z) (code : option Z).

(** What [save_shared_file] gives its caller: the body when the status is
    200 and the code is 0, and an [APIError] in every other case.
    [save_file_to_cloud] hands the body on and raises every exception again
    as [ShareLinkError]. *)
Definition save_shared_file (r : Response) : Outcome :=
  match r with
  | NoAnswer e => Raises e
  | Answer status_code code =>
      if negb (Z.eqb status_code 200) then Raises "status code is not 200"
      else
        match code with
        | Some 0 => Returns (Some (mkSaveResult code))
        | _ => Raises "code is not 0"
        end
  end.

(** A character the cleaning lets through. *)
Definition allowed (contain_dir : bool) (x : N) : bool :=
  negb (existsb (N.eqb x) (invalid_chars contain_dir)).

End ApiClient.

(** ** Share links: [ShareHandler.parse_share_link] *)
Module ShareHandler.

(** The rest of [s] after the literal [pre], when [s] starts with it. *)
Fixpoint strip_prefix (pre s : string) : option string :=
  match pre with
  | EmptyString => Some s
  | String c pre' =>
      match s with
      | String d s' => if Ascii.eqb c d then strip_prefix pre' s' else None
      | EmptyString => None
      end
  end.

(** The longest prefix of [s] made of characters of a class, and what
    follows it: a greedy [[...]+] with nothing left to give back. *)
Fixpoint take_while (p : ascii -> bool) (s : string) : string :=
  match s with
  | String c s' => if p c then String c (take_while p s') else EmptyString
  | EmptyString => EmptyString
  end.

Fixpoint drop_while (p : ascii -> bool) (s : string) : string :=
  match s with
  | String c s' => if p c then drop_while p s' else s
  | EmptyString => EmptyString
  end.

(** [re.search]: the match at the leftmost position where one exists. *)
Fixpoint search {A : Type} (match_at : string -> option A) (s : string)
    : option A :=
  match match_at s with
  | Some x => Some x
  | None =>
      match s with
      | EmptyString => None
      | String _ s' => search match_at s'
      end
  end.

(** The character classes [[^/]], [[^?/]] and [[^&#]]. *)
Definition not_slash (c : ascii) : bool := negb (Ascii.eqb c "/").
Definition not_query_slash (c : ascii) : bool :=
  negb (Ascii.eqb c "?" || Ascii.eqb c "/").
Definition not_amp_hash (c : ascii) : bool :=
  negb (Ascii.eqb c "&" || Ascii.eqb c "#").

(** [https?://([^/]+)/s/([^?/]+)] at the start of [s]: host and share
    key. *)
Definition match_link_at (s : string) : option (string * string) :=
  match strip_prefix "http" s with
  | None => None
  | Some r =>
      let after_scheme :=
        match strip_prefix "s://" r with
        | Some r' => Some r'
        | None => strip_prefix "://" r
        end in
      match after_scheme with
      | None => None
      | Some r1 =>
          let host := take_while not_slash r1 in
          if String.eqb host "" then None
          else
            match strip_prefix "/s/" (drop_while not_slash r1) with
            | None => None
            | Some r2 =>
                let share_key := take_while not_query_slash r2 in
                if String.eqb share_key "" then None
                else Some (host, share_key)
            end
      end
  end.

(** [pwd=([^&#]+)] at the start of [s]. *)
Definition match_pwd_at (s : string) : option string :=
  match strip_prefix "pwd=" s with
  | None => None
  | Some r =>
      let password := take_while not_amp_hash r in
      if String.eqb password "" then None else Some password
  end.

(** [parse_share_link(share_url)]: share key, extraction code of the link
    and host; [None] when it raises [ShareLinkError]. *)
Definition parse_share_link (share_url : string)
    : option (string * option string * string) :=
  match search match_link_at share_url with
  | None => None
  | Some (host, share_key) =>
      Some (share_key, search match_pwd_at share_url, host)
  end.

(** Every character of a string is of a class. *)
Fixpoint all_chars (p : ascii -> bool) (s : string) : bool :=
  match s with
  | EmptyString => true
  | String c s' => p c && all_chars p s'
  end.

Definition not_equals (c : ascii) : bool := negb (Ascii.eqb c "=").

(** [save_file_to_cloud(share_key, file_id, target_folder_id, file_path,
    share_pwd, preserve_path, file_info, duplicate)]: the call of
    [api_client.save_shared_file] it makes. *)
Definition save_file_to_cloud (share_key fid target file_path : string)
    (share_pwd : option string) (preserve_path : bool)
    (file_info : option FileInfo) (dup : Z) : Event :=
  if preserve_path then
    SaveSharedFile fid file_info target (Some file_path) true dup
  else
    SaveSharedFile fid file_info target (Some (flat_filename file_path)) false dup.

End ShareHandler.

(** ** Listing a share: [ShareHandler.get_file_list]

    What the share serves is given as a finite tree: for each folder either
    the files and sub-folders [_get_share_file_list] returns for it (all
    pages together), or a failure. *)
Module Listing.

(** An element of [files] as [_get_share_file_list] returns it. *)
Record RawFile : Type := mkRawFile {
  raw_file_id : string;
  raw_name : string;
  raw_size : Z;
  raw_etag : string
}.

(** A folder of the share: its listing fails, or it has files and named
    sub-folders. *)
#[warnings="-register-all"] Inductive Folder : Type :=
  | Unavailable
  | Content (files : list RawFile) (folders : list (string * Folder)).

(** [f"{current_path}/{name}" if current_path else name] *)
Definition child_path (current_path name : string) : string :=
  if String.eqb current_path "" then name
  else (current_path ++ "/" ++ name)%string.

(** The [file_info] built for a file of the folder at [current_path]. *)
Definition file_entry (current_path : string) (file : RawFile) : FileInfo :=
  mkFileInfo (Some (raw_file_id file)) (raw_name file)
             (Some (child_path current_path (raw_name file)))
             (raw_size file) (Some 0) (Some (raw_etag file)) None.

(** [get_file_list(share_key, user_password, link_pwd, current_path,
    parent_folder_id, host)]: the files of the folder, then those of each
    sub-folder in turn; [None] when a listing request raises. *)
Fixpoint get_file_list (current_path : string) (folder : Folder)
    : option (list FileInfo) :=
  match folder with
  | Unavailable => None
  | Content files folders =>
      let all_files := List.map (file_entry current_path) files in
      let fix subfolders (l : list (string * Folder)) (all_files : list FileInfo)
          : option (list FileInfo) :=
        match l with
        | [] => Some all_files
        | (folder_name, sub) :: rest =>
            let folder_path := child_path current_path folder_name in
            match get_file_list folder_path sub with
            | None => None
            | Some subfolder_files => subfolders rest (all_files ++ subfolder_files)
            end
        end in
      subfolders folders all_files
  end.

(** The names directly inside a folder. *)
Definition names (folder : Folder) : list string :=
  match folder with
  | Unavailable => []
  | Content files folders => List.map raw_name files ++ List.map fst folders
  end.

(** Every folder of the tree can be listed. *)
Fixpoint available (folder : Folder) : bool :=
  match folder with
  | Unavailable => false
  | Content _ folders =>
      (fix all (l : list (string * Folder)) : bool :=
         match l with
         | [] => true
         | (_, sub) :: rest => available sub && all rest
         end) folders
  end.

(** The number of files in the tree. *)
Fixpoint file_count (folder : Folder) : nat :=
  match folder with
  | Unavailable => 0
  | Content files folders =>
      (length files +
       (fix total (l : list (string * Folder)) : nat :=
          match l with
          | [] => 0
          | (_, sub) :: rest => file_count sub + total rest
          end) folders)%nat
  end.

(** Names are not empty and have no slash, the names inside one folder
    are distinct, and every file has an identifier; in every folder of the
    tree. *)
Fixpoint well_named (folder : Folder) : Prop :=
  match folder with
  | Unavailable => True
  | Content files folders =>
      NoDup (names (Content files folders)) /\
      Forall (fun n => n <> "" /\ has_slash n = false)
             (names (Content files folders)) /\
      Forall (fun file => raw_file_id file <> "") files /\
      (fix all (l : list (string * Folder)) : Prop :=
         match l with
         | [] => True
         | (_, sub) :: rest => well_named sub /\ all rest
         end) folders
  end.

(** The files of the tree, each with the names of the folders that lead to
    it from the top, in the order of a walk that takes the files of a folder
    first and then its sub-folders in turn. *)
Fixpoint tree_files (folder : Folder) : list (list string * RawFile) :=
  match folder with
  | Unavailable => []
  | Content files folders =>
      List.map (fun file => ([], file)) files ++
      (fix walk (l : list (string * Folder)) : list (list string * RawFile) :=
         match l with
         | [] => []
         | (folder_name, sub) :: rest =>
             List.map (fun located => (folder_name :: fst located, snd located))
                      (tree_files sub) ++ walk rest
         end) folders
  end.

(** The path of the folder reached from [current_path] through the
    sub-folders named, and the entry of a file located there. *)
Definition folder_path (current_path : string) (folder_names : list string)
    : string :=
  fold_left child_path folder_names current_path.

Definition located_entry (current_path : string)
    (located : list string * RawFile) : FileInfo :=
  file_entry (folder_path current_path (fst located)) (snd located).

(** What is expected of one listed entry: it is a file, with a path made
    of the path of its folder and its name. *)
Definition listed_entry (f : FileInfo) : Prop :=
  is_directory f = false /\ synced_at f = None /\ md5 f <> None /\
  exists folder_path,
    path f = Some (child_path folder_path (name f)) /\
    (has_slash (name f) = false ->
     flat_filename (path_key f) = name f /\
     Grouping.directory_of (path_key f) = folder_path).

End Listing.

(** ** From a save call of [sync_file] to the call of [save_shared_file] *)
Module Request.

(** The call of [save_shared_file] a save call of [sync_file] ends in:
    [sync_file] calls [save_file_to_cloud] without [preserve_path], which
    is then [True]. *)
Definition api_call (e : Event) : option Event :=
  match e with
  | SaveFileToCloud share_key fid target file_path share_pwd info dup =>
      Some (ShareHandler.save_file_to_cloud share_key fid target file_path
              share_pwd true info dup)
  | SaveSharedFile _ _ _ _ _ _ => Some e
  | _ => None
  end.

End Request.

(** ** State clean-up of the web console: [update_config] in [app.py] *)
Module App.

(** [https?://[^/]+/s/([^?/]+)] at the start of [s]: the share id. *)
Definition match_share_id_at (s : string) : option string :=
  match ShareHandler.strip_prefix "http" s with
  | None => None
  | Some r =>
      let after_scheme :=
        match ShareHandler.strip_prefix "s://" r with
        | Some r' => Some r'
        | None => ShareHandler.strip_prefix "://" r
        end in
      match after_scheme with
      | None => None
      | Some r1 =>
          if String.eqb (ShareHandler.take_while ShareHandler.not_slash r1) ""
          then None
          else
            match ShareHandler.strip_prefix "/s/"
                    (ShareHandler.drop_while ShareHandler.not_slash r1) with
            | None => None
            | Some r2 =>
                let share_id :=
                  ShareHandler.take_while ShareHandler.not_query_slash r2 in
                if String.eqb share_id "" then None else Some share_id
            end
      end
  end.

(** The key computed for one configured share, when its address
    matches. *)
Definition share_key_of (share : Monitor.ShareConfig) : option string :=
  let url := Monitor.url share in
  match ShareHandler.search match_share_id_at url with
  | None => None
  | Some share_id =>
      let url_password := ShareHandler.search ShareHandler.match_pwd_at url in
      let user_password := Monitor.password share in
      let final_password :=
        if truthy user_password then user_password else url_password in
      Some (share_id ++ "_" ++
            (if truthy final_password then default "" final_password
             else "no_pwd"))%string
  end.

(** [current_share_keys] *)
Definition current_share_keys (shares : list Monitor.ShareConfig) : list string :=
  omap share_key_of shares.

(** The state that is written back: the records whose key belongs to a
    configured share. *)
Definition clean_monitor_state (shares : list Monitor.ShareConfig)
    (monitor_state : gmap string ShareState) : gmap string ShareState :=
  filter (fun kv => fst kv ∈ current_share_keys shares) monitor_state.

End App.

(** ** Configured shares: [ConfigManager.add_monitored_share] and
    [ConfigManager.remove_monitored_share]

    Each operation returns the new list of [monitored_shares] and whether
    the configuration file was written. *)
Module ConfigManager.

(** [add_monitored_share(share_url, target_folder_id, enabled,
    preserve_path, password)] *)
Definition add_monitored_share (share_url target_folder_id : string)
    (enabled preserve_path : bool) (password : option string)
    (shares : list Monitor.ShareConfig) : list Monitor.ShareConfig * bool :=
  if existsb (fun share => String.eqb (Monitor.url share) share_url) shares
  then (shares, false)
  else
    let new_share :=
      Monitor.mkShareConfig share_url target_folder_id (Some enabled)
                            (Some preserve_path) None password in
    (shares ++ [new_share], true).

(** [remove_monitored_share(share_url)] *)
Definition remove_monitored_share (share_url : string)
    (shares : list Monitor.ShareConfig) : list Monitor.ShareConfig * bool :=
  let new_shares :=
    List.filter (fun share => negb (String.eqb (Monitor.url share) share_url))
                shares in
  if negb (Nat.eqb (length new_shares) (length shares))
  then (new_shares, true)
  else (shares, false).

Inductive Op : Type :=
  | AddMonitoredShare (share_url target_folder_id : string)
      (enabled preserve_path : bool) (password : option string)
  | RemoveMonitoredShare (share_url : string).

Definition apply (shares : list Monitor.ShareConfig) (op : Op)
    : list Monitor.ShareConfig :=
  match op with
  | AddMonitoredShare u t e p pw => fst (add_monitored_share u t e p pw shares)
  | RemoveMonitoredShare u => fst (remove_monitored_share u shares)
  end.

(** Operations applied to the list of the default configuration, which is
    empty. *)
Definition run (ops : list Op) : list Monitor.ShareConfig :=
  fold_left apply ops [].

End ConfigManager.

(** ** Sample data *)
Module Samples.

Definition file (fid fpath fmd5 : string) : FileInfo :=
  mkFileInfo (Some fid) (flat_filename fpath) (Some fpath) 1 (Some 0)
             (Some fmd5) None.

(** Two listed entries with the same path and different fingerprints. *)
Definition a_x : FileInfo := file "1" "a.txt" "X".
Definition a_y : FileInfo := file "2" "a.txt" "Y".
Definition b_x : FileInfo := file "3" "docs/b.txt" "X".

(** A folder entry. *)
Definition folder : FileInfo :=
  mkFileInfo (Some "9") "docs" (Some "docs") 0 (Some 1) None None.

Definition ok_result : option SaveResult := Some (mkSaveResult (Some 0)).

(** A backend whose first two calls raise and whose later calls succeed. *)
Definition raises_twice (n : nat) : Outcome :=
  if Nat.ltb n 2 then Raises "timeout" else Returns ok_result.

Definition always_ok (n : nat) : Outcome := Returns ok_result.

(** The save endpoint answers with code 1, then the connection fails, then
    it answers with code 0. *)
Definition fails_twice (n : nat) : ApiClient.Response :=
  match n with
  | 0%nat => ApiClient.Answer 200 (Some 1)
  | 1%nat => ApiClient.NoAnswer "connection reset"
  | _ => ApiClient.Answer 200 (Some 0)
  end.

Definition always_raises (n : nat) : Outcome := Raises "connection reset".

(** A name of 300 letters with the extension [.txt], and a one-letter name
    with an extension of 300 letters. *)
Definition long_name : ApiClient.str :=
  repeat (ApiClient.chr "a") 300 ++ List.map ApiClient.chr ["."; "t"; "x"; "t"]%char.

Definition long_extension : ApiClient.str :=
  List.map ApiClient.chr ["a"; "."]%char ++ repeat (ApiClient.chr "b") 300.

(** Names of 90 and of 300 characters outside ASCII (code point 20013,
    three bytes in UTF-8) with the extension [.txt]. *)
Definition wide_name (n : nat) : ApiClient.str :=
  repeat 20013%N n ++ List.map ApiClient.chr ["."; "t"; "x"; "t"]%char.

Definition env0 : Env := mkEnv 0 0 [].

(** A share whose address carries the extraction code [abcd]. *)
Definition share : Monitor.ShareConfig :=
  Monitor.mkShareConfig "https://www.123865.com/s/k1-x?pwd=abcd" "42"
                        None None None None.

Definition parse (u : string) : option (string * option string * string) :=
  Some ("k1-x", Some "abcd", "www.123865.com").

Definition strftime (t : Z) : string := "2024-01-01 00:00:00".

(** The share lists one file that is already known. *)
Definition listing_known (k : string) (pw : option string) (h : string)
    : option (list FileInfo) := Some [a_x].

(** The share lists two files, neither of them known. *)
Definition listing_two (k : string) (pw : option string) (h : string)
    : option (list FileInfo) := Some [a_x; b_x].

(** A monitor that synced [a.txt] in an earlier tick at time 100. *)
Definition synced_before : Monitor.State :=
  Monitor.mkState
    {[ "k1-x_abcd" := mkShareState (Some 100) (Some 100)
                        (Some [Monitor.stamp a_x "2023-12-31 23:00:00"]) (Some 1) ]}
    (mkEnv 500 0 []).

Definition fresh : Monitor.State := Monitor.mkState ∅ (mkEnv 500 0 []).

(** A task monitor that has seen three complete runs of one task. *)
Definition three_runs : TaskMonitor.Monitor :=
  TaskMonitor.run
    [TaskMonitor.StartTask "monitor_all_shares" "monitor" 0;
     TaskMonitor.CompleteTask "monitor_all_shares" true None None 5;
     TaskMonitor.StartTask "monitor_all_shares" "monitor" 60;
     TaskMonitor.CompleteTask "monitor_all_shares" false (Some "timeout") None 65;
     TaskMonitor.StartTask "monitor_all_shares" "monitor" 120;
     TaskMonitor.CompleteTask "monitor_all_shares" true None None 125].

(** A share with one file at the top and one in the folder [docs]. *)
Definition tree : Listing.Folder :=
  Listing.Content
    [Listing.mkRawFile "1" "a.txt" 1 "X"]
    [("docs", Listing.Content [Listing.mkRawFile "3" "b.txt" 1 "X"] [])].

(** A monitor with one task under way. *)
Definition one_started : TaskMonitor.Monitor :=
  TaskMonitor.run [TaskMonitor.StartTask "job" "monitor" 0].

End Samples.

(** * Properties *)

(** ** Dictionaries *)

Lemma pydict_get_set {V : Type} (k k' : string) (v : V) (d : PyDict.t V) :
  PyDict.get k (PyDict.set k' v d) =
  if String.eqb k k' then Some v else PyDict.get k d.
Proof.
  induction d as [|[k0 v0] d IH]; simpl.
  - reflexivity.
  - destruct (String.eqb_spec k' k0) as [->|Hne]; simpl.
    + destruct (String.eqb_spec k k0); reflexivity.
    + destruct (String.eqb_spec k k0) as [->|Hne'].
      * destruct (String.eqb_spec k0 k'); [congruence | reflexivity].
      * exact IH.
Qed.

Lemma last_cons_option {A : Type} (x : A) (l : list A) :
  last (x :: l) = match last l with Some y => Some y | None => Some x end.
Proof. destruct l as [|y l]; [reflexivity|]. rewrite last_cons. reflexivity. Qed.

Lemma pydict_get_fold (p : string) (l : list FileInfo) (d : PyDict.t FileInfo) :
  PyDict.get p (fold_left (fun d x => PyDict.set (path_key x) x d) l d) =
  match FileComparator.known_descriptor l p with
  | Some k => Some k
  | None => PyDict.get p d
  end.
Proof.
  revert d. induction l as [|x l IH]; intros d; simpl.
  - reflexivity.
  - rewrite IH. unfold FileComparator.known_descriptor. simpl.
    rewrite pydict_get_set.
    destruct (String.eqb p (path_key x)).
    + rewrite last_cons_option.
      destruct (last (List.filter _ l)); reflexivity.
    + reflexivity.
Qed.

(** The dictionary comprehension keeps, for every path, the last entry of
    the list with that path. *)
Lemma target_map_lookup (known : list FileInfo) (p : string) :
  PyDict.get p (FileComparator.target_map known) =
  FileComparator.known_descriptor known p.
Proof.
  unfold FileComparator.target_map, PyDict.comprehension.
  rewrite pydict_get_fold. simpl.
  destruct (FileComparator.known_descriptor known p); reflexivity.
Qed.

(** ** Change detector *)

Lemma compare_step_due (known : list FileInfo) (acc : list FileInfo) (f : FileInfo) :
  FileComparator.compare_step (FileComparator.target_map known) acc f =
  acc ++ (if FileComparator.due known f then [f] else []).
Proof.
  unfold FileComparator.compare_step, FileComparator.due.
  rewrite target_map_lookup.
  destruct (is_directory f); simpl.
  - now rewrite app_nil_r.
  - destruct (FileComparator.known_descriptor known (path_key f)) as [k|].
    + destruct (negb _); [reflexivity | now rewrite app_nil_r].
    + reflexivity.
Qed.

Lemma compare_loop_filter (known src acc : list FileInfo) :
  fold_left (FileComparator.compare_step (FileComparator.target_map known)) src acc =
  acc ++ List.filter (FileComparator.due known) src.
Proof.
  revert acc. induction src as [|f src IH]; intros acc; simpl.
  - now rewrite app_nil_r.
  - rewrite IH, compare_step_due.
    destruct (FileComparator.due known f); simpl.
    + now rewrite <- app_assoc.
    + now rewrite app_nil_r.
Qed.

Lemma get_files_to_sync_filter (src known : list FileInfo) :
  FileComparator.get_files_to_sync src known =
  List.filter (FileComparator.due known) src.
Proof. unfold FileComparator.get_files_to_sync. apply compare_loop_filter. Qed.

(** C1: [get_files_to_sync] returns exactly the entries of the source list
    that are not directories and whose path is unknown to the path-keyed map
    of the known list (which holds, per path, the last known entry) or known
    with a different fingerprint, missing fingerprints read as the empty
    string; the entries come out in the order of the source list, and no
    directory is ever returned. *)
Theorem get_files_to_sync_exact (source_files known : list FileInfo) :
  (forall p, PyDict.get p (FileComparator.target_map known) =
             last (List.filter (fun k => String.eqb p (path_key k)) known)) /\
  FileComparator.get_files_to_sync source_files known =
    List.filter
      (fun f =>
         negb (is_directory f) &&
         match PyDict.get (path_key f) (FileComparator.target_map known) with
         | None => true
         | Some k => negb (String.eqb (default "" (md5 f)) (default "" (md5 k)))
         end)
      source_files /\
  (forall f, In f (FileComparator.get_files_to_sync source_files known) ->
             In f source_files /\ is_directory f = false).
Proof.
  split; [|split].
  - intros p. apply target_map_lookup.
  - rewrite get_files_to_sync_filter. apply List.filter_ext.
    intros f. unfold FileComparator.due. now rewrite target_map_lookup.
  - intros f Hin. rewrite get_files_to_sync_filter in Hin.
    apply List.filter_In in Hin as [Hin Hdue]. split; [exact Hin|].
    unfold FileComparator.due in Hdue.
    apply andb_true_iff in Hdue as [Hd _].
    now apply negb_true_iff in Hd.
Qed.

(** The three basic cases: a new file, a changed file, an unchanged file;
    and a folder entry, which is never returned. *)
Example new_file_is_due :
  FileComparator.get_files_to_sync [Samples.a_x] [] = [Samples.a_x].
Proof. reflexivity. Qed.

Example changed_file_is_due :
  FileComparator.get_files_to_sync [Samples.a_y] [Samples.a_x] = [Samples.a_y].
Proof. reflexivity. Qed.

Example unchanged_file_is_skipped :
  FileComparator.get_files_to_sync [Samples.a_x] [Samples.a_x] = [].
Proof. reflexivity. Qed.

Example folder_is_skipped :
  FileComparator.get_files_to_sync [Samples.folder; Samples.b_x] [] = [Samples.b_x].
Proof. reflexivity. Qed.

Example flat_filename_of_nested_path : flat_filename "docs/sub/b.txt" = "b.txt".
Proof. reflexivity. Qed.

Lemma known_descriptor_Some (l : list FileInfo) (p : string) (k : FileInfo) :
  FileComparator.known_descriptor l p = Some k -> In k l /\ path_key k = p.
Proof.
  unfold FileComparator.known_descriptor. intros H.
  apply last_Some in H as [l' Hl'].
  assert (Hin : In k (List.filter (fun k0 => String.eqb p (path_key k0)) l)).
  { rewrite Hl'. apply in_or_app. right. now left. }
  apply List.filter_In in Hin as [Hin Hp]. split; [exact Hin|].
  symmetry. now apply String.eqb_eq.
Qed.

Lemma known_descriptor_In (l : list FileInfo) (f : FileInfo) :
  In f l -> FileComparator.known_descriptor l (path_key f) <> None.
Proof.
  unfold FileComparator.known_descriptor. intros Hin Hnone.
  apply last_None in Hnone.
  assert (Hf : In f (List.filter (fun k0 => String.eqb (path_key f) (path_key k0)) l)).
  { apply List.filter_In. split; [exact Hin | apply String.eqb_refl]. }
  rewrite Hnone in Hf. destruct Hf.
Qed.

(** A list whose equal paths carry equal fingerprints has nothing due
    against itself. *)
Lemma nothing_due_against_self (l : list FileInfo) :
  FileComparator.consistent_fingerprints l ->
  List.filter (FileComparator.due l) l = [].
Proof.
  intros Hcons.
  assert (H : forall f, In f l -> FileComparator.due l f = false).
  { intros f Hin. unfold FileComparator.due.
    destruct (FileComparator.known_descriptor l (path_key f)) as [k|] eqn:Hk.
    - apply known_descriptor_Some in Hk as [Hkin Hkp].
      rewrite (Hcons f k Hin Hkin (eq_sym Hkp)), String.eqb_refl.
      simpl. apply andb_false_r.
    - now apply known_descriptor_In in Hk. }
  revert H. generalize (FileComparator.due l).
  induction l as [|x l IH]; intros d H; simpl; [reflexivity|].
  rewrite (H x (or_introl eq_refl)). apply IH; [|intros f Hf; apply H; now right].
  intros f g Hf Hg. apply Hcons; now right.
Qed.

(** C8, as stated, fails: listing the same path twice with different
    fingerprints gives an output that is not empty when fed back as both
    source and known list. *)
Lemma get_files_to_sync_not_idempotent :
  let out := FileComparator.get_files_to_sync [Samples.a_x; Samples.a_y] [] in
  out = [Samples.a_x; Samples.a_y] /\
  FileComparator.get_files_to_sync out out = [Samples.a_x] /\
  FileComparator.get_files_to_sync out out <> [].
Proof. vm_compute. repeat split; discriminate. Qed.

(** C8, amended: whenever the output of [get_files_to_sync] has no two
    entries with the same path and different fingerprints, feeding that
    output back as both source and known list yields the empty list. *)
Theorem get_files_to_sync_idempotent (source_files known : list FileInfo) :
  FileComparator.consistent_fingerprints
    (FileComparator.get_files_to_sync source_files known) ->
  FileComparator.get_files_to_sync
    (FileComparator.get_files_to_sync source_files known)
    (FileComparator.get_files_to_sync source_files known) = [].
Proof.
  intros Hcons. rewrite (get_files_to_sync_filter (FileComparator.get_files_to_sync _ _)).
  now apply nothing_due_against_self.
Qed.

(** The amended idempotence at a listing of two different paths. *)
Lemma get_files_to_sync_idempotent_witness :
  FileComparator.consistent_fingerprints
    (FileComparator.get_files_to_sync [Samples.a_x; Samples.b_x] [Samples.a_y]) /\
  FileComparator.get_files_to_sync
    (FileComparator.get_files_to_sync [Samples.a_x; Samples.b_x] [Samples.a_y])
    (FileComparator.get_files_to_sync [Samples.a_x; Samples.b_x] [Samples.a_y]) = [].
Proof.
  assert (H : FileComparator.consistent_fingerprints
    (FileComparator.get_files_to_sync [Samples.a_x; Samples.b_x] [Samples.a_y])).
  { vm_compute. intros f g [<-|[<-|[]]] [<-|[<-|[]]] Hp;
      first [reflexivity | discriminate Hp]. }
  split; [exact H | exact (get_files_to_sync_idempotent _ _ H)].
Defined.

(** ** Transfer orchestrator *)

Section SyncFileFacts.
Variable backend : nat -> Outcome.
Variables (share_id file_id : option string) (target_folder_id : string)
          (share_pwd : option string) (retries : Z)
          (file_path : option string) (preserve_path : bool)
          (file_info : option FileInfo) (duplicate : Z).

Let the_call := FileSyncer.save_call target_folder_id share_pwd file_path
                  preserve_path file_info duplicate.
Let loop := FileSyncer.attempt_loop backend target_folder_id share_pwd retries
              file_path preserve_path file_info duplicate.

Lemma new_events_app (env env' : Env) (evs : list Event) :
  trace env' = trace env ++ evs -> new_events env env' = evs.
Proof. unfold new_events. intros ->. apply drop_app_length. Qed.

Lemma save_calls_app (l1 l2 : list Event) :
  save_calls (l1 ++ l2) = (save_calls l1 + save_calls l2)%nat.
Proof. unfold save_calls. now rewrite List.filter_app, length_app. Qed.

Lemma save_calls_cons (e : Event) (l : list Event) :
  save_calls (e :: l) = ((if is_save e then 1 else 0) + save_calls l)%nat.
Proof. unfold save_calls. simpl. now destruct (is_save e). Qed.

Lemma the_call_is_save (sid fid : string) : is_save (the_call sid fid) = true.
Proof. unfold the_call, FileSyncer.save_call. now destruct (_ && _). Qed.

(** Every attempt issues the one save call; only sleeps come between. *)
Lemma attempt_loop_events (sid fid : string) (attempts : list Z) (env : Env) :
  exists evs,
    trace (snd (loop sid fid attempts env)) = trace env ++ evs /\
    Forall (fun e => e = the_call sid fid \/ exists s, e = Sleep s) evs /\
    (save_calls evs <= length attempts)%nat /\
    calls (snd (loop sid fid attempts env)) = (calls env + save_calls evs)%nat /\
    (attempts <> [] -> exists rest, evs = the_call sid fid :: rest).
Proof.
  pose proof (the_call_is_save sid fid) as Hsave.
  revert env. induction attempts as [|attempt rest IH]; intros env.
  - exists []. simpl. rewrite app_nil_r.
    repeat split; auto; try (unfold save_calls; simpl; lia). congruence.
  - unfold loop. simpl. fold loop. fold (the_call sid fid).
    destruct (backend (calls env)) as [result|e].
    + destruct (FileSyncer.result_ok result).
      * exists [the_call sid fid]. simpl.
        rewrite save_calls_cons, Hsave. unfold save_calls. simpl.
        repeat split; eauto; lia.
      * destruct (IH (issue (the_call sid fid) env))
          as (evs & Htr & Hall & Hcnt & Hcalls & _).
        exists (the_call sid fid :: evs). rewrite Htr, Hcalls. simpl.
        rewrite <- app_assoc, save_calls_cons, Hsave. simpl.
        repeat split; eauto; lia.
    + destruct (Z.ltb attempt retries).
      * destruct (IH (sleep ((attempt + 1) * 2) (issue (the_call sid fid) env)))
          as (evs & Htr & Hall & Hcnt & Hcalls & _).
        exists (the_call sid fid :: Sleep ((attempt + 1) * 2) :: evs).
        rewrite Htr, Hcalls. simpl.
        rewrite <- !app_assoc, !save_calls_cons, Hsave. simpl.
        repeat split; eauto 6; lia.
      * destruct (IH (issue (the_call sid fid) env))
          as (evs & Htr & Hall & Hcnt & Hcalls & _).
        exists (the_call sid fid :: evs). rewrite Htr, Hcalls. simpl.
        rewrite <- app_assoc, save_calls_cons, Hsave. simpl.
        repeat split; eauto; lia.
Qed.

(** Once the identifiers are checked the loop never reports a
    validation error. *)
Lemma attempt_loop_not_value_error (sid fid : string) (attempts : list Z) (env : Env) :
  fst (loop sid fid attempts env) <> FileSyncer.ValueError.
Proof.
  revert env. induction attempts as [|attempt rest IH]; intros env; simpl.
  - discriminate.
  - fold loop. destruct (backend (calls env)) as [result|e].
    + destruct (FileSyncer.result_ok result); [discriminate | apply IH].
    + apply IH.
Qed.

Lemma length_range (n : Z) : length (range n) = Z.to_nat n.
Proof. unfold range. now rewrite length_map, length_seq. Qed.

Lemma sync_file_events (env : Env) :
  exists evs,
    trace (snd (FileSyncer.sync_file backend share_id file_id target_folder_id
                  share_pwd retries file_path preserve_path file_info
                  duplicate env)) = trace env ++ evs /\
    Forall (fun e => e = the_call (default "" share_id) (default "" file_id)
                     \/ exists s, e = Sleep s) evs.
Proof.
  unfold FileSyncer.sync_file.
  destruct (negb (truthy file_id) || negb (truthy share_id)).
  - exists []. simpl. now rewrite app_nil_r.
  - destruct (attempt_loop_events (default "" share_id) (default "" file_id)
                (range (retries + 1)) env) as (evs & Htr & Hall & _).
    exists evs. split; [exact Htr | exact Hall].
Qed.

(** At most [retries + 1] attempts, one save call each. *)
Lemma sync_file_attempt_bound (env : Env) :
  let env' := snd (FileSyncer.sync_file backend share_id file_id
                     target_folder_id share_pwd retries file_path
                     preserve_path file_info duplicate env) in
  (save_calls (new_events env env') <= Z.to_nat (retries + 1))%nat /\
  calls env' = (calls env + save_calls (new_events env env'))%nat.
Proof.
  unfold FileSyncer.sync_file.
  destruct (negb (truthy file_id) || negb (truthy share_id)); simpl.
  - unfold new_events. rewrite drop_all. unfold save_calls. simpl. lia.
  - destruct (attempt_loop_events (default "" share_id) (default "" file_id)
                (range (retries + 1)) env)
      as (evs & Htr & _ & Hcnt & Hcalls & _).
    fold loop. rewrite (new_events_app _ _ _ Htr).
    rewrite length_range in Hcnt. split; [exact Hcnt | exact Hcalls].
Qed.

Lemma mkEnv_eq (t t' : Z) (c c' : nat) (tr tr' : list Event) :
  t = t' -> c = c' -> tr = tr' -> mkEnv t c tr = mkEnv t' c' tr'.
Proof. congruence. Qed.

Lemma total_delay_cons (e : Event) (l : list Event) :
  total_delay (e :: l) = sleep_seconds e + total_delay l.
Proof. reflexivity. Qed.

Lemma save_no_delay (e : Event) : is_save e = true -> sleep_seconds e = 0.
Proof. destruct e; simpl; congruence. Qed.

Lemma total_delay_app (l1 l2 : list Event) :
  total_delay (l1 ++ l2) = total_delay l1 + total_delay l2.
Proof.
  unfold total_delay. induction l1 as [|e l1 IH]; simpl; [reflexivity|].
  rewrite IH. lia.
Qed.

Lemma backoff_events_S (call : Event) (a k : nat) :
  FileSyncer.backoff_events call a (S k) =
  call :: Sleep ((Z.of_nat a + 1) * 2) :: FileSyncer.backoff_events call (S a) k.
Proof. reflexivity. Qed.

Lemma backoff_events_delay (call : Event) (k : nat) :
  is_save call = true ->
  forall a,
    total_delay (FileSyncer.backoff_events call a k) =
      Z.of_nat k * (2 * Z.of_nat a + Z.of_nat k + 1) /\
    save_calls (FileSyncer.backoff_events call a k) = k.
Proof.
  intros Hsave. induction k as [|k IH]; intros a.
  - split; reflexivity.
  - rewrite backoff_events_S. destruct (IH (S a)) as [Hd Hc].
    rewrite !save_calls_cons, Hsave, Hc. simpl is_save. cbv iota.
    split; [|lia].
    rewrite !total_delay_cons, Hd, (save_no_delay _ Hsave). simpl. lia.
Qed.

(** [k] raising attempts in a row, none of them the last one allowed:
    each is followed by a wait of twice its 1-based number, and the loop
    goes on with the attempts that remain. *)
Lemma attempt_loop_raises (sid fid : string) (k : nat) :
  forall (a m : nat) (env : Env),
    (forall i, (i < k)%nat -> exists e, backend (calls env + i) = Raises e) ->
    Z.of_nat (a + k) <= retries ->
    loop sid fid (List.map Z.of_nat (seq a (k + m))) env =
    loop sid fid (List.map Z.of_nat (seq (a + k) m))
      (mkEnv (now env + total_delay (FileSyncer.backoff_events (the_call sid fid) a k))
             (calls env + k)
             (trace env ++ FileSyncer.backoff_events (the_call sid fid) a k)).
Proof.
  induction k as [|k IH]; intros a m env Hraise Hle.
  - simpl. rewrite Nat.add_0_r, app_nil_r, Z.add_0_r, Nat.add_0_r.
    now destruct env.
  - simpl. fold loop. fold (the_call sid fid).
    destruct (Hraise 0%nat ltac:(lia)) as [e He].
    rewrite Nat.add_0_r in He. rewrite He.
    assert (Hlt : Z.ltb (Z.of_nat a) retries = true) by (apply Z.ltb_lt; lia).
    rewrite Hlt.
    rewrite (IH (S a) m); [| |lia].
    + rewrite backoff_events_S.
      replace (a + S k)%nat with (S a + k)%nat by lia.
      f_equal. apply mkEnv_eq; simpl.
      * rewrite !total_delay_cons, (save_no_delay _ (the_call_is_save sid fid)).
        simpl. lia.
      * lia.
      * now rewrite <- !app_assoc.
    + intros i Hi. simpl. destruct (Hraise (S i) ltac:(lia)) as [e' He'].
      exists e'. rewrite <- He'. f_equal. lia.
Qed.

(** Failures by exception only: when the first [k <= retries] attempts
    raise and the next one returns an ok status, [sync_file] succeeds
    after [k + 1] save calls, having waited [2, 4, ..., 2k] seconds
    between them and nothing after the last. *)
Lemma sync_file_raise_backoff (k : nat) (result : option SaveResult) (env : Env) :
  truthy file_id = true -> truthy share_id = true ->
  Z.of_nat k <= retries ->
  (forall i, (i < k)%nat -> exists e, backend (calls env + i) = Raises e) ->
  backend (calls env + k) = Returns result ->
  FileSyncer.result_ok result = true ->
  let r := FileSyncer.sync_file backend share_id file_id target_folder_id
             share_pwd retries file_path preserve_path file_info duplicate env in
  let call := the_call (default "" share_id) (default "" file_id) in
  fst r = FileSyncer.Synced result /\
  new_events env (snd r) = FileSyncer.backoff_events call 0 k ++ [call] /\
  save_calls (new_events env (snd r)) = S k /\
  total_delay (new_events env (snd r)) = Z.of_nat k * (Z.of_nat k + 1).
Proof.
  intros Hf Hs Hk Hraise Hok Hres. unfold FileSyncer.sync_file.
  rewrite Hf, Hs. simpl negb. simpl orb. cbv iota.
  unfold range.
  replace (Z.to_nat (retries + 1)) with (k + S (Z.to_nat retries - k))%nat by lia.
  fold loop. rewrite (attempt_loop_raises _ _ k 0); [|exact Hraise|simpl; lia].
  simpl. fold loop. fold (the_call (default "" share_id) (default "" file_id)).
  rewrite Hok, Hres. simpl.
  assert (Hev : new_events env
            (issue (the_call (default "" share_id) (default "" file_id))
               (mkEnv (now env + total_delay (FileSyncer.backoff_events
                         (the_call (default "" share_id) (default "" file_id)) 0 k))
                  (calls env + k)
                  (trace env ++ FileSyncer.backoff_events
                     (the_call (default "" share_id) (default "" file_id)) 0 k))) =
           FileSyncer.backoff_events (the_call (default "" share_id) (default "" file_id)) 0 k
           ++ [the_call (default "" share_id) (default "" file_id)]).
  { apply new_events_app. simpl. now rewrite <- app_assoc. }
  rewrite Hev.
  destruct (backoff_events_delay _ k (the_call_is_save (default "" share_id) (default "" file_id)) 0%nat)
    as [Hd Hc].
  pose proof (the_call_is_save (default "" share_id) (default "" file_id)) as Hsv.
  repeat split.
  - rewrite save_calls_app, Hc, save_calls_cons, Hsv. unfold save_calls. simpl. lia.
  - rewrite total_delay_app, Hd, total_delay_cons, (save_no_delay _ Hsv).
    unfold total_delay. simpl. lia.
Qed.
End SyncFileFacts.

(** The example of the contract: two raising attempts, then success, with
    [retries = 2]: three save calls and waits of 2 and 4 seconds. *)
Example sync_file_raises_twice :
  let r := FileSyncer.sync_file Samples.raises_twice (Some "share") (Some "f1")
             "0" None 2 (Some "docs/b.txt") true None 2 Samples.env0 in
  fst r = FileSyncer.Synced Samples.ok_result /\
  List.filter (fun e => negb (is_save e)) (trace (snd r)) = [Sleep 2; Sleep 4] /\
  save_calls (trace (snd r)) = 3%nat /\
  total_delay (trace (snd r)) = 6.
Proof. vm_compute. repeat split. Qed.

(** C9: when the file identifier or the share reference is missing or
    empty, [sync_file] raises [ValueError] at once: the environment is left
    as it was, so no save call is made, no attempt is consumed and nothing
    is waited for. *)
Theorem sync_file_missing_identifier
    (backend : nat -> Outcome) (share_id file_id : option string)
    (target_folder_id : string) (share_pwd : option string) (retries : Z)
    (file_path : option string) (preserve_path : bool)
    (file_info : option FileInfo) (duplicate : Z) (env : Env) :
  truthy file_id = false \/ truthy share_id = false ->
  let r := FileSyncer.sync_file backend share_id file_id target_folder_id
             share_pwd retries file_path preserve_path file_info duplicate env in
  r = (FileSyncer.ValueError, env) /\
  new_events env (snd r) = [] /\
  calls (snd r) = calls env /\
  now (snd r) = now env.
Proof.
  intros H. unfold FileSyncer.sync_file.
  assert (Hc : negb (truthy file_id) || negb (truthy share_id) = true).
  { destruct H as [-> | ->]; simpl; [reflexivity | apply orb_true_r]. }
  rewrite Hc. simpl. unfold new_events. rewrite drop_all. auto.
Qed.

(** An empty file identifier with an otherwise valid call. *)
Lemma sync_file_missing_identifier_witness :
  let r := FileSyncer.sync_file Samples.always_ok (Some "share") (Some "")
             "0" None 3 (Some "a.txt") true None 2 Samples.env0 in
  r = (FileSyncer.ValueError, Samples.env0) /\
  new_events Samples.env0 (snd r) = [] /\
  calls (snd r) = calls Samples.env0 /\
  now (snd r) = now Samples.env0.
Proof.
  apply (sync_file_missing_identifier Samples.always_ok (Some "share") (Some "")
           "0" None 3 (Some "a.txt") true None 2 Samples.env0).
  left. reflexivity.
Defined.

(** C10: when no file path is given (missing or empty), every save call of
    [sync_file] is the flat-filename variant with no filename and without
    directories, whatever [preserve_path] says, and with valid identifiers
    and a non-negative retry budget the call does start that way instead of
    raising [ValueError]; in any call at all, a path-preserving save is
    issued only when [preserve_path] is true and a path is present. *)
Theorem sync_file_without_path_saves_flat
    (backend : nat -> Outcome) (share_id file_id : option string)
    (target_folder_id : string) (share_pwd : option string) (retries : Z)
    (file_path : option string) (preserve_path : bool)
    (file_info : option FileInfo) (duplicate : Z) (env : Env) :
  truthy file_path = false ->
  truthy file_id = true -> truthy share_id = true -> 0 <= retries ->
  let r := FileSyncer.sync_file backend share_id file_id target_folder_id
             share_pwd retries file_path preserve_path file_info duplicate env in
  let flat := SaveSharedFile (default "" file_id) file_info target_folder_id
                None false duplicate in
  fst r <> FileSyncer.ValueError /\
  (exists rest, new_events env (snd r) = flat :: rest) /\
  Forall (fun e => if is_save e then e = flat else True) (new_events env (snd r)) /\
  (forall backend' share_id' file_id' target' pwd' retries' file_path'
          preserve_path' info' dup' env',
     Forall (fun e => match e with
                      | SaveFileToCloud _ _ _ p _ _ _ =>
                          preserve_path' = true /\ truthy file_path' = true /\
                          file_path' = Some p
                      | _ => True
                      end)
       (new_events env'
          (snd (FileSyncer.sync_file backend' share_id' file_id' target' pwd'
                  retries' file_path' preserve_path' info' dup' env')))).
Proof.
  intros Hpath Hfid Hsid Hret r flat.
  assert (Hgen : forall backend' share_id' file_id' target' pwd' retries' file_path'
            preserve_path' info' dup' env',
            exists evs,
              new_events env'
                (snd (FileSyncer.sync_file backend' share_id' file_id' target' pwd'
                        retries' file_path' preserve_path' info' dup' env')) = evs /\
              Forall (fun e => e = FileSyncer.save_call target' pwd' file_path'
                                     preserve_path' info' dup'
                                     (default "" share_id') (default "" file_id')
                               \/ exists s, e = Sleep s) evs).
  { intros.
    destruct (sync_file_events backend' share_id' file_id' target' pwd' retries'
                file_path' preserve_path' info' dup' env') as (evs & Htr & Hall).
    exists evs. split; [now apply new_events_app | exact Hall]. }
  assert (Hflat : FileSyncer.save_call target_folder_id share_pwd file_path
                    preserve_path file_info duplicate
                    (default "" share_id) (default "" file_id) = flat).
  { unfold FileSyncer.save_call. rewrite Hpath, andb_false_r. reflexivity. }
  repeat split.
  - subst r. unfold FileSyncer.sync_file. rewrite Hfid, Hsid. simpl.
    apply attempt_loop_not_value_error.
  - subst r. unfold FileSyncer.sync_file. rewrite Hfid, Hsid. simpl.
    destruct (attempt_loop_events backend target_folder_id share_pwd retries
                file_path preserve_path file_info duplicate (default "" share_id)
                (default "" file_id) (range (retries + 1)) env)
      as (evs & Htr & _ & _ & _ & Hne).
    rewrite (new_events_app _ _ _ Htr), <- Hflat. apply Hne.
    unfold range. replace (Z.to_nat (retries + 1)) with (S (Z.to_nat retries)) by lia.
    discriminate.
  - subst r.
    destruct (Hgen backend share_id file_id target_folder_id share_pwd retries
                file_path preserve_path file_info duplicate env) as (evs & Heq & Hall).
    rewrite Heq. rewrite Hflat in Hall. eapply List.Forall_impl; [|exact Hall].
    intros e [-> | [s ->]]; simpl; auto.
  - intros. destruct (Hgen backend' share_id' file_id' target' pwd' retries'
                        file_path' preserve_path' info' dup' env') as (evs & Heq & Hall).
    rewrite Heq. eapply List.Forall_impl; [|exact Hall].
    intros e [-> | [s ->]]; simpl; auto.
    unfold FileSyncer.save_call.
    destruct preserve_path'; simpl; auto.
    destruct (truthy file_path') eqn:Ht; simpl; auto.
    destruct file_path'; [auto | discriminate].
Qed.

(** A call that asks to preserve the path but passes none. *)
Lemma sync_file_without_path_saves_flat_witness :
  let r := FileSyncer.sync_file Samples.always_ok (Some "share") (Some "f1")
             "0" None 3 None true None 2 Samples.env0 in
  fst r <> FileSyncer.ValueError /\
  (exists rest, new_events Samples.env0 (snd r) =
                SaveSharedFile "f1" None "0" None false 2 :: rest).
Proof.
  pose proof (sync_file_without_path_saves_flat Samples.always_ok (Some "share")
                (Some "f1") "0" None 3 None true None 2 Samples.env0
                eq_refl eq_refl eq_refl ltac:(lia)) as (H1 & H2 & _).
  split; [exact H1 | exact H2].
Defined.

(** ** Monitor orchestrator *)

Lemma pydict_keys_set {V : Type} (k : string) (v : V) (d : PyDict.t V) (x : string) :
  In x (PyDict.keys (PyDict.set k v d)) -> x = k \/ In x (PyDict.keys d).
Proof.
  induction d as [|[k0 v0] d IH]; simpl.
  - intros [<-|[]]. now left.
  - destruct (String.eqb_spec k k0) as [->|Hne]; simpl.
    + intros [<-|H]; auto.
    + intros [<-|H]; auto. destruct (IH H); auto.
Qed.

Lemma path_keyed_set (m : PyDict.t FileInfo) (v : FileInfo) :
  Monitor.path_keyed m -> Monitor.path_keyed (PyDict.set (path_key v) v m).
Proof.
  intros [Hnd Hall]. induction m as [|[k0 v0] m IH]; simpl.
  - split; [apply NoDup_singleton | repeat constructor].
  - simpl in Hnd. apply NoDup_cons in Hnd as [Hnotin Hnd].
    apply Forall_cons in Hall as [Hk Hall]. simpl in Hk.
    destruct (String.eqb_spec (path_key v) k0) as [Heq|Hne].
    + split; simpl.
      * apply NoDup_cons. split; assumption.
      * apply Forall_cons. split; [simpl; congruence | exact Hall].
    + destruct (IH Hnd Hall) as [Hnd' Hall']. split; simpl.
      * apply NoDup_cons. split; [|exact Hnd'].
        rewrite list_elem_of_In. intros Hin.
        apply pydict_keys_set in Hin as [Hin|Hin]; [congruence|].
        apply Hnotin. now rewrite list_elem_of_In.
      * apply Forall_cons. split; [exact Hk | exact Hall'].
Qed.

Lemma path_keyed_target_map (known : list FileInfo) :
  Monitor.path_keyed (FileComparator.target_map known).
Proof.
  unfold FileComparator.target_map, PyDict.comprehension.
  assert (H : Monitor.path_keyed (PyDict.empty (V := FileInfo))).
  { split; constructor. }
  revert H. generalize (PyDict.empty (V := FileInfo)).
  induction known as [|x l IH]; intros d Hd; simpl; [exact Hd|].
  apply IH. now apply path_keyed_set.
Qed.

(** Reading back the values of a path-keyed dictionary through a fresh
    path-keyed map gives the same lookups. *)
Lemma path_keyed_lookup (m : PyDict.t FileInfo) (p : string) :
  Monitor.path_keyed m ->
  PyDict.get p (FileComparator.target_map (PyDict.values m)) = PyDict.get p m.
Proof.
  rewrite target_map_lookup. unfold FileComparator.known_descriptor.
  intros [Hnd Hall]. induction m as [|[k0 v0] m IH]; simpl; [reflexivity|].
  simpl in Hnd. apply NoDup_cons in Hnd as [Hnotin Hnd].
  apply Forall_cons in Hall as [Hk Hall]. simpl in Hk. subst k0.
  destruct (String.eqb_spec p (path_key v0)) as [->|Hne].
  - assert (Hnil : List.filter (fun k => String.eqb (path_key v0) (path_key k))
                     (PyDict.values m) = []).
    { clear IH Hnd. induction m as [|[k1 v1] m IHm]; simpl; [reflexivity|].
      apply Forall_cons in Hall as [Hk1 Hall]. simpl in Hk1. subst k1.
      destruct (String.eqb_spec (path_key v0) (path_key v1)) as [Heq|_].
      - exfalso. apply Hnotin. simpl. rewrite Heq. left.
      - apply IHm; [|exact Hall]. intros Hin. apply Hnotin. simpl. now right. }
    now rewrite Hnil.
  - now apply IH.
Qed.

Section TickFacts.
Variable backend : nat -> Outcome.
Variable strftime : Z -> string.
Variables (share_id share_key : string) (final_pwd : option string)
          (target : string) (preserve : bool) (dup : Z).

Let transfer := fun f e =>
  Monitor.transfer_file backend f share_id final_pwd target preserve dup e.
Let step := Monitor.transfer_step backend strftime share_id share_key
              final_pwd target preserve dup.
Let loop := Monitor.transfer_loop backend strftime share_id share_key
              final_pwd target preserve dup.

(** A transfer only issues save calls for this share with this secret,
    and sleeps; it persists nothing. *)
Lemma transfer_file_events (f : FileInfo) (e : Env) :
  exists evs,
    trace (snd (transfer f e)) = trace e ++ evs /\
    Forall (fun ev => is_persist ev = false /\
                      Monitor.tick_event share_id final_pwd ev) evs.
Proof.
  unfold transfer, Monitor.transfer_file.
  destruct (file_id f) as [fid|]; [destruct (path f) as [fpath|]|].
  - destruct (sync_file_events backend (Some share_id) (Some fid) target
                final_pwd 3 (Some fpath) preserve (Some f) dup e)
      as (evs & Htr & Hall).
    exists evs. split.
    + destruct (FileSyncer.sync_file _ _ _ _ _ _ _ _ _ _ e) as [[r| |] e'];
        exact Htr.
    + eapply List.Forall_impl; [|exact Hall].
      intros ev [-> | [s ->]]; simpl; [|auto].
      unfold FileSyncer.save_call.
      destruct (preserve && truthy (Some fpath)); simpl; auto.
  - exists []. simpl. now rewrite app_nil_r.
  - exists []. simpl. now rewrite app_nil_r.
Qed.

(** The two ways one iteration ends. *)
Lemma transfer_step_cases (c : Z) (m : PyDict.t FileInfo) (st : Monitor.State)
    (f : FileInfo) :
  let res := transfer f (Monitor.env st) in
  step (c, m, st) f =
  if fst res then
    let m' := PyDict.set (path_key f) (Monitor.stamp f (strftime (now (snd res)))) m in
    let record := mkShareState (Some (now (snd res))) (Some (now (snd res)))
                    (Some (PyDict.values m')) (Some (c + 1)) in
    (c + 1, m',
     Monitor.save_monitor_state
       (Monitor.mkState (<[share_key := record]> (Monitor.monitor_state st))
                        (snd res)))
  else (c, m, Monitor.mkState (Monitor.monitor_state st) (snd res)).
Proof.
  unfold step, Monitor.transfer_step, transfer. simpl.
  destruct (Monitor.transfer_file _ _ _ _ _ _ _ _) as [[|] e1]; reflexivity.
Qed.

Lemma transfer_step_path_keyed (acc : Monitor.LoopState) (f : FileInfo) :
  Monitor.path_keyed (snd (fst acc)) ->
  Monitor.path_keyed (snd (fst (step acc f))).
Proof.
  destruct acc as [[c m] st]. intros Hm. rewrite transfer_step_cases.
  simpl in Hm.
  destruct (fst (transfer f (Monitor.env st))); simpl; [|exact Hm].
  now apply (path_keyed_set m (Monitor.stamp f _)).
Qed.

Lemma transfer_loop_path_keyed (fs : list FileInfo) (acc : Monitor.LoopState) :
  Monitor.path_keyed (snd (fst acc)) ->
  Monitor.path_keyed (snd (fst (loop fs acc))).
Proof.
  revert acc. induction fs as [|f fs IH]; intros acc Hm; simpl; [exact Hm|].
  apply IH. now apply transfer_step_path_keyed.
Qed.

(** One iteration touches only this share's record and only adds the
    events of its transfer and, on success, one snapshot. *)
Lemma transfer_step_frame (acc : Monitor.LoopState) (f : FileInfo) :
  exists evs,
    trace (Monitor.env (snd (step acc f))) =
      trace (Monitor.env (snd acc)) ++ evs /\
    Forall (Monitor.tick_event share_id final_pwd) evs /\
    (forall k, k <> share_key ->
       Monitor.monitor_state (snd (step acc f)) !! k =
       Monitor.monitor_state (snd acc) !! k).
Proof.
  destruct acc as [[c m] st]. rewrite transfer_step_cases.
  destruct (transfer_file_events f (Monitor.env st)) as (evs & Htr & Hall).
  assert (Hall' : Forall (Monitor.tick_event share_id final_pwd) evs).
  { eapply List.Forall_impl; [|exact Hall]. now intros ev [_ H]. }
  destruct (fst (transfer f (Monitor.env st))) eqn:Hres; simpl.
  - exists (evs ++ [Persist (<[share_key :=
               mkShareState (Some (now (snd (transfer f (Monitor.env st)))))
                 (Some (now (snd (transfer f (Monitor.env st)))))
                 (Some (PyDict.values (PyDict.set (path_key f)
                    (Monitor.stamp f (strftime (now (snd (transfer f (Monitor.env st))))))
                    m)))
                 (Some (c + 1))]> (Monitor.monitor_state st))]).
    split; [now rewrite Htr, <- app_assoc|]. split.
    + apply Forall_app. split; [exact Hall' | repeat constructor].
    + intros k Hk. now rewrite lookup_insert_ne.
  - exists evs. auto.
Qed.

Lemma transfer_loop_frame (fs : list FileInfo) (acc : Monitor.LoopState) :
  exists evs,
    trace (Monitor.env (snd (loop fs acc))) =
      trace (Monitor.env (snd acc)) ++ evs /\
    Forall (Monitor.tick_event share_id final_pwd) evs /\
    (forall k, k <> share_key ->
       Monitor.monitor_state (snd (loop fs acc)) !! k =
       Monitor.monitor_state (snd acc) !! k).
Proof.
  revert acc. induction fs as [|f fs IH]; intros acc; simpl.
  - exists []. rewrite app_nil_r. auto.
  - destruct (IH (step acc f)) as (evs2 & Htr2 & Hall2 & Hfr2).
    destruct (transfer_step_frame acc f) as (evs1 & Htr1 & Hall1 & Hfr1).
    exists (evs1 ++ evs2). fold step. fold loop. split; [|split].
    + unfold loop in Htr2 |- *. rewrite Htr2, Htr1. now rewrite app_assoc.
    + apply Forall_app. split; assumption.
    + intros k Hk. unfold loop in Hfr2 |- *. rewrite (Hfr2 k Hk). now apply Hfr1.
Qed.
End TickFacts.

(** The tick of an enabled share whose address parses, spelled out. *)
Lemma monitor_share_link_enabled
    (parse : string -> option (string * option string * string))
    (listing : string -> option string -> string -> option (list FileInfo))
    (backend : nat -> Outcome) (strftime : Z -> string)
    (cfg : Monitor.ShareConfig) (st : Monitor.State)
    (share_id : string) (link_pwd : option string) (host : string) :
  default true (Monitor.enabled cfg) = true ->
  parse (Monitor.url cfg) = Some (share_id, link_pwd, host) ->
  let secret := Monitor.final_password (Monitor.password cfg) link_pwd in
  let key := Monitor.generate_share_key share_id secret in
  let e1 := emit (ListShare share_id secret host) (Monitor.env st) in
  let before := default no_state (Monitor.monitor_state st !! key) in
  let known := default [] (files before) in
  Monitor.monitor_share_link parse listing backend strftime cfg st =
  match listing share_id secret host with
  | None => Monitor.mkState (Monitor.monitor_state st) e1
  | Some file_list =>
      match FileComparator.get_files_to_sync file_list known with
      | [] =>
          Monitor.save_monitor_state
            (Monitor.mkState
               (<[key := mkShareState (Some (now e1)) (last_sync_time before)
                                      (Some known) (Some 0)]>
                  (Monitor.monitor_state st)) e1)
      | f :: fs =>
          snd (Monitor.transfer_loop backend strftime share_id key secret
                 (Monitor.target_folder_id cfg)
                 (default true (Monitor.preserve_path cfg))
                 (default 2 (Monitor.duplicate cfg)) (f :: fs)
                 (0, FileComparator.target_map known,
                  Monitor.mkState (Monitor.monitor_state st) e1))
      end
  end.
Proof.
  intros Hen Hparse secret key e1 before known.
  unfold Monitor.monitor_share_link. rewrite Hen, Hparse.
  cbv beta iota zeta. unfold Monitor.get_file_list.
  fold (Monitor.final_password (Monitor.password cfg) link_pwd).
  fold secret. fold key. fold e1.
  destruct (listing share_id secret host) as [file_list|]; [|reflexivity].
  fold before. fold known.
  destruct (FileComparator.get_files_to_sync file_list known); reflexivity.
Qed.

(** The events and the frame of such a tick. *)
Lemma monitor_share_link_frame
    (parse : string -> option (string * option string * string))
    (listing : string -> option string -> string -> option (list FileInfo))
    (backend : nat -> Outcome) (strftime : Z -> string)
    (cfg : Monitor.ShareConfig) (st : Monitor.State)
    (share_id : string) (link_pwd : option string) (host : string) :
  default true (Monitor.enabled cfg) = true ->
  parse (Monitor.url cfg) = Some (share_id, link_pwd, host) ->
  let secret := Monitor.final_password (Monitor.password cfg) link_pwd in
  let key := Monitor.generate_share_key share_id secret in
  let st' := Monitor.monitor_share_link parse listing backend strftime cfg st in
  exists evs,
    trace (Monitor.env st') =
      trace (Monitor.env st) ++ ListShare share_id secret host :: evs /\
    Forall (Monitor.tick_event share_id secret) evs /\
    (forall k, k <> key ->
       Monitor.monitor_state st' !! k = Monitor.monitor_state st !! k).
Proof.
  intros Hen Hparse secret key st'. subst st'.
  rewrite (monitor_share_link_enabled parse listing backend strftime cfg st
             share_id link_pwd host Hen Hparse).
  cbv zeta. fold secret. fold key.
  destruct (listing share_id secret host) as [file_list|].
  - destruct (FileComparator.get_files_to_sync file_list _) as [|f fs].
    + simpl. eexists. split; [rewrite <- app_assoc; reflexivity|].
      split; [repeat constructor|].
      intros k Hk. now rewrite lookup_insert_ne.
    + match goal with
      | |- context [Monitor.transfer_loop _ _ _ _ _ _ _ _ ?l ?acc] =>
          destruct (transfer_loop_frame backend strftime share_id key secret
                      (Monitor.target_folder_id cfg)
                      (default true (Monitor.preserve_path cfg))
                      (default 2 (Monitor.duplicate cfg)) l acc)
            as (evs & Htr & Hall & Hfr)
      end.
      exists evs. split; [|split].
      * rewrite Htr. simpl. now rewrite <- app_assoc.
      * exact Hall.
      * exact Hfr.
  - simpl. exists []. split; [reflexivity|]. split; [constructor | reflexivity].
Qed.

(** C5: the secret of a share is the configured one when that is present
    (not missing and not empty) and otherwise whatever extraction code the
    address yielded, possibly none; the tick lists the share with that
    secret, passes it to every path-preserving save, and touches the state
    only under the key [identifier_secret], with [no_pwd] standing in for a
    missing (or empty) secret. *)
Theorem share_secret_and_key
    (parse : string -> option (string * option string * string))
    (listing : string -> option string -> string -> option (list FileInfo))
    (backend : nat -> Outcome) (strftime : Z -> string)
    (cfg : Monitor.ShareConfig) (st : Monitor.State)
    (share_id : string) (link_pwd : option string) (host : string) :
  default true (Monitor.enabled cfg) = true ->
  parse (Monitor.url cfg) = Some (share_id, link_pwd, host) ->
  let secret := match Monitor.password cfg with
                | Some (String c s) => Some (String c s)
                | _ => link_pwd
                end in
  let key := match secret with
             | Some (String c s) => (share_id ++ "_" ++ String c s)%string
             | _ => (share_id ++ "_no_pwd")%string
             end in
  let st' := Monitor.monitor_share_link parse listing backend strftime cfg st in
  Monitor.final_password (Monitor.password cfg) link_pwd = secret /\
  Monitor.generate_share_key share_id secret = key /\
  (exists rest, new_events (Monitor.env st) (Monitor.env st') =
                ListShare share_id secret host :: rest) /\
  Forall (fun e => match e with
                   | SaveFileToCloud sk _ _ _ pw _ _ => sk = share_id /\ pw = secret
                   | ListShare sk pw _ => sk = share_id /\ pw = secret
                   | _ => True
                   end)
         (new_events (Monitor.env st) (Monitor.env st')) /\
  (forall k, k <> key ->
     Monitor.monitor_state st' !! k = Monitor.monitor_state st !! k).
Proof.
  intros Hen Hparse secret key st'.
  assert (Hsecret : Monitor.final_password (Monitor.password cfg) link_pwd = secret).
  { subst secret. unfold Monitor.final_password.
    destruct (Monitor.password cfg) as [[|c s]|]; reflexivity. }
  assert (Hkey : Monitor.generate_share_key share_id secret = key).
  { subst key. unfold Monitor.generate_share_key.
    destruct secret as [[|c s]|]; reflexivity. }
  destruct (monitor_share_link_frame parse listing backend strftime cfg st
              share_id link_pwd host Hen Hparse) as (evs & Htr & Hall & Hfr).
  rewrite Hsecret in Htr, Hall, Hfr. rewrite Hkey in Hfr.
  subst st'. rewrite (new_events_app _ _ _ Htr).
  split; [exact Hsecret|]. split; [exact Hkey|]. split; [eauto|]. split.
  - apply Forall_cons. split; [split; reflexivity | exact Hall].
  - exact Hfr.
Qed.

(** A share without configured password whose address carries a code. *)
Lemma share_secret_and_key_witness :
  Monitor.final_password (Monitor.password Samples.share) (Some "abcd") = Some "abcd" /\
  Monitor.generate_share_key "k1-x" (Some "abcd") = "k1-x_abcd".
Proof.
  pose proof (share_secret_and_key Samples.parse Samples.listing_two
                Samples.always_ok Samples.strftime Samples.share Samples.fresh
                "k1-x" (Some "abcd") "www.123865.com" eq_refl eq_refl)
    as (H1 & H2 & _).
  split; [exact H1 | exact H2].
Defined.

(** C4, as stated, fails: a tick without deltas resets
    [last_synced_files_count] to 0.  A share that synced one file in the
    previous tick and lists nothing new now ends with a count of 0 instead
    of 1. *)
Lemma idle_tick_resets_count :
  let st := Samples.synced_before in
  let st' := Monitor.monitor_share_link Samples.parse Samples.listing_known
               Samples.always_ok Samples.strftime Samples.share st in
  FileComparator.get_files_to_sync [Samples.a_x]
    [Monitor.stamp Samples.a_x "2023-12-31 23:00:00"] = [] /\
  last_synced_files_count <$> (Monitor.monitor_state st !! "k1-x_abcd")
    = Some (Some 1) /\
  last_synced_files_count <$> (Monitor.monitor_state st' !! "k1-x_abcd")
    = Some (Some 0) /\
  last_synced_files_count <$> (Monitor.monitor_state st' !! "k1-x_abcd") <>
  last_synced_files_count <$> (Monitor.monitor_state st !! "k1-x_abcd").
Proof. vm_compute. repeat split; discriminate. Qed.

(** C4, amended: after a tick whose diff yields no files to transfer, the
    share's record has [last_monitor_time] set to the time of the tick and
    [last_synced_files_count] set to 0; [last_sync_time] is preserved when
    it was present and not introduced when it was absent; the known files
    are unchanged (the empty list when none were recorded); the records of
    other shares are untouched, and the aggregate is persisted once. *)
Theorem idle_tick_state
    (parse : string -> option (string * option string * string))
    (listing : string -> option string -> string -> option (list FileInfo))
    (backend : nat -> Outcome) (strftime : Z -> string)
    (cfg : Monitor.ShareConfig) (st : Monitor.State)
    (share_id : string) (link_pwd : option string) (host : string)
    (file_list : list FileInfo) :
  let secret := Monitor.final_password (Monitor.password cfg) link_pwd in
  let key := Monitor.generate_share_key share_id secret in
  let before := default no_state (Monitor.monitor_state st !! key) in
  let st' := Monitor.monitor_share_link parse listing backend strftime cfg st in
  default true (Monitor.enabled cfg) = true ->
  parse (Monitor.url cfg) = Some (share_id, link_pwd, host) ->
  listing share_id secret host = Some file_list ->
  FileComparator.get_files_to_sync file_list (default [] (files before)) = [] ->
  (exists after,
     Monitor.monitor_state st' !! key = Some after /\
     last_monitor_time after = Some (now (Monitor.env st)) /\
     last_sync_time after = last_sync_time before /\
     files after = Some (default [] (files before)) /\
     last_synced_files_count after = Some 0) /\
  (forall k, k <> key ->
     Monitor.monitor_state st' !! k = Monitor.monitor_state st !! k) /\
  new_events (Monitor.env st) (Monitor.env st') =
    [ListShare share_id secret host; Persist (Monitor.monitor_state st')].
Proof.
  intros secret key before st' Hen Hparse Hlist Hdelta. subst st'.
  rewrite (monitor_share_link_enabled parse listing backend strftime cfg st
             share_id link_pwd host Hen Hparse).
  cbv zeta. fold secret. fold key. fold before. rewrite Hlist, Hdelta.
  split; [|split].
  - eexists. split; [apply lookup_insert_eq|]. simpl. auto.
  - intros k Hk. simpl. now rewrite lookup_insert_ne.
  - apply new_events_app. simpl. now rewrite <- app_assoc.
Qed.

(** The idle tick of a share that synced one file before. *)
Lemma idle_tick_state_witness :
  exists after,
    Monitor.monitor_state
      (Monitor.monitor_share_link Samples.parse Samples.listing_known
         Samples.always_ok Samples.strftime Samples.share Samples.synced_before)
      !! "k1-x_abcd" = Some after /\
    last_monitor_time after = Some 500 /\
    last_sync_time after = Some 100 /\
    files after = Some [Monitor.stamp Samples.a_x "2023-12-31 23:00:00"] /\
    last_synced_files_count after = Some 0.
Proof.
  pose proof (idle_tick_state Samples.parse Samples.listing_known
                Samples.always_ok Samples.strftime Samples.share
                Samples.synced_before "k1-x" (Some "abcd") "www.123865.com"
                [Samples.a_x] eq_refl eq_refl eq_refl eq_refl) as [H _].
  exact H.
Defined.

Section CommitFacts.
Variable backend : nat -> Outcome.
Variable strftime : Z -> string.
Variables (share_id share_key : string) (final_pwd : option string)
          (target : string) (preserve : bool) (dup : Z).

Let transfer := fun f e =>
  Monitor.transfer_file backend f share_id final_pwd target preserve dup e.
Let step := Monitor.transfer_step backend strftime share_id share_key
              final_pwd target preserve dup.
Let loop := Monitor.transfer_loop backend strftime share_id share_key
              final_pwd target preserve dup.

Lemma transfer_loop_cons (f : FileInfo) (fs : list FileInfo)
    (acc : Monitor.LoopState) :
  loop (f :: fs) acc = loop fs (step acc f).
Proof. reflexivity. Qed.

Lemma transfer_loop_nil (acc : Monitor.LoopState) : loop [] acc = acc.
Proof. reflexivity. Qed.

Lemma transfer_loop_app (fs gs : list FileInfo) (acc : Monitor.LoopState) :
  loop (fs ++ gs) acc = loop gs (loop fs acc).
Proof. unfold loop, Monitor.transfer_loop. apply fold_left_app. Qed.

(** What one iteration commits.  A successful transfer is followed at
    once by the update of this share's record, in which the file is known
    under its path with its stamp and every other path is known as the
    loop knew it, and by one snapshot of the aggregate; a failed transfer
    changes neither the aggregate nor the loop's own bookkeeping and
    writes no snapshot. *)
Lemma transfer_step_commit (c : Z) (m : PyDict.t FileInfo) (st : Monitor.State)
    (f : FileInfo) :
  Monitor.path_keyed m ->
  let res := transfer f (Monitor.env st) in
  let acc' := step (c, m, st) f in
  exists evs,
    trace (snd res) = trace (Monitor.env st) ++ evs /\
    Forall (fun e => is_persist e = false) evs /\
    if fst res then
      exists r,
        Monitor.monitor_state (snd acc') =
          <[share_key := r]> (Monitor.monitor_state st) /\
        Monitor.known_entry r (path_key f) =
          Some (Monitor.stamp f (strftime (now (snd res)))) /\
        (forall p, p <> path_key f -> Monitor.known_entry r p = PyDict.get p m) /\
        last_synced_files_count r = Some (c + 1) /\
        fst acc' = (c + 1, PyDict.set (path_key f)
                             (Monitor.stamp f (strftime (now (snd res)))) m) /\
        trace (Monitor.env (snd acc')) =
          trace (snd res) ++ [Persist (Monitor.monitor_state (snd acc'))]
    else acc' = (c, m, Monitor.mkState (Monitor.monitor_state st) (snd res)).
Proof.
  intros Hm res acc'. subst acc'. unfold step. rewrite transfer_step_cases.
  change (Monitor.transfer_file backend f share_id final_pwd target preserve dup
            (Monitor.env st)) with res.
  destruct (transfer_file_events backend share_id final_pwd target preserve dup
              f (Monitor.env st)) as (evs & Htr & Hall).
  exists evs. split; [exact Htr|]. split.
  { eapply List.Forall_impl; [|exact Hall]. now intros e [H _]. }
  destruct (fst res); [|reflexivity].
  cbv zeta. eexists. split; [reflexivity|].
  pose proof (path_keyed_set m (Monitor.stamp f (strftime (now (snd res)))) Hm) as Hm'.
  change (path_key (Monitor.stamp f (strftime (now (snd res))))) with (path_key f) in Hm'.
  unfold Monitor.known_entry. cbn [files default].
  split; [|split; [|split; [|split]]].
  - rewrite (path_keyed_lookup _ _ Hm'), pydict_get_set.
    now rewrite String.eqb_refl.
  - intros p Hp. rewrite (path_keyed_lookup _ _ Hm'), pydict_get_set.
    destruct (String.eqb_spec p (path_key f)); [contradiction | reflexivity].
  - reflexivity.
  - reflexivity.
  - reflexivity.
Qed.
End CommitFacts.

(** The known entries of a record written from a path-keyed dictionary
    in which [f] was just stored. *)
Lemma known_entry_record (m : PyDict.t FileInfo) (f : FileInfo) (t : string)
    (lm ls : option Z) (c : option Z) (p : string) :
  Monitor.path_keyed m ->
  Monitor.known_entry
    (mkShareState lm ls
       (Some (PyDict.values (PyDict.set (path_key f) (Monitor.stamp f t) m))) c) p =
  if String.eqb p (path_key f) then Some (Monitor.stamp f t) else PyDict.get p m.
Proof.
  intros Hm.
  pose proof (path_keyed_set m (Monitor.stamp f t) Hm) as Hm'.
  change (path_key (Monitor.stamp f t)) with (path_key f) in Hm'.
  unfold Monitor.known_entry. cbn [files default].
  now rewrite (path_keyed_lookup _ _ Hm'), pydict_get_set.
Qed.

Lemma due_known_entry (r : ShareState) (f : FileInfo) :
  FileComparator.due (default [] (files r)) f =
  negb (is_directory f) &&
  match Monitor.known_entry r (path_key f) with
  | None => true
  | Some k => negb (String.eqb (md5_key f) (md5_key k))
  end.
Proof.
  unfold FileComparator.due, Monitor.known_entry. now rewrite target_map_lookup.
Qed.

Lemma disk_after_app (d0 : gmap string ShareState) (l1 l2 : list Event) :
  disk_after d0 (l1 ++ l2) = disk_after (disk_after d0 l1) l2.
Proof. unfold disk_after. apply fold_left_app. Qed.

Lemma disk_after_quiet (d0 : gmap string ShareState) (l : list Event) :
  Forall (fun e => is_persist e = false) l -> disk_after d0 l = d0.
Proof.
  unfold disk_after. revert d0. induction l as [|e l IH]; intros d0 H; simpl.
  - reflexivity.
  - apply Forall_cons in H as [He Hl]. rewrite IH; [|exact Hl].
    destruct e; try reflexivity. discriminate He.
Qed.

Lemma Forall_take_quiet (n : nat) (l : list Event) :
  Forall (fun e => is_persist e = false) l ->
  Forall (fun e => is_persist e = false) (take n l).
Proof. apply Forall_take. Qed.

(** C3: in a tick with the two-file delta [f1; f2] whose first transfer
    succeeds, the record of the share is updated for [f1] (the entry under
    [f1]'s path is [f1]'s descriptor with [synced_at] set to the time stamp
    taken right after the transfer, every other field unchanged) and the
    aggregate is written out right after [f1]'s transfer and before
    anything is attempted for [f2]; from then until [f2] is committed the
    state file holds [f1] as known and [f2] as it was before the tick, so
    [f2] is still due and [f1] is not; if [f2]'s transfer fails the state
    committed for [f1] stays as it is.  In general, at any position of any
    delta, a successful transfer is followed at once by the update of the
    file's entry and a snapshot, a failed one changes nothing and writes
    nothing, and the loop goes on with the remaining files. *)
Theorem per_file_commit
    (parse : string -> option (string * option string * string))
    (listing : string -> option string -> string -> option (list FileInfo))
    (backend : nat -> Outcome) (strftime : Z -> string)
    (cfg : Monitor.ShareConfig) (st : Monitor.State)
    (share_id : string) (link_pwd : option string) (host : string)
    (file_list : list FileInfo) (f1 f2 : FileInfo) :
  let secret := Monitor.final_password (Monitor.password cfg) link_pwd in
  let key := Monitor.generate_share_key share_id secret in
  let target := Monitor.target_folder_id cfg in
  let preserve := default true (Monitor.preserve_path cfg) in
  let dup := default 2 (Monitor.duplicate cfg) in
  let before := default no_state (Monitor.monitor_state st !! key) in
  let e1 := emit (ListShare share_id secret host) (Monitor.env st) in
  let res1 := Monitor.transfer_file backend f1 share_id secret target preserve dup e1 in
  let st' := Monitor.monitor_share_link parse listing backend strftime cfg st in
  default true (Monitor.enabled cfg) = true ->
  parse (Monitor.url cfg) = Some (share_id, link_pwd, host) ->
  listing share_id secret host = Some file_list ->
  FileComparator.get_files_to_sync file_list (default [] (files before)) = [f1; f2] ->
  path_key f1 <> path_key f2 ->
  fst res1 = true ->
  (exists evs1 s1 r1 evs2,
     let e2 := emit (Persist s1) (snd res1) in
     let res2 := Monitor.transfer_file backend f2 share_id secret target preserve dup e2 in
     (* f1's transfer, then its commit, then f2's transfer *)
     trace (snd res1) = trace e1 ++ evs1 /\
     trace (snd res2) = trace e2 ++ evs2 /\
     Forall (fun e => is_persist e = false) evs1 /\
     Forall (fun e => is_persist e = false) evs2 /\
     new_events (Monitor.env st) (Monitor.env st') =
       ListShare share_id secret host :: evs1 ++ Persist s1 :: evs2 ++
       (if fst res2 then [Persist (Monitor.monitor_state st')] else []) /\
     (* the state committed for f1 *)
     s1 = <[key := r1]> (Monitor.monitor_state st) /\
     (exists entry1,
        Monitor.known_entry r1 (path_key f1) = Some entry1 /\
        entry1 = Monitor.stamp f1 (strftime (now (snd res1))) /\
        (* the stamp, on an otherwise unchanged descriptor *)
        synced_at entry1 = Some (strftime (now (snd res1))) /\
        file_id entry1 = file_id f1 /\ name entry1 = name f1 /\
        path entry1 = path f1 /\ fsize entry1 = fsize f1 /\
        ftype entry1 = ftype f1 /\ md5 entry1 = md5 f1) /\
     Monitor.known_entry r1 (path_key f2) = Monitor.known_entry before (path_key f2) /\
     FileComparator.get_files_to_sync [f1; f2] (default [] (files r1)) = [f2] /\
     last_synced_files_count r1 = Some 1 /\
     (* what the state file holds until f2 is committed *)
     (forall d0 n,
        disk_after d0 (trace (Monitor.env st) ++
                       ListShare share_id secret host :: evs1 ++ Persist s1 :: take n evs2)
        = s1) /\
     (* a failure of f2 leaves f1's commit in place *)
     (if fst res2 then
        exists r2, Monitor.monitor_state st' = <[key := r2]> s1 /\
                   Monitor.known_entry r2 (path_key f1) =
                     Some (Monitor.stamp f1 (strftime (now (snd res1)))) /\
                   Monitor.known_entry r2 (path_key f2) =
                     Some (Monitor.stamp f2 (strftime (now (snd res2)))) /\
                   synced_at <$> Monitor.known_entry r2 (path_key f1) =
                     Some (Some (strftime (now (snd res1)))) /\
                   synced_at <$> Monitor.known_entry r2 (path_key f2) =
                     Some (Some (strftime (now (snd res2))))
      else Monitor.monitor_state st' = s1)) /\
  (* any position of any delta *)
  (forall backend' strftime' sid k pw tg pres dp known done f rest st0,
     let acc0 := (0, FileComparator.target_map known, st0) in
     let acc := Monitor.transfer_loop backend' strftime' sid k pw tg pres dp done acc0 in
     let res := Monitor.transfer_file backend' f sid pw tg pres dp (Monitor.env (snd acc)) in
     let acc' := Monitor.transfer_step backend' strftime' sid k pw tg pres dp acc f in
     Monitor.transfer_loop backend' strftime' sid k pw tg pres dp (done ++ f :: rest) acc0 =
       Monitor.transfer_loop backend' strftime' sid k pw tg pres dp rest acc' /\
     exists evs,
       trace (snd res) = trace (Monitor.env (snd acc)) ++ evs /\
       Forall (fun e => is_persist e = false) evs /\
       if fst res then
         exists r,
           Monitor.monitor_state (snd acc') =
             <[k := r]> (Monitor.monitor_state (snd acc)) /\
           Monitor.known_entry r (path_key f) =
             Some (Monitor.stamp f (strftime' (now (snd res)))) /\
           synced_at <$> Monitor.known_entry r (path_key f) =
             Some (Some (strftime' (now (snd res)))) /\
           (forall p, p <> path_key f ->
              Monitor.known_entry r p = PyDict.get p (snd (fst acc))) /\
           trace (Monitor.env (snd acc')) =
             trace (snd res) ++ [Persist (Monitor.monitor_state (snd acc'))]
       else
         Monitor.monitor_state (snd acc') = Monitor.monitor_state (snd acc) /\
         fst acc' = fst acc /\
         trace (Monitor.env (snd acc')) = trace (snd res)).
Proof.
  intros secret key target preserve dup before e1 res1 st'
         Hen Hparse Hlist Hdelta Hpaths Hok1.
  split.
  2: {
    intros. subst acc'. split.
    - unfold acc. rewrite transfer_loop_app. reflexivity.
    - pose proof (transfer_loop_path_keyed backend' strftime' sid k pw tg pres dp
                    done acc0 (path_keyed_target_map known)) as Hm.
      fold acc in Hm. destruct acc as [[c m] s0]. simpl in Hm.
      destruct (transfer_step_commit backend' strftime' sid k pw tg pres dp
                  c m s0 f Hm) as (evs & Htr & Hq & Hcase).
      exists evs. split; [exact Htr|]. split; [exact Hq|].
      subst res. cbn [snd fst] in *.
      destruct (fst (Monitor.transfer_file backend' f sid pw tg pres dp (Monitor.env s0))).
      + destruct Hcase as (r & H1 & H2 & H3 & _ & _ & H6).
        exists r. split; [exact H1|]. split; [exact H2|].
        split; [now rewrite H2|]. split; [exact H3 | exact H6].
      + rewrite Hcase. auto. }
  subst st'.
  rewrite (monitor_share_link_enabled parse listing backend strftime cfg st
             share_id link_pwd host Hen Hparse).
  cbv zeta. fold secret. fold key. fold before. fold e1. rewrite Hlist, Hdelta.
  fold target. fold preserve. fold dup.
  set (known := default [] (files before)) in *.
  set (ms := Monitor.monitor_state st) in *.
  rewrite !transfer_loop_cons, transfer_loop_nil.
  (* first iteration *)
  rewrite (transfer_step_cases backend strftime share_id key secret target
             preserve dup 0 (FileComparator.target_map known)
             (Monitor.mkState ms e1) f1).
  cbn [Monitor.env Monitor.monitor_state]. fold res1. rewrite Hok1. cbv zeta.
  set (t1 := strftime (now (snd res1))).
  set (m1 := PyDict.set (path_key f1) (Monitor.stamp f1 t1)
               (FileComparator.target_map known)).
  set (r1 := mkShareState (Some (now (snd res1))) (Some (now (snd res1)))
               (Some (PyDict.values m1)) (Some (0 + 1))).
  set (s1 := <[key := r1]> ms).
  assert (Hm0 : Monitor.path_keyed (FileComparator.target_map known))
    by apply path_keyed_target_map.
  assert (Hm1 : Monitor.path_keyed m1).
  { pose proof (path_keyed_set _ (Monitor.stamp f1 t1) Hm0) as H. exact H. }
  destruct (transfer_file_events backend share_id secret target preserve dup f1 e1)
    as (evs1 & Htr1 & Hq1).
  fold res1 in Htr1.
  (* second iteration *)
  unfold Monitor.save_monitor_state. cbn [Monitor.env Monitor.monitor_state].
  rewrite (transfer_step_cases backend strftime share_id key secret target
             preserve dup (0 + 1) m1
             (Monitor.mkState s1 (emit (Persist s1) (snd res1))) f2).
  cbn [Monitor.env Monitor.monitor_state].
  set (e2 := emit (Persist s1) (snd res1)).
  set (res2 := Monitor.transfer_file backend f2 share_id secret target preserve dup e2).
  destruct (transfer_file_events backend share_id secret target preserve dup f2 e2)
    as (evs2 & Htr2 & Hq2).
  fold res2 in Htr2.
  assert (Hq1' : Forall (fun e => is_persist e = false) evs1).
  { eapply List.Forall_impl; [|exact Hq1]. now intros e [H _]. }
  assert (Hq2' : Forall (fun e => is_persist e = false) evs2).
  { eapply List.Forall_impl; [|exact Hq2]. now intros e [H _]. }
  assert (Hk1 : Monitor.known_entry r1 (path_key f1) = Some (Monitor.stamp f1 t1)).
  { unfold r1, m1. rewrite (known_entry_record _ _ _ _ _ _ _ Hm0).
    now rewrite String.eqb_refl. }
  assert (Hk2 : Monitor.known_entry r1 (path_key f2) =
                Monitor.known_entry before (path_key f2)).
  { unfold r1, m1. rewrite (known_entry_record _ _ _ _ _ _ _ Hm0).
    destruct (String.eqb_spec (path_key f2) (path_key f1)) as [Heq|_];
      [now elim Hpaths | reflexivity]. }
  exists evs1, s1, r1, evs2. cbv zeta. fold e2. fold res2.
  split; [exact Htr1|]. split; [exact Htr2|].
  split; [exact Hq1'|]. split; [exact Hq2'|].
  split; [|split; [reflexivity|split; [|split; [exact Hk2|split; [|split;
    [reflexivity|split]]]]]].
  2: { exists (Monitor.stamp f1 t1). split; [exact Hk1|]. repeat split. }
  - apply new_events_app.
    destruct (fst res2);
      cbn [snd Monitor.env Monitor.save_monitor_state emit trace];
      rewrite Htr2; unfold e2; cbn [emit trace]; rewrite Htr1;
      unfold e1; cbn [emit trace]; rewrite <- !app_assoc;
      rewrite ?app_nil_r; reflexivity.
  - (* f1 is no longer due, f2 still is *)
    rewrite get_files_to_sync_filter. cbn [List.filter].
    assert (Hin : forall f, In f [f1; f2] -> FileComparator.due known f = true).
    { intros f Hf. rewrite <- Hdelta, get_files_to_sync_filter in Hf.
      now apply List.filter_In in Hf as [_ H]. }
    pose proof (Hin f1 ltac:(now left)) as Hd1.
    pose proof (Hin f2 ltac:(right; now left)) as Hd2.
    assert (Hdue1 : FileComparator.due (default [] (files r1)) f1 = false).
    { rewrite due_known_entry, Hk1.
      change (md5_key (Monitor.stamp f1 t1)) with (md5_key f1).
      rewrite String.eqb_refl. apply andb_false_r. }
    assert (Hdue2 : FileComparator.due (default [] (files r1)) f2 = true).
    { rewrite due_known_entry, Hk2.
      unfold known in Hd2. now rewrite due_known_entry in Hd2. }
    now rewrite Hdue1, Hdue2.
  - intros d0 n.
    replace (trace (Monitor.env st) ++
             ListShare share_id secret host :: evs1 ++ Persist s1 :: take n evs2)
      with ((trace (Monitor.env st) ++ ListShare share_id secret host :: evs1)
            ++ [Persist s1] ++ take n evs2)
      by (rewrite <- !app_assoc; reflexivity).
    rewrite !disk_after_app.
    rewrite (disk_after_quiet _ (take n evs2)); [reflexivity|].
    now apply Forall_take_quiet.
  - destruct (fst res2);
      cbn [snd Monitor.monitor_state Monitor.save_monitor_state]; [|reflexivity].
    eexists.
    assert (Hk1' : forall t c lm ls,
              Monitor.known_entry
                (mkShareState lm ls
                   (Some (PyDict.values
                            (PyDict.set (path_key f2) (Monitor.stamp f2 t) m1))) c)
                (path_key f1) = Some (Monitor.stamp f1 t1)).
    { intros t c lm ls. rewrite (known_entry_record _ _ _ _ _ _ _ Hm1).
      destruct (String.eqb_spec (path_key f1) (path_key f2)) as [Heq|_];
        [now elim Hpaths|].
      unfold m1. rewrite pydict_get_set. now rewrite String.eqb_refl. }
    assert (Hk2' : forall t c lm ls,
              Monitor.known_entry
                (mkShareState lm ls
                   (Some (PyDict.values
                            (PyDict.set (path_key f2) (Monitor.stamp f2 t) m1))) c)
                (path_key f2) = Some (Monitor.stamp f2 t)).
    { intros t c lm ls. rewrite (known_entry_record _ _ _ _ _ _ _ Hm1).
      now rewrite String.eqb_refl. }
    split; [reflexivity|].
    split; [apply Hk1'|]. split; [apply Hk2'|].
    split; [now rewrite Hk1' | now rewrite Hk2'].
Qed.

(** A fresh share listing two files, both of which transfer. *)
Lemma per_file_commit_witness :
  exists (s1 : gmap string ShareState) (r1 : ShareState),
    s1 !! "k1-x_abcd" = Some r1 /\
    Monitor.known_entry r1 "a.txt" =
      Some (Monitor.stamp Samples.a_x "2024-01-01 00:00:00") /\
    synced_at <$> Monitor.known_entry r1 "a.txt" =
      Some (Some "2024-01-01 00:00:00") /\
    Monitor.known_entry r1 "docs/b.txt" = None /\
    FileComparator.get_files_to_sync [Samples.a_x; Samples.b_x]
      (default [] (files r1)) = [Samples.b_x].
Proof.
  pose proof (per_file_commit Samples.parse Samples.listing_two Samples.always_ok
                Samples.strftime Samples.share Samples.fresh
                "k1-x" (Some "abcd") "www.123865.com"
                [Samples.a_x; Samples.b_x] Samples.a_x Samples.b_x
                eq_refl eq_refl eq_refl eq_refl ltac:(discriminate) eq_refl)
    as [(evs1 & s1 & r1 & evs2 & H) _].
  cbv zeta in H.
  destruct H as (_ & _ & _ & _ & _ & Hs1 & (entry1 & Hk1 & Heq & Hstamp & _)
                 & Hk2 & Hd & _).
  exists s1, r1.
  split; [|split; [|split; [|split; [exact Hk2 | exact Hd]]]].
  - rewrite Hs1. apply lookup_insert_eq.
  - rewrite Heq in Hk1. exact Hk1.
  - pose proof (f_equal (fmap synced_at) Hk1) as Hs. cbn [fmap option_fmap option_map] in Hs.
    rewrite Hstamp in Hs. exact Hs.
Defined.

(** ** Task scheduler *)

Section SchedulerFacts.
Context {Func Kwargs : Type}.
Variable default_task_id : Z -> string.

Abbreviation Sched := (TaskScheduler.Scheduler Func Kwargs).
Abbreviation Job := (TaskScheduler.JobInfo Func Kwargs).

Lemma find_job_Some (task_id : string) (l : list Job) (n i : nat) (job : Job) :
  TaskScheduler.find_job task_id l n = Some (i, job) ->
  (n <= i)%nat /\ l !! (i - n)%nat = Some job /\ TaskScheduler.id job = task_id.
Proof.
  revert n. induction l as [|j l IH]; intros n; simpl; [discriminate|].
  destruct (String.eqb_spec (TaskScheduler.id j) task_id) as [Heq|Hne].
  - intros [= <- <-]. rewrite Nat.sub_diag. auto.
  - intros H. apply IH in H as (Hle & Hl & Hid).
    split; [lia|]. split; [|exact Hid].
    replace (i - n)%nat with (S (i - S n)) by lia. exact Hl.
Qed.

Lemma find_job_None (task_id : string) (l : list Job) (n : nat) :
  TaskScheduler.find_job task_id l n = None ->
  forall j, In j l -> TaskScheduler.id j <> task_id.
Proof.
  revert n. induction l as [|j l IH]; intros n; simpl; [intros _ ? []|].
  destruct (String.eqb_spec (TaskScheduler.id j) task_id) as [Heq|Hne];
    [discriminate|].
  intros H j' [<-|Hin]; [exact Hne | eapply IH; eassumption].
Qed.

Lemma length_pop_at (i : nat) (l : list Job) :
  (i < length l)%nat -> S (length (TaskScheduler.pop_at i l)) = length l.
Proof.
  intros Hi. unfold TaskScheduler.pop_at.
  rewrite length_app, length_take, length_drop. lia.
Qed.

Lemma cancel_job_allocated (h n : nat) (l : list (TaskScheduler.ScheduleJob Func Kwargs)) :
  (forall j, In j l -> (TaskScheduler.handle j < n)%nat) ->
  forall j, In j (TaskScheduler.cancel_job h l) -> (TaskScheduler.handle j < n)%nat.
Proof.
  intros H j Hin. apply H. unfold TaskScheduler.cancel_job in Hin.
  now apply List.filter_In in Hin as [Hin _].
Qed.

Lemma add_interval_task_allocated (f : Func) (n : Z) (i : option string)
    (kw : Kwargs) (t : Z) (s : Sched) :
  TaskScheduler.handles_allocated s ->
  TaskScheduler.handles_allocated
    (snd (TaskScheduler.add_interval_task default_task_id f n i kw t s)).
Proof.
  intros H j. simpl. intros Hin. apply in_app_or in Hin as [Hin|[<-|[]]].
  - specialize (H j Hin). lia.
  - simpl. lia.
Qed.

Lemma remove_job_allocated (task_id : string) (s : Sched) :
  TaskScheduler.handles_allocated s ->
  TaskScheduler.handles_allocated (snd (TaskScheduler.remove_job task_id s)).
Proof.
  intros H. unfold TaskScheduler.remove_job.
  destruct (TaskScheduler.find_job task_id (TaskScheduler.jobs s) 0)
    as [[i job]|]; simpl; [|exact H].
  intros j Hin. simpl in Hin. eapply cancel_job_allocated; eassumption.
Qed.

Lemma update_task_interval_allocated (task_id : string) (n t : Z) (s : Sched) :
  TaskScheduler.handles_allocated s ->
  TaskScheduler.handles_allocated
    (snd (TaskScheduler.update_task_interval default_task_id task_id n t s)).
Proof.
  intros H. unfold TaskScheduler.update_task_interval.
  destruct (TaskScheduler.find_job task_id (TaskScheduler.jobs s) 0)
    as [[i job]|]; [|exact H].
  cbv zeta. cbn [snd].
  apply add_interval_task_allocated. now apply remove_job_allocated.
Qed.

(** Whatever was done to the scheduler since it was created, the
    identities of its library jobs are below the allocator. *)
Lemma run_allocated (ops : list (TaskScheduler.Op (Func := Func) (Kwargs := Kwargs))) :
  TaskScheduler.handles_allocated (TaskScheduler.run default_task_id ops).
Proof.
  unfold TaskScheduler.run.
  assert (H0 : TaskScheduler.handles_allocated
                 (TaskScheduler.init (Func := Func) (Kwargs := Kwargs))).
  { intros j []. }
  revert H0. generalize (TaskScheduler.init (Func := Func) (Kwargs := Kwargs)).
  induction ops as [|op ops IH]; intros s Hs; simpl; [exact Hs|].
  apply IH. destruct op; simpl.
  - now apply add_interval_task_allocated.
  - now apply remove_job_allocated.
  - now apply update_task_interval_allocated.
  - unfold TaskScheduler.start. destruct (TaskScheduler.running s); exact Hs.
  - unfold TaskScheduler.stop. destruct (TaskScheduler.running s); simpl;
      [intros j [] | exact Hs].
Qed.

Lemma find_fresh_handle (h : nat) (old : nat)
    (l : list (TaskScheduler.ScheduleJob Func Kwargs))
    (j : TaskScheduler.ScheduleJob Func Kwargs) :
  (forall j', In j' l -> (TaskScheduler.handle j' < h)%nat) ->
  TaskScheduler.handle j = h ->
  List.find (fun j' => Nat.eqb (TaskScheduler.handle j') h)
            (TaskScheduler.cancel_job old l ++ [j]) = Some j.
Proof.
  intros Hl Hj.
  assert (Hl' : forall j', In j' (TaskScheduler.cancel_job old l) ->
                           (TaskScheduler.handle j' < h)%nat)
    by now apply cancel_job_allocated.
  revert Hl'. generalize (TaskScheduler.cancel_job old l). clear Hl.
  induction l0 as [|x l0 IH]; intros Hl'; simpl.
  - now rewrite Hj, Nat.eqb_refl.
  - destruct (Nat.eqb_spec (TaskScheduler.handle x) h) as [Heq|_].
    + specialize (Hl' x (or_introl eq_refl)). lia.
    + apply IH. intros j' Hin. apply Hl'. now right.
Qed.

End SchedulerFacts.

(** C6: on a scheduler reached by any sequence of registrations,
    removals, interval updates and stops, [update_task_interval] of a
    registered id returns [True], removes the first entry with that id
    together with its library job and appends a fresh entry with the same
    id, callable and keyword arguments and the new interval, so the
    number of entries is unchanged, and the fresh entry's next fire time
    is the time of the update plus the new interval; for an id that is
    not registered it returns [False] and changes nothing. *)
Theorem update_task_interval_replaces
    (Func Kwargs : Type) (default_task_id : Z -> string)
    (ops : list (TaskScheduler.Op (Func := Func) (Kwargs := Kwargs)))
    (task_id : string) (new_interval_seconds t : Z) :
  let s := TaskScheduler.run default_task_id ops in
  let r := TaskScheduler.update_task_interval default_task_id task_id
             new_interval_seconds t s in
  match TaskScheduler.find_job task_id (TaskScheduler.jobs s) 0 with
  | Some (i, old) =>
      let fresh := TaskScheduler.mkJobInfo task_id (TaskScheduler.func old)
                     new_interval_seconds (TaskScheduler.kwargs old)
                     (TaskScheduler.next_handle s) in
      TaskScheduler.jobs s !! i = Some old /\
      TaskScheduler.id old = task_id /\
      fst r = true /\
      TaskScheduler.jobs (snd r) =
        TaskScheduler.pop_at i (TaskScheduler.jobs s) ++ [fresh] /\
      TaskScheduler.get_job_count (snd r) = TaskScheduler.get_job_count s /\
      TaskScheduler.library_jobs (snd r) =
        TaskScheduler.cancel_job (TaskScheduler.schedule_job old)
                                 (TaskScheduler.library_jobs s) ++
        [TaskScheduler.mkScheduleJob (TaskScheduler.next_handle s)
           new_interval_seconds (t + new_interval_seconds) task_id
           (TaskScheduler.func old) (TaskScheduler.kwargs old)] /\
      TaskScheduler.next_fire fresh (snd r) = Some (t + new_interval_seconds)
  | None =>
      Forall (fun j => TaskScheduler.id j <> task_id) (TaskScheduler.jobs s) /\
      r = (false, s)
  end.
Proof.
  intros s r. subst r. unfold TaskScheduler.update_task_interval,
    TaskScheduler.remove_job.
  destruct (TaskScheduler.find_job task_id (TaskScheduler.jobs s) 0)
    as [[i old]|] eqn:Hfind.
  - apply find_job_Some in Hfind as (_ & Hl & Hid).
    rewrite Nat.sub_0_r in Hl.
    cbv zeta. cbn [snd fst TaskScheduler.add_interval_task
                   TaskScheduler.jobs TaskScheduler.library_jobs
                   TaskScheduler.next_handle TaskScheduler.handle].
    split; [exact Hl|]. split; [exact Hid|]. split; [reflexivity|].
    split; [reflexivity|]. split; [|split; [reflexivity|]].
    + unfold TaskScheduler.get_job_count. cbn [TaskScheduler.jobs].
      rewrite length_app. simpl.
      pose proof (length_pop_at i (TaskScheduler.jobs s)
                    (lookup_lt_Some _ _ _ Hl)). lia.
    + unfold TaskScheduler.next_fire.
      cbn [TaskScheduler.library_jobs TaskScheduler.schedule_job].
      rewrite find_fresh_handle; [reflexivity| |reflexivity].
      apply run_allocated.
  - split; [|reflexivity].
    apply List.Forall_forall. now apply (find_job_None _ _ 0).
Qed.

(** ** Task monitor *)

Lemma complete_task_history (tid : string) (ok : bool) (err : option string)
    (extra : option (gmap string string)) (t : Z) (m : TaskMonitor.Monitor) :
  TaskMonitor.task_history (TaskMonitor.complete_task tid ok err extra t m) =
  match TaskMonitor.task_status m !! tid with
  | Some info =>
      let record :=
        TaskMonitor.mkTaskInfo (TaskMonitor.task_id info) (TaskMonitor.task_name info)
          TaskMonitor.Completed (TaskMonitor.start_time info) (Some t)
          (Some (t - TaskMonitor.start_time info)) (Some ok) err
          (TaskMonitor.details info) in
      if Nat.ltb TaskMonitor.max_history
                 (length (TaskMonitor.task_history m ++ [record]))
      then drop 1 (TaskMonitor.task_history m ++ [record])
      else TaskMonitor.task_history m ++ [record]
  | None => TaskMonitor.task_history m
  end.
Proof.
  unfold TaskMonitor.complete_task.
  destruct (TaskMonitor.task_status m !! tid); reflexivity.
Qed.

Lemma apply_history_bounded (m : TaskMonitor.Monitor) (op : TaskMonitor.Op) :
  (length (TaskMonitor.task_history m) <= TaskMonitor.max_history)%nat ->
  (length (TaskMonitor.task_history (TaskMonitor.apply m op))
     <= TaskMonitor.max_history)%nat.
Proof.
  intros H. destruct op as [tid tname t|tid extra|tid ok err extra t|]; simpl.
  - exact H.
  - unfold TaskMonitor.update_task.
    destruct (TaskMonitor.task_status m !! tid); exact H.
  - rewrite complete_task_history.
    destruct (TaskMonitor.task_status m !! tid) as [info|]; [|exact H].
    cbv zeta.
    destruct (Nat.ltb_spec TaskMonitor.max_history
                (length (TaskMonitor.task_history m ++
                   [TaskMonitor.mkTaskInfo (TaskMonitor.task_id info)
                      (TaskMonitor.task_name info) TaskMonitor.Completed
                      (TaskMonitor.start_time info) (Some t)
                      (Some (t - TaskMonitor.start_time info)) (Some ok) err
                      (TaskMonitor.details info)]))) as [Hlt|Hge].
    + rewrite length_drop, length_app. simpl. lia.
    + exact Hge.
  - unfold TaskMonitor.max_history. lia.
Qed.

(** After any sequence of operations on a fresh monitor the history holds
    at most 1000 records. *)
Lemma history_bounded (ops : list TaskMonitor.Op) :
  (length (TaskMonitor.task_history (TaskMonitor.run ops)) <= 1000)%nat.
Proof.
  unfold TaskMonitor.run.
  assert (H0 : (length (TaskMonitor.task_history TaskMonitor.init)
                  <= TaskMonitor.max_history)%nat)
    by (unfold TaskMonitor.max_history; simpl; lia).
  revert H0. generalize TaskMonitor.init.
  induction ops as [|op ops IH]; intros m Hm; simpl; [exact Hm|].
  apply IH. now apply apply_history_bounded.
Qed.

(** Completing a known task on a full history drops exactly the oldest
    record and appends the new one. *)
Lemma complete_task_evicts_oldest (tid : string) (ok : bool) (err : option string)
    (extra : option (gmap string string)) (t : Z) (m : TaskMonitor.Monitor)
    (info oldest : TaskMonitor.TaskInfo) (others : list TaskMonitor.TaskInfo) :
  TaskMonitor.task_status m !! tid = Some info ->
  TaskMonitor.task_history m = oldest :: others ->
  length (TaskMonitor.task_history m) = 1000%nat ->
  TaskMonitor.task_history (TaskMonitor.complete_task tid ok err extra t m) =
    others ++
    [TaskMonitor.mkTaskInfo (TaskMonitor.task_id info) (TaskMonitor.task_name info)
       TaskMonitor.Completed (TaskMonitor.start_time info) (Some t)
       (Some (t - TaskMonitor.start_time info)) (Some ok) err
       (TaskMonitor.details info)].
Proof.
  intros Hst Hh Hfull. rewrite complete_task_history, Hst. cbv zeta.
  rewrite length_app, Hfull. simpl length.
  replace (Nat.ltb TaskMonitor.max_history (1000 + 1)) with true by reflexivity.
  rewrite Hh. reflexivity.
Qed.

Lemma slice_from_negative {A : Type} (n : nat) (l : list A) :
  (0 < n)%nat ->
  TaskMonitor.slice_from (- Z.of_nat n) l = TaskMonitor.most_recent n l.
Proof.
  intros Hn. unfold TaskMonitor.slice_from, TaskMonitor.most_recent.
  destruct (Z.ltb_spec (- Z.of_nat n) 0) as [_|Hge]; [|lia].
  f_equal. lia.
Qed.

(** For a positive limit, [get_recent_history] returns the last [limit]
    records (all of them when there are fewer), oldest first. *)
Lemma get_recent_history_positive (limit : Z) (m : TaskMonitor.Monitor) :
  0 < limit ->
  TaskMonitor.get_recent_history limit m =
    TaskMonitor.most_recent (Z.to_nat limit) (TaskMonitor.task_history m) /\
  (length (TaskMonitor.get_recent_history limit m) <= Z.to_nat limit)%nat /\
  exists older, TaskMonitor.task_history m =
                older ++ TaskMonitor.get_recent_history limit m.
Proof.
  intros Hpos. unfold TaskMonitor.get_recent_history.
  replace (- limit) with (- Z.of_nat (Z.to_nat limit)) by lia.
  rewrite slice_from_negative by lia.
  unfold TaskMonitor.most_recent. split; [reflexivity|]. split.
  - rewrite length_drop. lia.
  - exists (take (length (TaskMonitor.task_history m) - Z.to_nat limit)
                 (TaskMonitor.task_history m)).
    now rewrite take_drop.
Qed.

Lemma get_recent_history_zero (m : TaskMonitor.Monitor) :
  TaskMonitor.get_recent_history 0 m = TaskMonitor.task_history m.
Proof.
  unfold TaskMonitor.get_recent_history, TaskMonitor.slice_from.
  change (- 0) with 0. rewrite Z.ltb_irrefl.
  replace (Z.to_nat (Z.min 0 (Z.of_nat (length (TaskMonitor.task_history m)))))
    with 0%nat by lia.
  reflexivity.
Qed.

(** C7: the cap of 1000 records, the eviction of exactly the oldest record
    and the answer for a positive limit hold; but [get_recent_history(0)]
    evaluates [task_history[-0:]], which is the whole list.  On a monitor
    with three finished runs, a limit of 2 gives the last two records in
    order, while a limit of 0 gives all three records instead of none. *)
Theorem get_recent_history_zero_limit_returns_all :
  let h := TaskMonitor.task_history Samples.three_runs in
  length h = 3%nat /\
  TaskMonitor.get_recent_history 2 Samples.three_runs = drop 1 h /\
  TaskMonitor.get_recent_history 0 Samples.three_runs = h /\
  length (TaskMonitor.get_recent_history 0 Samples.three_runs) = 3%nat /\
  TaskMonitor.get_recent_history 0 Samples.three_runs <> [].
Proof. vm_compute. repeat split. discriminate. Qed.

(** * Further properties *)

(** ** Paths and grouping by directory *)

Lemma split_slash_shape (s : string) :
  exists h t,
    split_slash s = h :: t /\
    (has_slash s = false -> t = [] /\ h = s) /\
    (has_slash s = true -> t <> []).
Proof.
  induction s as [|c s IH]; simpl.
  - exists "", []. repeat split; auto; discriminate.
  - destruct IH as (h & t & Hs & Hno & Hyes). rewrite Hs.
    destruct (Ascii.eqb c "/") eqn:Hc; simpl.
    + exists "", (h :: t). repeat split; try discriminate.
    + exists (String c h), t. split; [reflexivity|]. split.
      * intros Hf. destruct (Hno Hf) as [-> ->]. auto.
      * exact Hyes.
Qed.

Lemma last_cons_nonempty {A : Type} (x d : A) (l : list A) :
  l <> [] -> List.last (x :: l) d = List.last l d.
Proof. destruct l; [congruence | reflexivity]. Qed.

Lemma rsplit_slash_head_no_slash (s : string) :
  has_slash s = false -> Grouping.rsplit_slash_head s = s.
Proof.
  induction s as [|c s IH]; simpl; [reflexivity|].
  intros H. apply orb_false_iff in H as [Hc Hs].
  rewrite Hc. simpl. now rewrite IH.
Qed.

Lemma rsplit_slash_join (s : string) :
  has_slash s = true ->
  s = (Grouping.rsplit_slash_head s ++ "/" ++ List.last (split_slash s) "")%string /\
  has_slash (List.last (split_slash s) "") = false.
Proof.
  induction s as [|c s IH]; simpl; [discriminate|].
  intros H.
  destruct (split_slash_shape s) as (h & t & Hs & Hno & Hyes).
  destruct (has_slash s) eqn:Hslash.
  - destruct (IH eq_refl) as [Heq Hlast]. rewrite andb_false_r.
    assert (Hl : List.last (if Ascii.eqb c "/" then "" :: split_slash s
                            else match split_slash s with
                                 | [] => [String c ""]
                                 | h0 :: t0 => String c h0 :: t0
                                 end) "" = List.last (split_slash s) "").
    { rewrite Hs. destruct (Ascii.eqb c "/").
      - now apply last_cons_nonempty.
      - rewrite !last_cons_nonempty; auto. }
    rewrite Hl. split; [|exact Hlast].
    rewrite Heq at 1. reflexivity.
  - rewrite orb_false_r in H. rewrite H. simpl.
    destruct (Hno eq_refl) as [-> ->]. rewrite Hs. simpl.
    split; [|exact Hslash].
    apply Ascii.eqb_eq in H. now subst c.
Qed.

(** X3: the file name that [sync_file] derives from a path never contains a
    slash; for a path with a slash, the directory used for grouping, a slash
    and that file name give the path back, and a path without a slash is its
    own file name in the root directory. *)
Theorem flat_filename_directory_roundtrip (file_path : string) :
  has_slash (flat_filename file_path) = false /\
  (if has_slash file_path
   then file_path = (Grouping.directory_of file_path ++ "/" ++
                     flat_filename file_path)%string
   else flat_filename file_path = file_path /\
        Grouping.directory_of file_path = "").
Proof.
  unfold flat_filename, Grouping.directory_of.
  destruct (has_slash file_path) eqn:H.
  - destruct (rsplit_slash_join file_path H) as [Heq Hlast]. auto.
  - auto.
Qed.

Lemma pydict_set_nodup {V : Type} (k : string) (v : V) (d : PyDict.t V) :
  NoDup (PyDict.keys d) -> NoDup (PyDict.keys (PyDict.set k v d)).
Proof.
  induction d as [|[k0 v0] d IH]; simpl; intros Hnd.
  - apply NoDup_singleton.
  - apply NoDup_cons in Hnd as [Hnotin Hnd].
    destruct (String.eqb_spec k k0) as [Heq|Hne]; simpl.
    + apply NoDup_cons. split; assumption.
    + apply NoDup_cons. split; [|now apply IH].
      rewrite list_elem_of_In. intros Hin.
      apply pydict_keys_set in Hin as [Hin|Hin]; [congruence|].
      apply Hnotin. now rewrite list_elem_of_In.
Qed.

Lemma group_step_get (d : string) (g : PyDict.t (list FileInfo)) (f : FileInfo) :
  PyDict.get d (Grouping.group_step g f) =
  if String.eqb (Grouping.directory_of (path_key f)) d
  then Some (default [] (PyDict.get d g) ++ [f])
  else PyDict.get d g.
Proof.
  unfold Grouping.group_step. cbv zeta.
  set (dir := Grouping.directory_of (path_key f)).
  rewrite pydict_get_set.
  destruct (String.eqb_spec dir d) as [->|Hne].
  - rewrite String.eqb_refl.
    destruct (PyDict.get d g) as [l|] eqn:Hg.
    + now rewrite Hg.
    + rewrite pydict_get_set, String.eqb_refl. reflexivity.
  - destruct (String.eqb_spec d dir) as [Heq|_]; [congruence|].
    destruct (PyDict.get dir g); [reflexivity|].
    rewrite pydict_get_set.
    destruct (String.eqb_spec d dir); [congruence | reflexivity].
Qed.

Lemma group_fold_get (d : string) (files : list FileInfo)
    (g : PyDict.t (list FileInfo)) :
  PyDict.get d (fold_left Grouping.group_step files g) =
  match Grouping.files_in d files with
  | [] => PyDict.get d g
  | l => Some (default [] (PyDict.get d g) ++ l)
  end.
Proof.
  revert g. induction files as [|f files IH]; intros g; simpl; [reflexivity|].
  rewrite IH, group_step_get. unfold Grouping.files_in. simpl.
  destruct (String.eqb (Grouping.directory_of (path_key f)) d); simpl.
  - destruct (List.filter _ files); simpl.
    + reflexivity.
    + now rewrite <- app_assoc.
  - reflexivity.
Qed.

(** X1: the group stored under a directory is exactly the list of the
    files of that directory, in the order of the input; a directory without
    files has no group, so no group is ever empty. *)
Theorem group_files_by_directory_lookup (files : list FileInfo) (directory : string) :
  PyDict.get directory (Grouping.group_files_by_directory files) =
  match List.filter
          (fun f => String.eqb (Grouping.directory_of (path_key f)) directory)
          files with
  | [] => None
  | l => Some l
  end.
Proof.
  unfold Grouping.group_files_by_directory. rewrite group_fold_get.
  unfold Grouping.files_in. simpl.
  destruct (List.filter _ files); reflexivity.
Qed.

Lemma concat_values_set_known (k : string) (l x : list FileInfo)
    (g : PyDict.t (list FileInfo)) :
  PyDict.get k g = Some l ->
  concat (PyDict.values (PyDict.set k (l ++ x) g)) ≡ₚ
  concat (PyDict.values g) ++ x.
Proof.
  induction g as [|[k0 v0] g IH]; simpl; [discriminate|].
  destruct (String.eqb_spec k k0) as [->|Hne].
  - intros [= ->]. simpl. rewrite <- !app_assoc.
    apply Permutation_app_head. apply Permutation_app_comm.
  - intros H. simpl. rewrite <- app_assoc.
    apply Permutation_app_head. now apply IH.
Qed.

Lemma concat_values_set_new (k : string) (v : list FileInfo)
    (g : PyDict.t (list FileInfo)) :
  PyDict.get k g = None ->
  concat (PyDict.values (PyDict.set k v g)) = concat (PyDict.values g) ++ v.
Proof.
  induction g as [|[k0 v0] g IH]; simpl.
  - intros _. now rewrite app_nil_r.
  - destruct (String.eqb_spec k k0) as [->|Hne]; [discriminate|].
    intros H. simpl. now rewrite IH, app_assoc.
Qed.

Lemma group_step_partition (g : PyDict.t (list FileInfo)) (f : FileInfo) :
  NoDup (PyDict.keys g) ->
  NoDup (PyDict.keys (Grouping.group_step g f)) /\
  concat (PyDict.values (Grouping.group_step g f)) ≡ₚ
  concat (PyDict.values g) ++ [f].
Proof.
  intros Hnd. unfold Grouping.group_step. cbv zeta.
  set (dir := Grouping.directory_of (path_key f)).
  destruct (PyDict.get dir g) as [l|] eqn:Hg.
  - rewrite Hg. simpl. split; [now apply pydict_set_nodup|].
    now apply concat_values_set_known.
  - rewrite pydict_get_set, String.eqb_refl. simpl.
    split; [now apply pydict_set_nodup, pydict_set_nodup|].
    rewrite (concat_values_set_known dir [] [f] (PyDict.set dir [] g)).
    + rewrite (concat_values_set_new dir [] g Hg). now rewrite app_nil_r.
    + now rewrite pydict_get_set, String.eqb_refl.
Qed.

(** X2: grouping is a partition: the directories that key the groups are
    pairwise distinct, and the groups put together hold every input file
    exactly as often as the input does. *)
Theorem group_files_by_directory_partition (files : list FileInfo) :
  NoDup (PyDict.keys (Grouping.group_files_by_directory files)) /\
  concat (PyDict.values (Grouping.group_files_by_directory files)) ≡ₚ files /\
  length (concat (PyDict.values (Grouping.group_files_by_directory files)))
    = length files.
Proof.
  assert (H : forall g : PyDict.t (list FileInfo),
            NoDup (PyDict.keys g) ->
            NoDup (PyDict.keys (fold_left Grouping.group_step files g)) /\
            concat (PyDict.values (fold_left Grouping.group_step files g)) ≡ₚ
            concat (PyDict.values g) ++ files).
  { induction files as [|f files IH]; intros g Hnd; simpl.
    - split; [exact Hnd | now rewrite app_nil_r].
    - destruct (group_step_partition g f Hnd) as [Hnd' Hp].
      destruct (IH _ Hnd') as [Hnd'' Hp'].
      split; [exact Hnd''|].
      rewrite Hp', Hp, <- app_assoc. reflexivity. }
  destruct (H PyDict.empty (NoDup_nil_2 (A := string))) as [Hnd Hp].
  unfold Grouping.group_files_by_directory.
  split; [exact Hnd|]. split; [exact Hp|].
  now rewrite Hp.
Qed.

(** ** Transfer orchestrator: outcome and trace of every call *)

Section SyncFileOutcome.
Variable backend : nat -> Outcome.
Variables (share_id file_id : option string) (target_folder_id : string)
          (share_pwd : option string) (retries : Z)
          (file_path : option string) (preserve_path : bool)
          (file_info : option FileInfo) (duplicate : Z).

Let the_call := FileSyncer.save_call target_folder_id share_pwd file_path
                  preserve_path file_info duplicate.
Let loop := FileSyncer.attempt_loop backend target_folder_id share_pwd retries
              file_path preserve_path file_info duplicate.

Lemma failed_attempts_S (call : Event) (c0 a k : nat) :
  FileSyncer.failed_attempts backend retries call c0 a (S k) =
  (call :: FileSyncer.after_failure retries a (backend c0)) ++
  FileSyncer.failed_attempts backend retries call (S c0) (S a) k.
Proof.
  unfold FileSyncer.failed_attempts. simpl seq. rewrite <- seq_shift.
  simpl. rewrite !Nat.add_0_r. f_equal.
  rewrite List.map_map. f_equal. f_equal. apply List.map_ext. intros i.
  now rewrite !Nat.add_succ_r.
Qed.

Lemma failed_attempts_save_calls (call : Event) (k : nat) :
  is_save call = true ->
  forall c0 a,
    save_calls (FileSyncer.failed_attempts backend retries call c0 a k) = k.
Proof.
  intros Hsave. induction k as [|k IH]; intros c0 a; [reflexivity|].
  rewrite failed_attempts_S, save_calls_app, IH, save_calls_cons, Hsave.
  unfold FileSyncer.after_failure.
  destruct (backend c0); [reflexivity|].
  destruct (Z.ltb _ _); reflexivity.
Qed.

(** [k] failing attempts in a row leave the loop where it would be had it
    started at the next attempt, with their actions recorded. *)
Lemma attempt_loop_failures (sid fid : string) (k : nat) :
  forall (a m : nat) (env : Env),
    (forall i, (i < k)%nat ->
       FileSyncer.answer_ok (backend (calls env + i)) = false) ->
    loop sid fid (List.map Z.of_nat (seq a (k + m))) env =
    loop sid fid (List.map Z.of_nat (seq (a + k) m))
      (mkEnv (now env + total_delay (FileSyncer.failed_attempts backend retries
                                        (the_call sid fid) (calls env) a k))
             (calls env + k)
             (trace env ++ FileSyncer.failed_attempts backend retries
                             (the_call sid fid) (calls env) a k)).
Proof.
  induction k as [|k IH]; intros a m env Hfail.
  - simpl. rewrite Nat.add_0_r, app_nil_r, Z.add_0_r, Nat.add_0_r.
    now destruct env.
  - pose proof (Hfail 0%nat ltac:(lia)) as H0. rewrite Nat.add_0_r in H0.
    assert (Hsv : is_save (the_call sid fid) = true) by apply the_call_is_save.
    assert (Hrest : forall i, (i < k)%nat ->
              FileSyncer.answer_ok (backend (S (calls env) + i)) = false).
    { intros i Hi. replace (S (calls env) + i)%nat with (calls env + S i)%nat by lia.
      apply Hfail. lia. }
    rewrite failed_attempts_S.
    replace (a + S k)%nat with (S a + k)%nat by lia.
    simpl seq. simpl List.map. simpl. fold loop. fold (the_call sid fid).
    unfold FileSyncer.answer_ok in H0. unfold FileSyncer.after_failure.
    destruct (backend (calls env)) as [result|e].
    + rewrite H0. rewrite (IH (S a) m).
      * f_equal. apply mkEnv_eq; simpl.
        -- rewrite total_delay_cons, (save_no_delay _ Hsv).
           lia.
        -- lia.
        -- now rewrite <- app_assoc.
      * intros i Hi. simpl. now apply Hrest.
    + destruct (Z.ltb (Z.of_nat a) retries).
      * rewrite (IH (S a) m).
        -- f_equal. apply mkEnv_eq; simpl.
           ++ rewrite !total_delay_cons,
                (save_no_delay _ Hsv).
              simpl. lia.
           ++ lia.
           ++ now rewrite <- !app_assoc.
        -- intros i Hi. simpl. now apply Hrest.
      * rewrite (IH (S a) m).
        -- f_equal. apply mkEnv_eq; simpl.
           ++ rewrite total_delay_cons,
                (save_no_delay _ Hsv).
              lia.
           ++ lia.
           ++ now rewrite <- app_assoc.
        -- intros i Hi. simpl. now apply Hrest.
Qed.

Lemma failed_attempts_snoc (call : Event) (c0 a k : nat) :
  FileSyncer.failed_attempts backend retries call c0 a (S k) =
  FileSyncer.failed_attempts backend retries call c0 a k ++
  call :: FileSyncer.after_failure retries (a + k) (backend (c0 + k)%nat).
Proof.
  unfold FileSyncer.failed_attempts.
  rewrite seq_S, List.map_app, concat_app. simpl. now rewrite app_nil_r.
Qed.

Lemma failed_attempts_all_raise (call : Event) (k : nat) :
  forall c0 a,
    (forall i, (i < k)%nat -> exists e, backend (c0 + i)%nat = Raises e) ->
    Z.of_nat (a + k) <= retries ->
    FileSyncer.failed_attempts backend retries call c0 a k =
    FileSyncer.backoff_events call a k.
Proof.
  induction k as [|k IH]; intros c0 a Hraise Hle; [reflexivity|].
  rewrite failed_attempts_S, backoff_events_S.
  destruct (Hraise 0%nat ltac:(lia)) as [e He]. rewrite Nat.add_0_r in He.
  rewrite He. simpl.
  replace (Z.ltb (Z.of_nat a) retries) with true
    by (symmetry; apply Z.ltb_lt; lia).
  simpl. f_equal. f_equal. apply IH; [|lia].
  intros i Hi. destruct (Hraise (S i) ltac:(lia)) as [e' He'].
  exists e'. rewrite <- He'. f_equal. lia.
Qed.
End SyncFileOutcome.

(** X4: [sync_file] succeeds exactly at the first answer of the backend
    that is an ok result, provided it comes within the [retries + 1]
    attempts: it returns that result, has issued one save call per attempt
    up to and including that one and none after it, and between the calls
    it has slept only after the attempts that raised. *)
Theorem sync_file_succeeds_at_first_ok
    (backend : nat -> Outcome) (share_id file_id : option string)
    (target_folder_id : string) (share_pwd : option string) (retries : Z)
    (file_path : option string) (preserve_path : bool)
    (file_info : option FileInfo) (duplicate : Z) (env : Env)
    (k : nat) (r : option SaveResult) :
  truthy file_id = true -> truthy share_id = true ->
  Z.of_nat k <= retries ->
  (forall i, (i < k)%nat ->
     FileSyncer.answer_ok (backend (calls env + i)%nat) = false) ->
  backend (calls env + k)%nat = Returns r ->
  FileSyncer.result_ok r = true ->
  let res := FileSyncer.sync_file backend share_id file_id target_folder_id
               share_pwd retries file_path preserve_path file_info duplicate env in
  let call := FileSyncer.save_call target_folder_id share_pwd file_path
                preserve_path file_info duplicate
                (default "" share_id) (default "" file_id) in
  fst res = FileSyncer.Synced r /\
  new_events env (snd res) =
    FileSyncer.failed_attempts backend retries call (calls env) 0 k ++ [call] /\
  save_calls (new_events env (snd res)) = S k /\
  calls (snd res) = (calls env + S k)%nat.
Proof.
  intros Hf Hs Hk Hfail Hok Hres res call. subst res.
  unfold FileSyncer.sync_file. rewrite Hf, Hs. simpl negb. simpl orb. cbv iota.
  unfold range.
  replace (Z.to_nat (retries + 1)) with (k + S (Z.to_nat retries - k))%nat by lia.
  rewrite (attempt_loop_failures backend target_folder_id share_pwd retries
             file_path preserve_path file_info duplicate _ _ k 0 _ env Hfail).
  simpl. fold call. rewrite Hok, Hres. simpl.
  assert (Hsv : is_save call = true) by apply the_call_is_save.
  assert (Hev : new_events env
            (issue call
               (mkEnv (now env + total_delay (FileSyncer.failed_attempts backend
                         retries call (calls env) 0 k))
                  (calls env + k)
                  (trace env ++ FileSyncer.failed_attempts backend retries call
                                  (calls env) 0 k))) =
           FileSyncer.failed_attempts backend retries call (calls env) 0 k ++ [call]).
  { apply new_events_app. simpl. now rewrite <- app_assoc. }
  rewrite Hev. split; [reflexivity|]. split; [reflexivity|]. split.
  - rewrite save_calls_app, (failed_attempts_save_calls backend retries call k Hsv),
      save_calls_cons, Hsv. unfold save_calls. simpl. lia.
  - lia.
Qed.

(** Two exceptions, then success, within a budget of two retries. *)
Lemma sync_file_succeeds_at_first_ok_witness :
  fst (FileSyncer.sync_file Samples.raises_twice (Some "share") (Some "f1") "0"
         None 2 (Some "docs/b.txt") true None 2 Samples.env0)
  = FileSyncer.Synced Samples.ok_result.
Proof.
  pose proof (sync_file_succeeds_at_first_ok Samples.raises_twice (Some "share")
                (Some "f1") "0" None 2 (Some "docs/b.txt") true None 2
                Samples.env0 2 Samples.ok_result eq_refl eq_refl ltac:(lia)) as H.
  cbv zeta in H. apply H; [|reflexivity|reflexivity].
  intros i Hi. destruct i as [|[|i]]; [reflexivity | reflexivity | lia].
Defined.

(** X5: when none of the first [retries + 1] answers of the backend is an
    ok result, [sync_file] gives up with an exception after exactly
    [retries + 1] save calls; its last action is the last save call, so
    nothing is waited for after the final attempt; and when every attempt
    failed by raising, it has slept [2 + 4 + ... + 2 * retries] seconds,
    that is [retries * (retries + 1)], in total. *)
Theorem sync_file_gives_up
    (backend : nat -> Outcome) (share_id file_id : option string)
    (target_folder_id : string) (share_pwd : option string) (retries : Z)
    (file_path : option string) (preserve_path : bool)
    (file_info : option FileInfo) (duplicate : Z) (env : Env) :
  truthy file_id = true -> truthy share_id = true ->
  0 <= retries ->
  (forall i, (i < Z.to_nat (retries + 1))%nat ->
     FileSyncer.answer_ok (backend (calls env + i)%nat) = false) ->
  let res := FileSyncer.sync_file backend share_id file_id target_folder_id
               share_pwd retries file_path preserve_path file_info duplicate env in
  let call := FileSyncer.save_call target_folder_id share_pwd file_path
                preserve_path file_info duplicate
                (default "" share_id) (default "" file_id) in
  fst res = FileSyncer.SyncFailed /\
  save_calls (new_events env (snd res)) = Z.to_nat (retries + 1) /\
  calls (snd res) = (calls env + Z.to_nat (retries + 1))%nat /\
  new_events env (snd res) =
    FileSyncer.failed_attempts backend retries call (calls env) 0
      (Z.to_nat retries) ++ [call] /\
  ((forall i, (i < Z.to_nat (retries + 1))%nat ->
      exists e, backend (calls env + i)%nat = Raises e) ->
   total_delay (new_events env (snd res)) = retries * (retries + 1)).
Proof.
  intros Hf Hs Hret Hfail res call. subst res.
  unfold FileSyncer.sync_file. rewrite Hf, Hs. simpl negb. simpl orb. cbv iota.
  unfold range. fold call.
  assert (Hloop :
    FileSyncer.attempt_loop backend target_folder_id share_pwd retries file_path
      preserve_path file_info duplicate (default "" share_id) (default "" file_id)
      (List.map Z.of_nat (seq 0 (Z.to_nat (retries + 1)))) env =
    (FileSyncer.SyncFailed,
     mkEnv (now env + total_delay (FileSyncer.failed_attempts backend
                retries call (calls env) 0 (Z.to_nat (retries + 1))))
           (calls env + Z.to_nat (retries + 1))
           (trace env ++ FileSyncer.failed_attempts backend retries call
                           (calls env) 0 (Z.to_nat (retries + 1))))).
  { pose proof (attempt_loop_failures backend target_folder_id share_pwd retries
                  file_path preserve_path file_info duplicate
                  (default "" share_id) (default "" file_id)
                  (Z.to_nat (retries + 1)) 0 0 env Hfail) as H.
    rewrite Nat.add_0_r in H. rewrite H. reflexivity. }
  rewrite Hloop. cbn [fst snd calls].
  assert (Hsv : is_save call = true) by apply the_call_is_save.
  assert (Hev : new_events env
            (mkEnv (now env + total_delay (FileSyncer.failed_attempts backend
                      retries call (calls env) 0 (Z.to_nat (retries + 1))))
               (calls env + Z.to_nat (retries + 1))
               (trace env ++ FileSyncer.failed_attempts backend retries call
                               (calls env) 0 (Z.to_nat (retries + 1)))) =
           FileSyncer.failed_attempts backend retries call (calls env) 0
             (Z.to_nat (retries + 1)))
    by now apply new_events_app.
  rewrite Hev.
  assert (Hsnoc : FileSyncer.failed_attempts backend retries call (calls env) 0
                    (Z.to_nat (retries + 1)) =
                  FileSyncer.failed_attempts backend retries call (calls env) 0
                    (Z.to_nat retries) ++ [call]).
  { replace (Z.to_nat (retries + 1)) with (S (Z.to_nat retries)) by lia.
    rewrite failed_attempts_snoc. f_equal. f_equal.
    unfold FileSyncer.after_failure.
    destruct (backend (calls env + Z.to_nat retries)%nat); [reflexivity|].
    replace (Z.ltb (Z.of_nat (0 + Z.to_nat retries)) retries) with false;
      [reflexivity|].
    symmetry. apply Z.ltb_ge. lia. }
  split; [reflexivity|]. split.
  { now apply failed_attempts_save_calls. }
  split; [reflexivity|]. split; [exact Hsnoc|].
  intros Hraise. rewrite Hsnoc, total_delay_app.
  rewrite (failed_attempts_all_raise backend retries call (Z.to_nat retries)
             (calls env) 0).
  - destruct (backoff_events_delay call (Z.to_nat retries) Hsv 0%nat) as [Hd _].
    rewrite Hd, total_delay_cons, (save_no_delay _ Hsv).
    unfold total_delay. simpl. lia.
  - intros i Hi. apply Hraise. lia.
  - lia.
Qed.

(** A backend that always raises, with the monitor's budget of 3 retries:
    four save calls and 2 + 4 + 6 seconds of waiting. *)
Lemma sync_file_gives_up_witness :
  let res := FileSyncer.sync_file Samples.always_raises (Some "share") (Some "f1")
               "0" None 3 (Some "docs/b.txt") true None 2 Samples.env0 in
  fst res = FileSyncer.SyncFailed /\
  save_calls (new_events Samples.env0 (snd res)) = 4%nat /\
  total_delay (new_events Samples.env0 (snd res)) = 12.
Proof.
  pose proof (sync_file_gives_up Samples.always_raises (Some "share") (Some "f1")
                "0" None 3 (Some "docs/b.txt") true None 2 Samples.env0
                eq_refl eq_refl ltac:(lia) ltac:(reflexivity))
    as (H1 & H2 & _ & _ & H5).
  split; [exact H1|]. split; [exact H2|].
  apply H5. intros i _. now exists "connection reset".
Defined.

(** ** Transfer orchestrator: the wait between failed attempts *)

(** Every failure of [save_shared_file] reaches its caller as an
    exception: what it returns has code 0. *)
Lemma save_shared_file_cases (r : ApiClient.Response) :
  (r = ApiClient.Answer 200 (Some 0) /\
   ApiClient.save_shared_file r = Returns (Some (mkSaveResult (Some 0))) /\
   FileSyncer.answer_ok (ApiClient.save_shared_file r) = true) \/
  (r <> ApiClient.Answer 200 (Some 0) /\
   (exists e, ApiClient.save_shared_file r = Raises e) /\
   FileSyncer.answer_ok (ApiClient.save_shared_file r) = false).
Proof.
  destruct r as [e|status_code code]; simpl.
  - right. split; [discriminate|]. eauto.
  - destruct (Z.eqb_spec status_code 200) as [->|Hne]; simpl.
    + destruct code as [[|c|c]|]; [left; auto| | |];
        right; (split; [discriminate|]); eauto.
    + right. split; [congruence|]. eauto.
Qed.

Lemma first_success (p : nat -> bool) (n : nat) :
  (exists k, (k < n)%nat /\ p k = true /\ forall i, (i < k)%nat -> p i = false) \/
  (forall i, (i < n)%nat -> p i = false).
Proof.
  induction n as [|n IH]; [right; intros i Hi; lia|].
  destruct IH as [(k & Hk & Hp & Hbefore)|Hnone].
  - left. exists k. split; [lia|]. auto.
  - destruct (p n) eqn:Hn.
    + left. exists n. split; [lia|]. auto.
    + right. intros i Hi. destruct (Nat.eq_dec i n) as [->|Hne]; [exact Hn|].
      apply Hnone. lia.
Qed.

(** When every attempt allowed raises, [sync_file] waits after each but
    the last and then gives up. *)
Lemma sync_file_raise_exhausted (backend : nat -> Outcome)
    (share_id file_id : option string) (target_folder_id : string)
    (share_pwd : option string) (retries : Z) (file_path : option string)
    (preserve_path : bool) (file_info : option FileInfo) (duplicate : Z)
    (env : Env) :
  truthy file_id = true -> truthy share_id = true ->
  0 <= retries ->
  (forall i, (i < Z.to_nat (retries + 1))%nat ->
     exists e, backend (calls env + i)%nat = Raises e) ->
  let res := FileSyncer.sync_file backend share_id file_id target_folder_id
               share_pwd retries file_path preserve_path file_info duplicate env in
  let call := FileSyncer.save_call target_folder_id share_pwd file_path
                preserve_path file_info duplicate
                (default "" share_id) (default "" file_id) in
  fst res = FileSyncer.SyncFailed /\
  new_events env (snd res) =
    FileSyncer.backoff_events call 0 (Z.to_nat retries) ++ [call] /\
  save_calls (new_events env (snd res)) = S (Z.to_nat retries) /\
  total_delay (new_events env (snd res)) = retries * (retries + 1).
Proof.
  intros Hf Hs Hret Hraise res call. subst res.
  unfold FileSyncer.sync_file. rewrite Hf, Hs. simpl negb. simpl orb. cbv iota.
  unfold range.
  replace (Z.to_nat (retries + 1)) with (Z.to_nat retries + 1)%nat in * by lia.
  rewrite (attempt_loop_raises backend target_folder_id share_pwd retries
             file_path preserve_path file_info duplicate
             (default "" share_id) (default "" file_id) (Z.to_nat retries) 0 1 env);
    [|intros i Hi; apply Hraise; lia | simpl; lia].
  fold call. cbn [seq List.map FileSyncer.attempt_loop calls].
  destruct (Hraise (Z.to_nat retries) ltac:(lia)) as [e He]. rewrite He.
  replace (Z.ltb (Z.of_nat (0 + Z.to_nat retries)) retries) with false
    by (symmetry; apply Z.ltb_ge; lia).
  cbn [fst snd]. fold call.
  assert (Hsv : is_save call = true) by apply the_call_is_save.
  assert (Hev : new_events env
            (issue call
               (mkEnv (now env + total_delay (FileSyncer.backoff_events call 0
                                                (Z.to_nat retries)))
                  (calls env + Z.to_nat retries)
                  (trace env ++ FileSyncer.backoff_events call 0 (Z.to_nat retries))))
           = FileSyncer.backoff_events call 0 (Z.to_nat retries) ++ [call]).
  { apply new_events_app. simpl. now rewrite <- app_assoc. }
  rewrite Hev.
  destruct (backoff_events_delay call (Z.to_nat retries) Hsv 0%nat) as [Hd Hc].
  split; [reflexivity|]. split; [reflexivity|]. split.
  - rewrite save_calls_app, Hc, save_calls_cons, Hsv. unfold save_calls. simpl. lia.
  - rewrite total_delay_app, Hd, total_delay_cons, (save_no_delay _ Hsv).
    unfold total_delay. simpl. lia.
Qed.

(** C2: [sync_file] makes at most [retries + 1] attempts with one save
    call each.  Whatever the save endpoint does at an attempt, a status
    other than 200, a code other than 0 or an error before any answer, the
    save call raises, and [sync_file] treats all these failures alike: the
    actions of a run are the save calls of the failed attempts, the one
    numbered [n] (from 1) followed by a wait of [n * 2] seconds, and then one
    last save call that nothing follows.  That last call is the first one
    answered with status 200 and code 0, whose body is returned, or the
    attempt numbered [retries + 1], after which [sync_file] raises.  The
    waits add up to [2 + 4 + ... + 2 * failed] seconds. *)
Theorem sync_file_backoff (responses : nat -> ApiClient.Response)
    (share_id file_id : option string) (target_folder_id : string)
    (share_pwd : option string) (retries : Z) (file_path : option string)
    (preserve_path : bool) (file_info : option FileInfo) (duplicate : Z)
    (env : Env) :
  let backend := fun n => ApiClient.save_shared_file (responses n) in
  let res := FileSyncer.sync_file backend share_id file_id target_folder_id
               share_pwd retries file_path preserve_path file_info duplicate env in
  let call := FileSyncer.save_call target_folder_id share_pwd file_path
                preserve_path file_info duplicate
                (default "" share_id) (default "" file_id) in
  let events := new_events env (snd res) in
  truthy file_id = true -> truthy share_id = true ->
  0 <= retries ->
  (save_calls events <= Z.to_nat (retries + 1))%nat /\
  exists failed : nat,
    Z.of_nat failed <= retries /\
    (* the failed attempts, of either kind, each followed by its wait *)
    (forall i, (i < failed)%nat ->
       responses (calls env + i)%nat <> ApiClient.Answer 200 (Some 0)) /\
    events =
      concat (List.map (fun i => [call; Sleep ((Z.of_nat i + 1) * 2)])
                       (seq 0 failed)) ++ [call] /\
    save_calls events = S failed /\
    total_delay events = Z.of_nat failed * (Z.of_nat failed + 1) /\
    (* the last attempt *)
    match fst res with
    | FileSyncer.Synced result =>
        responses (calls env + failed)%nat = ApiClient.Answer 200 (Some 0) /\
        result = Some (mkSaveResult (Some 0))
    | FileSyncer.SyncFailed =>
        Z.of_nat failed = retries /\
        responses (calls env + failed)%nat <> ApiClient.Answer 200 (Some 0)
    | FileSyncer.ValueError => False
    end.
Proof.
  intros backend res call events Hf Hs Hret.
  assert (Hfailing : forall n,
            FileSyncer.answer_ok (backend n) = false ->
            responses n <> ApiClient.Answer 200 (Some 0) /\
            exists e, backend n = Raises e).
  { intros n Hn. unfold backend in *.
    destruct (save_shared_file_cases (responses n)) as [(_ & _ & Hok)|(Hne & He & _)];
      [congruence | auto]. }
  destruct (first_success
              (fun i => FileSyncer.answer_ok (backend (calls env + i)%nat))
              (Z.to_nat (retries + 1)))
    as [(k & Hk & Hok & Hbefore)|Hnone].
  - assert (Hres : backend (calls env + k)%nat = Returns (Some (mkSaveResult (Some 0)))
                   /\ responses (calls env + k)%nat = ApiClient.Answer 200 (Some 0)).
    { unfold backend in *.
      destruct (save_shared_file_cases (responses (calls env + k)%nat))
        as [(Hr & Hv & _)|(_ & _ & Hno)]; [auto | congruence]. }
    destruct Hres as [Hret_k Hresp_k].
    destruct (sync_file_raise_backoff backend share_id file_id target_folder_id
                share_pwd retries file_path preserve_path file_info duplicate
                k (Some (mkSaveResult (Some 0))) env Hf Hs ltac:(lia))
      as (Hfst & Hev & Hcalls & Hdelay);
      [intros i Hi; now apply Hfailing, Hbefore | exact Hret_k | reflexivity |].
    fold res in Hfst, Hev, Hcalls, Hdelay. fold call in Hev. fold events in Hev, Hcalls, Hdelay.
    split; [lia|]. exists k. split; [lia|].
    split; [intros i Hi; now apply Hfailing, Hbefore|].
    split; [exact Hev|]. split; [exact Hcalls|]. split; [exact Hdelay|].
    rewrite Hfst. auto.
  - destruct (sync_file_raise_exhausted backend share_id file_id target_folder_id
                share_pwd retries file_path preserve_path file_info duplicate
                env Hf Hs Hret)
      as (Hfst & Hev & Hcalls & Hdelay);
      [intros i Hi; now apply Hfailing, Hnone|].
    fold res in Hfst, Hev, Hcalls, Hdelay. fold call in Hev. fold events in Hev, Hcalls, Hdelay.
    split; [lia|]. exists (Z.to_nat retries). split; [lia|].
    split; [intros i Hi; apply Hfailing, Hnone; lia|].
    split; [exact Hev|]. split; [exact Hcalls|].
    split; [rewrite Hdelay; lia|].
    rewrite Hfst. split; [lia|]. apply Hfailing, Hnone. lia.
Qed.

(** With a budget of two retries and an endpoint that answers with code 1,
    then fails to answer, then answers with code 0: success after exactly
    three save calls and waits of 2 and 4 seconds. *)
Lemma sync_file_backoff_witness :
  let res := FileSyncer.sync_file
               (fun n => ApiClient.save_shared_file (Samples.fails_twice n))
               (Some "share") (Some "f1") "0" None 2 (Some "docs/b.txt") true
               None 2 Samples.env0 in
  fst res = FileSyncer.Synced Samples.ok_result /\
  save_calls (new_events Samples.env0 (snd res)) = 3%nat /\
  total_delay (new_events Samples.env0 (snd res)) = 2 + 4.
Proof.
  intros res.
  assert (Hfst : fst res = FileSyncer.Synced Samples.ok_result)
    by (vm_compute; reflexivity).
  destruct (sync_file_backoff Samples.fails_twice (Some "share") (Some "f1")
              "0" None 2 (Some "docs/b.txt") true None 2 Samples.env0
              eq_refl eq_refl ltac:(lia))
    as (_ & failed & Hle & _ & _ & Hcalls & Hdelay & Hlast).
  fold res in Hcalls, Hdelay, Hlast. rewrite Hfst in Hlast.
  destruct Hlast as [Hresp _].
  assert (Hfailed : failed = 2%nat).
  { destruct failed as [|[|[|n]]]; try discriminate Hresp; [reflexivity | lia]. }
  subst failed. split; [exact Hfst|]. split; [exact Hcalls | exact Hdelay].
Defined.

(** ** File names sent to the save API *)

Lemma replace_chars_filter (cs : ApiClient.str) (s : ApiClient.str) :
  fold_left (fun f char => ApiClient.replace_char char f) cs s =
  List.filter (fun x => negb (existsb (N.eqb x) cs)) s.
Proof.
  revert s. induction cs as [|c cs IH]; intros s; simpl.
  - induction s as [|x s IHs]; simpl; [reflexivity | now rewrite <- IHs].
  - rewrite IH. unfold ApiClient.replace_char.
    induction s as [|x s IHs]; simpl; [reflexivity|].
    destruct (N.eqb x c); simpl; [exact IHs|].
    destruct (existsb (N.eqb x) cs); simpl; [exact IHs | now rewrite IHs].
Qed.

Lemma strip_invalid_filter (contain_dir : bool) (filename : ApiClient.str) :
  ApiClient.strip_invalid contain_dir filename =
  List.filter (ApiClient.allowed contain_dir) filename.
Proof. unfold ApiClient.strip_invalid. apply replace_chars_filter. Qed.

Lemma allowed_spec (contain_dir : bool) (x : N) :
  ApiClient.allowed contain_dir x = true <->
  ~ In x (ApiClient.invalid_chars contain_dir).
Proof.
  unfold ApiClient.allowed.
  set (bad := ApiClient.invalid_chars contain_dir).
  rewrite negb_true_iff. split.
  - intros Hf Hin. assert (Ht : existsb (N.eqb x) bad = true).
    { apply existsb_exists. exists x. split; [exact Hin | apply N.eqb_refl]. }
    congruence.
  - intros Hn. destruct (existsb (N.eqb x) bad) eqn:E; [|reflexivity].
    apply existsb_exists in E as (y & Hy & Heq).
    apply N.eqb_eq in Heq. subst y. contradiction.
Qed.

Lemma strip_invalid_allowed (contain_dir : bool) (filename : ApiClient.str) :
  Forall (fun x => ~ In x (ApiClient.invalid_chars contain_dir))
         (ApiClient.strip_invalid contain_dir filename).
Proof.
  rewrite strip_invalid_filter. apply List.Forall_forall. intros x Hin.
  apply List.filter_In in Hin as [_ Hx]. now apply allowed_spec.
Qed.

(** X6: stripping the invalid characters keeps exactly the allowed
    characters of the name, in their order: the result contains no invalid
    character, and a name is left as it is exactly when it contains none. *)
Theorem strip_invalid_is_filter (contain_dir : bool) (filename : ApiClient.str) :
  ApiClient.strip_invalid contain_dir filename =
    List.filter (fun x => negb (existsb (N.eqb x)
                                  (ApiClient.invalid_chars contain_dir)))
                filename /\
  Forall (fun x => ~ In x (ApiClient.invalid_chars contain_dir))
         (ApiClient.strip_invalid contain_dir filename) /\
  (Forall (fun x => ~ In x (ApiClient.invalid_chars contain_dir)) filename <->
   ApiClient.strip_invalid contain_dir filename = filename).
Proof.
  split; [apply strip_invalid_filter|]. split; [apply strip_invalid_allowed|].
  split.
  - intros Hall. rewrite strip_invalid_filter.
    induction filename as [|x s IH]; simpl; [reflexivity|].
    apply Forall_cons in Hall as [Hx Hs].
    apply allowed_spec in Hx. rewrite Hx. now rewrite IH.
  - intros Heq. rewrite <- Heq. apply strip_invalid_allowed.
Qed.

Lemma splitext_app (p : ApiClient.str) :
  fst (ApiClient.splitext p) ++ snd (ApiClient.splitext p) = p.
Proof.
  unfold ApiClient.splitext.
  destruct (Z.ltb _ _); [|simpl; apply app_nil_r].
  destruct (existsb _ _); [|simpl; apply app_nil_r].
  simpl. unfold ApiClient.slice_to, ApiClient.slice_from. apply take_drop.
Qed.

Lemma strip_invalid_length (contain_dir : bool) (filename : ApiClient.str) :
  (length (ApiClient.strip_invalid contain_dir filename) <= length filename)%nat.
Proof. rewrite strip_invalid_filter. apply List.filter_length_le. Qed.

Lemma slice_to_length (n : Z) (s : ApiClient.str) :
  (length (ApiClient.slice_to n s) <= length s)%nat /\
  (0 <= n -> (Z.to_nat n <= length s)%nat ->
   length (ApiClient.slice_to n s) = Z.to_nat n).
Proof.
  unfold ApiClient.slice_to. rewrite length_take. split; [lia|].
  intros Hn Hle. destruct (Z.ltb_spec n 0); lia.
Qed.

Lemma slice_to_In (n : Z) (s : ApiClient.str) (x : N) :
  In x (ApiClient.slice_to n s) -> In x s.
Proof.
  unfold ApiClient.slice_to. rewrite <- !list_elem_of_In.
  apply subseteq_take.
Qed.

(** X7: cleaning never makes a name longer; and when the extension of the
    stripped name has at most 256 characters, the cleaned name has at most
    256 characters, exactly 256 when something had to be cut, and still ends
    with that extension. *)
Theorem clean_filename_length (contain_dir : bool) (filename : ApiClient.str) :
  let stripped := ApiClient.strip_invalid contain_dir filename in
  let ext := snd (ApiClient.splitext stripped) in
  (length ext <= 256)%nat ->
  (length (ApiClient.clean_filename contain_dir filename) <= 256)%nat /\
  (length (ApiClient.clean_filename contain_dir filename) <= length filename)%nat /\
  (if Nat.ltb 256 (length stripped)
   then length (ApiClient.clean_filename contain_dir filename) = 256%nat /\
        exists kept, ApiClient.clean_filename contain_dir filename = kept ++ ext /\
                     kept `prefix_of` stripped
   else ApiClient.clean_filename contain_dir filename = stripped).
Proof.
  intros stripped ext Hext. unfold ApiClient.clean_filename. fold stripped.
  pose proof (splitext_app stripped) as Happ.
  pose proof (strip_invalid_length contain_dir filename) as Hlen.
  fold stripped in Hlen.
  destruct (ApiClient.splitext stripped) as [name_part ext_part] eqn:Hsplit.
  simpl in Happ. subst ext. simpl in Hext.
  destruct (Nat.ltb_spec 256 (length stripped)) as [Hlong|Hshort].
  - assert (Hl : length stripped = (length name_part + length ext_part)%nat)
      by (rewrite <- Happ; apply length_app).
    destruct (slice_to_length (256 - Z.of_nat (length ext_part)) name_part)
      as [_ Hexact].
    rewrite length_app, Hexact by lia.
    split; [lia|]. split; [lia|]. split; [lia|].
    exists (ApiClient.slice_to (256 - Z.of_nat (length ext_part)) name_part).
    split; [reflexivity|].
    unfold ApiClient.slice_to. rewrite <- Happ.
    apply prefix_app_r, prefix_take.
  - split; [lia|]. split; [exact Hlen | reflexivity].
Qed.

(** A name that is cut down to 256 characters. *)
Lemma clean_filename_length_witness :
  (length (ApiClient.clean_filename false Samples.long_name) <= 256)%nat.
Proof.
  exact (proj1 (clean_filename_length false Samples.long_name
                  ltac:(vm_compute; lia))).
Defined.

(** Lengths are counted in characters, not in bytes: a name of 90
    characters outside ASCII with its extension (94 characters, 274 bytes in
    UTF-8) is not cut, and one of 300 such characters is cut to 256
    characters. *)
Example clean_filename_counts_characters :
  ApiClient.clean_filename false (Samples.wide_name 90) = Samples.wide_name 90 /\
  ApiClient.clean_filename false (Samples.wide_name 300) = Samples.wide_name 252.
Proof. vm_compute. split; reflexivity. Qed.

(** The cut is computed from the length of the extension: a name whose
    extension alone is longer than 256 characters stays longer than 256. *)
Example clean_filename_long_extension :
  length (ApiClient.clean_filename false Samples.long_extension) = 301%nat.
Proof. vm_compute. reflexivity. Qed.

Lemma clean_filename_allowed (contain_dir : bool) (filename : ApiClient.str) :
  Forall (fun x => ~ In x (ApiClient.invalid_chars contain_dir))
         (ApiClient.clean_filename contain_dir filename).
Proof.
  unfold ApiClient.clean_filename.
  pose proof (strip_invalid_allowed contain_dir filename) as Hall.
  set (stripped := ApiClient.strip_invalid contain_dir filename) in *.
  destruct (Nat.ltb 256 (length stripped)); [|exact Hall].
  pose proof (splitext_app stripped) as Happ.
  destruct (ApiClient.splitext stripped) as [name_part ext_part].
  simpl in Happ. rewrite <- Happ in Hall.
  apply Forall_app in Hall as [Hname Hext].
  apply Forall_app. split; [|exact Hext].
  apply List.Forall_forall. intros x Hin. apply slice_to_In in Hin.
  rewrite List.Forall_forall in Hname. now apply Hname.
Qed.

(** X8: the file name put into the request is the cleaned name when that
    is not empty, and then contains no invalid character (so no slash when
    directories are not kept); otherwise it is the file identifier.  It is
    empty only if the identifier is. *)
Theorem request_filename_cases (file_id : ApiClient.str)
    (filename : option ApiClient.str) (contain_dir : bool) :
  let sent := ApiClient.request_filename file_id filename contain_dir in
  (sent = file_id \/
   exists given, filename = Some given /\ given <> [] /\
                 sent = ApiClient.clean_filename contain_dir given /\
                 Forall (fun x => ~ In x (ApiClient.invalid_chars contain_dir)) sent /\
                 (contain_dir = false -> ~ In (ApiClient.chr "/") sent)) /\
  (filename = None -> sent = file_id) /\
  (sent = [] -> file_id = []).
Proof.
  unfold ApiClient.request_filename. cbv zeta.
  destruct filename as [[|c f]|]; simpl.
  - auto.
  - destruct (ApiClient.clean_filename contain_dir (c :: f)) as [|c' f'] eqn:Hclean.
    + auto.
    + split; [|split; [discriminate | discriminate]].
      right. exists (c :: f). split; [reflexivity|]. split; [discriminate|].
      split; [now rewrite Hclean|].
      pose proof (clean_filename_allowed contain_dir (c :: f)) as Hall.
      rewrite Hclean in Hall. split; [exact Hall|].
      intros -> Hin. rewrite List.Forall_forall in Hall.
      apply (Hall _ Hin). apply in_or_app. right. now left.
  - auto.
Qed.

(** ** Share links *)

Lemma append_cons (c : ascii) (a b : string) :
  (String c a ++ b)%string = String c (a ++ b)%string.
Proof. reflexivity. Qed.

Lemma append_assoc (a b c : string) :
  ((a ++ b) ++ c)%string = (a ++ b ++ c)%string.
Proof.
  induction a as [|x a IH]; [reflexivity|].
  rewrite !append_cons. now rewrite IH.
Qed.

Lemma append_nil_r (a : string) : (a ++ "")%string = a.
Proof.
  induction a as [|x a IH]; [reflexivity|]. rewrite append_cons. now rewrite IH.
Qed.

Lemma strip_prefix_Some (pre s r : string) :
  ShareHandler.strip_prefix pre s = Some r -> s = (pre ++ r)%string.
Proof.
  revert s. induction pre as [|c pre IH]; intros s; simpl.
  - now intros [= ->].
  - destruct s as [|d s]; [discriminate|].
    destruct (Ascii.eqb_spec c d) as [->|]; [|discriminate].
    intros H. rewrite append_cons. now rewrite (IH s H).
Qed.

Lemma strip_prefix_app (pre s : string) :
  ShareHandler.strip_prefix pre (pre ++ s)%string = Some s.
Proof.
  induction pre as [|c pre IH]; [reflexivity|].
  rewrite append_cons. simpl. now rewrite Ascii.eqb_refl.
Qed.

Lemma take_drop_while (p : ascii -> bool) (s : string) :
  s = (ShareHandler.take_while p s ++ ShareHandler.drop_while p s)%string.
Proof.
  induction s as [|c s IH]; [reflexivity|]. simpl.
  destruct (p c); [|reflexivity]. rewrite append_cons. now rewrite <- IH.
Qed.

Lemma take_while_all (p : ascii -> bool) (s : string) :
  ShareHandler.all_chars p (ShareHandler.take_while p s) = true.
Proof.
  induction s as [|c s IH]; [reflexivity|]. simpl.
  destruct (p c) eqn:Hc; [|reflexivity]. simpl. now rewrite Hc.
Qed.

Lemma drop_while_head (p : ascii -> bool) (s : string) :
  ShareHandler.drop_while p s = "" \/
  exists c s', ShareHandler.drop_while p s = String c s' /\ p c = false.
Proof.
  induction s as [|c s IH]; [now left|]. simpl.
  destruct (p c) eqn:Hc; [exact IH|]. right. eauto.
Qed.

Lemma take_while_app (p : ascii -> bool) (a b : string) :
  ShareHandler.all_chars p a = true ->
  (b = "" \/ exists c b', b = String c b' /\ p c = false) ->
  ShareHandler.take_while p (a ++ b)%string = a /\
  ShareHandler.drop_while p (a ++ b)%string = b.
Proof.
  intros Ha Hb. induction a as [|x a IH].
  - simpl. destruct Hb as [->|(c & b' & -> & Hc)]; [auto|].
    simpl. now rewrite Hc.
  - simpl in Ha. apply andb_true_iff in Ha as [Hx Ha].
    rewrite append_cons. simpl. rewrite Hx.
    destruct (IH Ha) as [-> ->]. auto.
Qed.

Lemma all_chars_app (p : ascii -> bool) (a b : string) :
  ShareHandler.all_chars p (a ++ b)%string =
  ShareHandler.all_chars p a && ShareHandler.all_chars p b.
Proof.
  induction a as [|x a IH]; [reflexivity|].
  rewrite append_cons. simpl. now rewrite IH, andb_assoc.
Qed.

Lemma search_hit {A : Type} (m : string -> option A) (s : string) (x : A) :
  m s = Some x -> ShareHandler.search m s = Some x.
Proof. intros H. destruct s; simpl; now rewrite H. Qed.

Lemma search_Some {A : Type} (m : string -> option A) (s : string) (x : A) :
  ShareHandler.search m s = Some x ->
  exists pre t, s = (pre ++ t)%string /\ m t = Some x.
Proof.
  induction s as [|c s IH]; simpl.
  - destruct (m "") eqn:H; [|discriminate]. intros [= ->]. now exists "", "".
  - destruct (m (String c s)) eqn:H.
    + intros [= ->]. now exists "", (String c s).
    + intros Hs. destruct (IH Hs) as (pre & t & -> & Ht).
      now exists (String c pre), t.
Qed.

Lemma search_fmap {A B : Type} (f : A -> B) (m : string -> option A) (s : string) :
  ShareHandler.search (fun t => f <$> m t) s = f <$> ShareHandler.search m s.
Proof.
  induction s as [|c s IH]; simpl.
  - destruct (m ""); reflexivity.
  - destruct (m (String c s)); [reflexivity | exact IH].
Qed.

Lemma match_pwd_at_sound (s p : string) :
  ShareHandler.match_pwd_at s = Some p ->
  p <> "" /\ ShareHandler.all_chars ShareHandler.not_amp_hash p = true /\
  exists rest, s = ("pwd=" ++ p ++ rest)%string /\
               (rest = "" \/ exists c r, rest = String c r /\
                               ShareHandler.not_amp_hash c = false).
Proof.
  unfold ShareHandler.match_pwd_at.
  destruct (ShareHandler.strip_prefix "pwd=" s) as [r|] eqn:Hr; [|discriminate].
  destruct (String.eqb_spec (ShareHandler.take_while ShareHandler.not_amp_hash r) "")
    as [|Hne]; [discriminate|].
  intros [= <-]. split; [exact Hne|]. split; [apply take_while_all|].
  exists (ShareHandler.drop_while ShareHandler.not_amp_hash r). split.
  - rewrite <- take_drop_while. now apply strip_prefix_Some.
  - apply drop_while_head.
Qed.

Lemma match_link_at_sound (s host key : string) :
  ShareHandler.match_link_at s = Some (host, key) ->
  host <> "" /\ ShareHandler.all_chars ShareHandler.not_slash host = true /\
  key <> "" /\ ShareHandler.all_chars ShareHandler.not_query_slash key = true /\
  exists scheme rest,
    (scheme = "http" \/ scheme = "https") /\
    s = (scheme ++ "://" ++ host ++ "/s/" ++ key ++ rest)%string /\
    (rest = "" \/ exists c r, rest = String c r /\
                    ShareHandler.not_query_slash c = false).
Proof.
  unfold ShareHandler.match_link_at.
  destruct (ShareHandler.strip_prefix "http" s) as [r|] eqn:Hr; [|discriminate].
  apply strip_prefix_Some in Hr.
  assert (Hscheme : forall r1,
            match ShareHandler.strip_prefix "s://" r with
            | Some r' => Some r'
            | None => ShareHandler.strip_prefix "://" r
            end = Some r1 ->
            exists scheme, (scheme = "http" \/ scheme = "https") /\
                           s = (scheme ++ "://" ++ r1)%string).
  { intros r1. destruct (ShareHandler.strip_prefix "s://" r) as [r'|] eqn:Hs.
    - intros [= ->]. apply strip_prefix_Some in Hs. subst r s.
      exists "https". auto.
    - intros H. apply strip_prefix_Some in H. subst r s. exists "http". auto. }
  destruct (match ShareHandler.strip_prefix "s://" r with
            | Some r' => Some r'
            | None => ShareHandler.strip_prefix "://" r
            end) as [r1|]; [|discriminate].
  destruct (Hscheme r1 eq_refl) as (scheme & Hsch & Hs).
  destruct (String.eqb_spec (ShareHandler.take_while ShareHandler.not_slash r1) "")
    as [|Hhost]; [discriminate|].
  destruct (ShareHandler.strip_prefix "/s/"
              (ShareHandler.drop_while ShareHandler.not_slash r1)) as [r2|] eqn:Hr2;
    [|discriminate].
  apply strip_prefix_Some in Hr2.
  destruct (String.eqb_spec
              (ShareHandler.take_while ShareHandler.not_query_slash r2) "")
    as [|Hkey]; [discriminate|].
  intros [= <- <-].
  split; [exact Hhost|]. split; [apply take_while_all|].
  split; [exact Hkey|]. split; [apply take_while_all|].
  exists scheme, (ShareHandler.drop_while ShareHandler.not_query_slash r2).
  split; [exact Hsch|]. split; [|apply drop_while_head].
  rewrite <- take_drop_while, <- Hr2, <- take_drop_while. exact Hs.
Qed.

Example parse_share_link_sample :
  ShareHandler.parse_share_link "see https://www.123865.com/s/k1-x?from=a&pwd=abcd#top"
  = Some ("k1-x", Some "abcd", "www.123865.com").
Proof. reflexivity. Qed.

Example parse_share_link_rejects :
  ShareHandler.parse_share_link "https://www.123865.com/folder/k1-x" = None.
Proof. reflexivity. Qed.

(** X9: whatever [parse_share_link] extracts is really in the address and
    is never empty: the host has no slash, the share key no question mark or
    slash, the extraction code no ampersand or hash and it ends where the
    address ends or one of these follows; so the secret resolved from a
    parsed link is never the empty string. *)
Theorem parse_share_link_sound (share_url share_key host : string)
    (link_pwd : option string) :
  ShareHandler.parse_share_link share_url = Some (share_key, link_pwd, host) ->
  (host <> "" /\ ShareHandler.all_chars ShareHandler.not_slash host = true) /\
  (share_key <> "" /\
   ShareHandler.all_chars ShareHandler.not_query_slash share_key = true) /\
  (exists before scheme rest,
     (scheme = "http" \/ scheme = "https") /\
     share_url = (before ++ scheme ++ "://" ++ host ++ "/s/" ++ share_key
                  ++ rest)%string) /\
  match link_pwd with
  | Some p =>
      p <> "" /\ ShareHandler.all_chars ShareHandler.not_amp_hash p = true /\
      exists before rest,
        share_url = (before ++ "pwd=" ++ p ++ rest)%string /\
        (rest = "" \/ exists c r, rest = String c r /\
                        ShareHandler.not_amp_hash c = false)
  | None => True
  end /\
  (forall user_password,
     Monitor.final_password user_password link_pwd <> Some "").
Proof.
  unfold ShareHandler.parse_share_link.
  destruct (ShareHandler.search ShareHandler.match_link_at share_url)
    as [[h k]|] eqn:Hlink; [|discriminate].
  intros [= -> <- ->].
  apply search_Some in Hlink as (before & t & Hurl & Hm).
  apply match_link_at_sound in Hm
    as (Hh1 & Hh2 & Hk1 & Hk2 & scheme & rest & Hsch & Ht & _).
  split; [auto|]. split; [auto|]. split.
  { exists before, scheme, rest. split; [exact Hsch|]. now rewrite Hurl, Ht. }
  assert (Hpwd : match ShareHandler.search ShareHandler.match_pwd_at share_url with
                 | Some p => p <> ""
                 | None => True
                 end).
  { destruct (ShareHandler.search ShareHandler.match_pwd_at share_url) as [p|] eqn:Hp;
      [|exact I].
    apply search_Some in Hp as (b & t' & _ & Hm').
    now apply match_pwd_at_sound in Hm' as (Hne & _). }
  split.
  - destruct (ShareHandler.search ShareHandler.match_pwd_at share_url) as [p|] eqn:Hp;
      [|exact I].
    apply search_Some in Hp as (b & t' & Hurl' & Hm').
    apply match_pwd_at_sound in Hm' as (Hne & Hall & rest' & Ht' & Hrest).
    split; [exact Hne|]. split; [exact Hall|].
    exists b, rest'. split; [now rewrite Hurl', Ht' | exact Hrest].
  - intros user. unfold Monitor.final_password.
    destruct user as [[|c u]|]; simpl.
    + destruct (ShareHandler.search ShareHandler.match_pwd_at share_url);
        [congruence | discriminate].
    + discriminate.
    + destruct (ShareHandler.search ShareHandler.match_pwd_at share_url);
        [congruence | discriminate].
Qed.

(** The address of the sample share. *)
Lemma parse_share_link_sound_witness :
  Monitor.final_password (Some "") (Some "abcd") <> Some "".
Proof.
  pose proof (parse_share_link_sound (Monitor.url Samples.share) "k1-x"
                "www.123865.com" (Some "abcd") eq_refl) as (_ & _ & _ & _ & H).
  exact (H (Some "")).
Defined.

Lemma strip_pwd_fourth (s r : string) :
  ShareHandler.strip_prefix "pwd=" s = Some r ->
  exists a b c, s = String a (String b (String c (String "=" r))).
Proof.
  intros H. apply strip_prefix_Some in H. subst s.
  now exists "p"%char, "w"%char, "d"%char.
Qed.

Lemma not_equals_eq : ShareHandler.not_equals "=" = false.
Proof. reflexivity. Qed.

Lemma match_pwd_at_before (pre x : string) :
  pre <> "" ->
  ShareHandler.all_chars ShareHandler.not_equals pre = true ->
  ShareHandler.match_pwd_at (pre ++ "pwd=" ++ x)%string = None.
Proof.
  intros Hne Hall. unfold ShareHandler.match_pwd_at.
  destruct (ShareHandler.strip_prefix "pwd=" (pre ++ "pwd=" ++ x)%string)
    as [r|] eqn:H; [exfalso|reflexivity].
  apply strip_prefix_Some in H.
  destruct pre as [|a [|b [|c [|d pre]]]]; [congruence| | | |];
    rewrite ?append_cons in H; try (simpl in H; discriminate H).
  injection H as _ _ _ Hd _. subst d.
  cbn [ShareHandler.all_chars] in Hall. rewrite not_equals_eq in Hall.
  rewrite !andb_true_iff in Hall. destruct Hall as (_ & _ & _ & Hd & _).
  discriminate Hd.
Qed.

Lemma search_pwd_skip (pre x : string) :
  ShareHandler.all_chars ShareHandler.not_equals pre = true ->
  ShareHandler.search ShareHandler.match_pwd_at (pre ++ "pwd=" ++ x)%string =
  ShareHandler.search ShareHandler.match_pwd_at ("pwd=" ++ x)%string.
Proof.
  induction pre as [|c pre IH]; intros Hall; [reflexivity|].
  rewrite append_cons.
  change (ShareHandler.search ShareHandler.match_pwd_at
            (String c (pre ++ "pwd=" ++ x)))
    with (match ShareHandler.match_pwd_at (String c (pre ++ "pwd=" ++ x)) with
          | Some p => Some p
          | None => ShareHandler.search ShareHandler.match_pwd_at
                      (pre ++ "pwd=" ++ x)%string
          end).
  rewrite <- append_cons, (match_pwd_at_before (String c pre) x); [|discriminate|exact Hall].
  simpl in Hall. apply andb_true_iff in Hall as [_ Hall]. now apply IH.
Qed.

Lemma match_pwd_at_no_equals (s : string) :
  ShareHandler.all_chars ShareHandler.not_equals s = true ->
  ShareHandler.match_pwd_at s = None.
Proof.
  intros Hall. unfold ShareHandler.match_pwd_at.
  destruct (ShareHandler.strip_prefix "pwd=" s) as [r|] eqn:H;
    [exfalso|reflexivity].
  apply strip_pwd_fourth in H as (a & b & c & ->).
  cbn [ShareHandler.all_chars] in Hall. rewrite not_equals_eq in Hall.
  rewrite !andb_true_iff in Hall. destruct Hall as (_ & _ & _ & Hd & _).
  discriminate Hd.
Qed.

Lemma search_pwd_no_equals (s : string) :
  ShareHandler.all_chars ShareHandler.not_equals s = true ->
  ShareHandler.search ShareHandler.match_pwd_at s = None.
Proof.
  induction s as [|c s IH]; intros Hall.
  - reflexivity.
  - simpl. rewrite (match_pwd_at_no_equals _ Hall).
    simpl in Hall. apply andb_true_iff in Hall as [_ Hall]. now apply IH.
Qed.

Lemma string_eqb_nonempty (s : string) : s <> "" -> String.eqb s "" = false.
Proof. intros H. destruct s; [congruence | reflexivity]. Qed.

Lemma take_while_id (p : ascii -> bool) (s : string) :
  ShareHandler.all_chars p s = true -> ShareHandler.take_while p s = s.
Proof.
  intros H. destruct (take_while_app p s "" H (or_introl eq_refl)) as [Ht _].
  now rewrite append_nil_r in Ht.
Qed.

(** The scheme of an address, [https] or [http]. *)
Lemma match_link_at_complete (secure : bool) (host key rest : string) :
  host <> "" -> ShareHandler.all_chars ShareHandler.not_slash host = true ->
  key <> "" -> ShareHandler.all_chars ShareHandler.not_query_slash key = true ->
  (rest = "" \/ exists c r, rest = String c r /\
                  ShareHandler.not_query_slash c = false) ->
  ShareHandler.match_link_at
    ((if secure then "https://" else "http://") ++ host ++ "/s/" ++ key ++ rest)%string
  = Some (host, key).
Proof.
  intros Hh Hhs Hk Hks Hrest.
  destruct (take_while_app ShareHandler.not_slash host ("/s/" ++ key ++ rest)%string Hhs)
    as [Ht Hd].
  { right. now exists "/"%char, ("s/" ++ key ++ rest)%string. }
  destruct (take_while_app ShareHandler.not_query_slash key rest Hks Hrest)
    as [Ht' _].
  unfold ShareHandler.match_link_at.
  assert (Hscheme :
    match ShareHandler.strip_prefix "http"
            ((if secure then "https://" else "http://") ++ host ++ "/s/" ++ key ++ rest)%string with
    | Some r =>
        match ShareHandler.strip_prefix "s://" r with
        | Some r' => Some r'
        | None => ShareHandler.strip_prefix "://" r
        end
    | None => None
    end = Some (host ++ "/s/" ++ key ++ rest)%string).
  { destruct secure; reflexivity. }
  destruct (ShareHandler.strip_prefix "http" _) as [r|]; [|discriminate].
  cbv zeta. rewrite Hscheme, Ht, Hd, (string_eqb_nonempty _ Hh).
  rewrite (strip_prefix_app "/s/"), Ht', (string_eqb_nonempty _ Hk).
  reflexivity.
Qed.

(** X10: an address written in the canonical form
    [scheme://host/s/key?pwd=code] is read back exactly: [parse_share_link]
    returns the key, the code and the host it was built from, and without
    the query part it returns no code. The host and the key must not contain
    the delimiters of the pattern nor an equals sign. *)
Theorem parse_share_link_roundtrip (secure : bool) (host key code : string) :
  host <> "" -> key <> "" -> code <> "" ->
  ShareHandler.all_chars ShareHandler.not_slash host = true ->
  ShareHandler.all_chars ShareHandler.not_equals host = true ->
  ShareHandler.all_chars ShareHandler.not_query_slash key = true ->
  ShareHandler.all_chars ShareHandler.not_equals key = true ->
  ShareHandler.all_chars ShareHandler.not_amp_hash code = true ->
  let scheme := if secure then "https://" else "http://" in
  ShareHandler.parse_share_link
    (scheme ++ host ++ "/s/" ++ key ++ "?pwd=" ++ code)%string
  = Some (key, Some code, host) /\
  ShareHandler.parse_share_link (scheme ++ host ++ "/s/" ++ key)%string
  = Some (key, None, host).
Proof.
  intros Hh Hk Hc Hhs Hhe Hks Hke Hca scheme.
  assert (Hse : ShareHandler.all_chars ShareHandler.not_equals scheme = true)
    by (subst scheme; destruct secure; reflexivity).
  unfold ShareHandler.parse_share_link. split.
  - rewrite (search_hit _ _ (host, key)).
    2:{ apply (match_link_at_complete secure host key ("?pwd=" ++ code)%string);
        auto. right. now exists "?"%char, ("pwd=" ++ code)%string. }
    do 2 f_equal.
    change (scheme ++ host ++ "/s/" ++ key ++ "?pwd=" ++ code)%string
      with (scheme ++ host ++ "/s/" ++ key ++ "?" ++ "pwd=" ++ code)%string.
    rewrite <- (append_assoc key), <- (append_assoc "/s/"),
      <- (append_assoc host), <- (append_assoc scheme).
    rewrite search_pwd_skip.
    + f_equal. apply search_hit. unfold ShareHandler.match_pwd_at.
      rewrite strip_prefix_app. cbv zeta.
      now rewrite (take_while_id _ _ Hca), (string_eqb_nonempty _ Hc).
    + rewrite !all_chars_app, Hse, Hhe, Hke. reflexivity.
  - rewrite (search_hit _ _ (host, key)).
    2:{ pose proof (match_link_at_complete secure host key "" Hh Hhs Hk Hks
                      (or_introl eq_refl)) as H.
        now rewrite append_nil_r in H. }
    do 3 f_equal. apply search_pwd_no_equals.
    rewrite !all_chars_app, Hse, Hhe, Hke. reflexivity.
Qed.

Lemma parse_share_link_roundtrip_witness :
  ShareHandler.parse_share_link "http://www.123865.com/s/k1-x?pwd=abcd"
  = Some ("k1-x", Some "abcd", "www.123865.com").
Proof.
  pose proof (parse_share_link_roundtrip false "www.123865.com" "k1-x" "abcd")
    as H.
  apply H; solve [discriminate | reflexivity].
Defined.

(** ** The console's clean-up against the monitor's key *)

Lemma search_ext {A : Type} (m m' : string -> option A) (s : string) :
  (forall t, m t = m' t) ->
  ShareHandler.search m s = ShareHandler.search m' s.
Proof.
  intros H. induction s as [|c s IH]; simpl; rewrite H; [reflexivity|].
  now rewrite IH.
Qed.

Lemma match_share_id_at_link (s : string) :
  App.match_share_id_at s = snd <$> ShareHandler.match_link_at s.
Proof.
  unfold App.match_share_id_at, ShareHandler.match_link_at.
  destruct (ShareHandler.strip_prefix "http" s) as [r|]; [|reflexivity].
  cbv zeta.
  destruct (match ShareHandler.strip_prefix "s://" r with
            | Some r' => Some r'
            | None => ShareHandler.strip_prefix "://" r
            end) as [r1|]; [|reflexivity].
  destruct (String.eqb _ ""); [reflexivity|].
  destruct (ShareHandler.strip_prefix "/s/" _) as [r2|]; [|reflexivity].
  destruct (String.eqb _ ""); reflexivity.
Qed.

Lemma share_key_of_parse (share : Monitor.ShareConfig)
    (share_key host : string) (link_pwd : option string) :
  ShareHandler.parse_share_link (Monitor.url share)
  = Some (share_key, link_pwd, host) ->
  App.share_key_of share =
  Some (Monitor.generate_share_key share_key
          (Monitor.final_password (Monitor.password share) link_pwd)).
Proof.
  unfold ShareHandler.parse_share_link, App.share_key_of.
  cbv zeta.
  replace (ShareHandler.search App.match_share_id_at (Monitor.url share))
    with (snd <$> ShareHandler.search ShareHandler.match_link_at (Monitor.url share)).
  2:{ rewrite <- search_fmap. apply search_ext. intros t.
      now rewrite match_share_id_at_link. }
  destruct (ShareHandler.search ShareHandler.match_link_at (Monitor.url share))
    as [[h k]|]; [|discriminate].
  intros [= -> <- ->]. reflexivity.
Qed.

(** X11: the console's clean-up and the monitor agree on the key of a
    share. The record the monitor keeps for a configured share, under the key
    built from the parsed link and the resolved secret, survives the
    clean-up unchanged; and every record that survives is an unchanged record
    of some configured share whose address matches. *)
Theorem clean_monitor_state_keeps_configured
    (shares : list Monitor.ShareConfig) (monitor_state : gmap string ShareState) :
  (forall share share_key link_pwd host,
     share ∈ shares ->
     ShareHandler.parse_share_link (Monitor.url share)
     = Some (share_key, link_pwd, host) ->
     let key := Monitor.generate_share_key share_key
                  (Monitor.final_password (Monitor.password share) link_pwd) in
     App.clean_monitor_state shares monitor_state !! key = monitor_state !! key) /\
  (forall key record,
     App.clean_monitor_state shares monitor_state !! key = Some record ->
     monitor_state !! key = Some record /\
     exists share, share ∈ shares /\ App.share_key_of share = Some key).
Proof.
  split.
  - intros share share_key link_pwd host Hin Hparse key.
    unfold App.clean_monitor_state.
    assert (Hkey : key ∈ App.current_share_keys shares).
    { unfold App.current_share_keys. apply list_elem_of_omap.
      exists share. split; [exact Hin|]. now apply share_key_of_parse with host. }
    destruct (monitor_state !! key) as [r|] eqn:Hr.
    + apply map_lookup_filter_Some. split; [exact Hr | exact Hkey].
    + apply map_lookup_filter_None. left. exact Hr.
  - intros key record H. unfold App.clean_monitor_state in H.
    apply map_lookup_filter_Some in H as [Hr Hkey].
    split; [exact Hr|]. simpl in Hkey.
    unfold App.current_share_keys in Hkey.
    apply list_elem_of_omap in Hkey as (share & Hin & Hk). eauto.
Qed.

(** ** Task monitor: statistics, shared details and the wrapper *)

Lemma filter_outcomes_length (l : list TaskMonitor.TaskInfo) :
  Forall (fun r => TaskMonitor.success r <> None) l ->
  length l = (length (List.filter TaskMonitor.is_success l) +
              length (List.filter TaskMonitor.is_failure l))%nat.
Proof.
  induction l as [|r l IH]; intros H; [reflexivity|].
  apply Forall_cons in H as [Hr Hl]. specialize (IH Hl).
  cbn [List.filter].
  unfold TaskMonitor.is_success at 1, TaskMonitor.is_failure at 1.
  destruct (TaskMonitor.success r) as [[|]|]; simpl; [lia | lia | congruence].
Qed.

Lemma apply_history_decided (m : TaskMonitor.Monitor) (op : TaskMonitor.Op) :
  Forall (fun r => TaskMonitor.success r <> None) (TaskMonitor.task_history m) ->
  Forall (fun r => TaskMonitor.success r <> None)
         (TaskMonitor.task_history (TaskMonitor.apply m op)).
Proof.
  intros H. destruct op as [tid tname t|tid extra|tid ok err extra t|]; simpl.
  - exact H.
  - unfold TaskMonitor.update_task.
    destruct (TaskMonitor.task_status m !! tid); exact H.
  - rewrite complete_task_history.
    destruct (TaskMonitor.task_status m !! tid) as [info|]; [|exact H].
    cbv zeta.
    assert (Hall : Forall (fun r => TaskMonitor.success r <> None)
              (TaskMonitor.task_history m ++
               [TaskMonitor.mkTaskInfo (TaskMonitor.task_id info)
                  (TaskMonitor.task_name info) TaskMonitor.Completed
                  (TaskMonitor.start_time info) (Some t)
                  (Some (t - TaskMonitor.start_time info)) (Some ok) err
                  (TaskMonitor.details info)])).
    { apply Forall_app. split; [exact H|]. constructor; [discriminate|constructor]. }
    destruct (Nat.ltb _ _); [now apply Forall_drop | exact Hall].
  - constructor.
Qed.

Lemma history_decided (ops : list TaskMonitor.Op) :
  Forall (fun r => TaskMonitor.success r <> None)
         (TaskMonitor.task_history (TaskMonitor.run ops)).
Proof.
  unfold TaskMonitor.run.
  assert (H0 : Forall (fun r => TaskMonitor.success r <> None)
                 (TaskMonitor.task_history TaskMonitor.init)) by constructor.
  revert H0. generalize TaskMonitor.init.
  induction ops as [|op ops IH]; intros m Hm; simpl; [exact Hm|].
  apply IH. now apply apply_history_decided.
Qed.

(** X12: after any sequence of operations on a fresh monitor the
    statistics add up: every executed run is counted either as a success or
    as a failure, never both and never neither, and at most 1000 runs are
    counted. *)
Theorem get_statistics_add_up (ops : list TaskMonitor.Op) :
  let stats := TaskMonitor.get_statistics (TaskMonitor.run ops) in
  TaskMonitor.total_executed stats =
    (TaskMonitor.success_count stats + TaskMonitor.failed_count stats)%nat /\
  (TaskMonitor.total_executed stats <= 1000)%nat.
Proof.
  cbv zeta. unfold TaskMonitor.get_statistics. simpl. split.
  - apply filter_outcomes_length, history_decided.
  - apply history_bounded.
Qed.

(** X13: for every limit, [get_recent_history] returns the tail end of the
    history, oldest first: the last [limit] records for a positive limit,
    everything for zero, and for a negative limit everything but the
    [-limit] oldest records. *)
Theorem get_recent_history_any_limit (limit : Z) (m : TaskMonitor.Monitor) :
  let history := TaskMonitor.task_history m in
  let recent := TaskMonitor.get_recent_history limit m in
  (exists older, history = older ++ recent) /\
  Z.of_nat (length recent) =
    if Z.ltb 0 limit then Z.min limit (Z.of_nat (length history))
    else Z.max (Z.of_nat (length history) + limit) 0.
Proof.
  cbv zeta. unfold TaskMonitor.get_recent_history, TaskMonitor.slice_from.
  cbv zeta. split.
  - eexists. symmetry. apply take_drop.
  - rewrite length_drop.
    destruct (Z.ltb_spec (- limit) 0), (Z.ltb_spec 0 limit); lia.
Qed.

(** X14: the record appended to the history by [complete_task] is a
    shallow copy: it refers to the same [details] dictionary as the live
    status entry, so a later [update_task] on the finished task changes what
    the history record shows. *)
Theorem history_record_shares_details (tid : string) (ok : bool)
    (err : option string) (extra : option (gmap string string)) (t : Z)
    (m : TaskMonitor.Monitor) (info : TaskMonitor.TaskInfo) :
  TaskMonitor.task_status m !! tid = Some info ->
  let m1 := TaskMonitor.complete_task tid ok err extra t m in
  exists record,
    last (TaskMonitor.task_history m1) = Some record /\
    TaskMonitor.get_task_status tid m1 = Some record /\
    forall later,
      TaskMonitor.details_of (TaskMonitor.update_task tid later m1) record =
      TaskMonitor.dict_update (TaskMonitor.details_of m1 record) later.
Proof.
  intros Hst m1.
  set (record := TaskMonitor.mkTaskInfo (TaskMonitor.task_id info)
         (TaskMonitor.task_name info) TaskMonitor.Completed
         (TaskMonitor.start_time info) (Some t)
         (Some (t - TaskMonitor.start_time info)) (Some ok) err
         (TaskMonitor.details info)).
  assert (Hstatus : TaskMonitor.task_status m1 !! tid = Some record).
  { subst m1. unfold TaskMonitor.complete_task. rewrite Hst. simpl.
    apply lookup_insert_eq. }
  exists record. split; [|split].
  - subst m1. rewrite complete_task_history, Hst. cbv zeta. fold record.
    destruct (TaskMonitor.task_history m) as [|r0 h]; [reflexivity|].
    destruct (Nat.ltb _ _).
    + simpl. rewrite drop_0. apply last_snoc.
    + apply last_snoc.
  - exact Hstatus.
  - intros later. unfold TaskMonitor.update_task. rewrite Hstatus.
    unfold TaskMonitor.details_of. simpl. now rewrite lookup_insert_eq.
Qed.

Lemma history_record_shares_details_witness :
  exists record,
    last (TaskMonitor.task_history
            (TaskMonitor.complete_task "job" true None None 5 Samples.one_started))
    = Some record /\
    TaskMonitor.details_of
      (TaskMonitor.update_task "job" (<["note" := "late"]> ∅)
         (TaskMonitor.complete_task "job" true None None 5 Samples.one_started))
      record
    = TaskMonitor.dict_update
        (TaskMonitor.details_of
           (TaskMonitor.complete_task "job" true None None 5 Samples.one_started)
           record)
        (<["note" := "late"]> ∅).
Proof.
  destruct (history_record_shares_details "job" true None None 5
              Samples.one_started _ eq_refl) as (record & Hlast & _ & Hupd).
  exists record. split; [exact Hlast | apply Hupd].
Defined.

Lemma apply_details_allocated (m : TaskMonitor.Monitor) (op : TaskMonitor.Op) :
  TaskMonitor.details_allocated m ->
  TaskMonitor.details_allocated (TaskMonitor.apply m op).
Proof.
  intros [Hh Hs]. destruct op as [tid tname t|tid extra|tid ok err extra t|].
  - split; simpl.
    + eapply List.Forall_impl; [|exact Hh]. simpl. intros r Hr. lia.
    + apply map_Forall_insert_2; [simpl; lia|].
      eapply map_Forall_impl; [exact Hs|]. simpl. intros _ r Hr. lia.
  - simpl. unfold TaskMonitor.update_task.
    destruct (TaskMonitor.task_status m !! tid); split; assumption.
  - simpl. unfold TaskMonitor.complete_task.
    destruct (TaskMonitor.task_status m !! tid) as [info|] eqn:Hst;
      [|split; assumption].
    pose proof (Hs tid info Hst) as Hinfo. simpl in Hinfo.
    cbv zeta. split; cbn [TaskMonitor.task_history TaskMonitor.task_status
                            TaskMonitor.next_details].
    + assert (Hall : Forall
                (fun r => (TaskMonitor.details r < TaskMonitor.next_details m)%nat)
                (TaskMonitor.task_history m ++
                 [TaskMonitor.mkTaskInfo (TaskMonitor.task_id info)
                    (TaskMonitor.task_name info) TaskMonitor.Completed
                    (TaskMonitor.start_time info) (Some t)
                    (Some (t - TaskMonitor.start_time info)) (Some ok) err
                    (TaskMonitor.details info)])).
      { apply Forall_app. split; [exact Hh|]. constructor; [exact Hinfo|constructor]. }
      destruct (Nat.ltb _ _); [now apply Forall_drop | exact Hall].
    + apply map_Forall_insert_2; [exact Hinfo | exact Hs].
  - split; [constructor | exact Hs].
Qed.

Lemma run_details_allocated (ops : list TaskMonitor.Op) :
  TaskMonitor.details_allocated (TaskMonitor.run ops).
Proof.
  unfold TaskMonitor.run.
  assert (H0 : TaskMonitor.details_allocated TaskMonitor.init).
  { split; [constructor | apply map_Forall_empty]. }
  revert H0. generalize TaskMonitor.init.
  induction ops as [|op ops IH]; intros m Hm; simpl; [exact Hm|].
  apply IH. now apply apply_details_allocated.
Qed.

(** The store after one wrapped execution: only the fresh dictionary of
    this execution was written. *)
Lemma monitored_task_store (tid tname : string)
    (result : SchedulerManager.TaskResult) (t0 t1 : Z) (m : TaskMonitor.Monitor) :
  let m' := SchedulerManager.monitored_task tid tname result t0 t1 m in
  TaskMonitor.details_store m' =
    <[TaskMonitor.next_details m := SchedulerManager.task_details result]>
      (TaskMonitor.details_store m) /\
  TaskMonitor.task_status m' =
    <[tid := TaskMonitor.mkTaskInfo tid tname TaskMonitor.Completed t0 (Some t1)
               (Some (t1 - t0)) (Some (SchedulerManager.task_success result))
               (SchedulerManager.task_error result) (TaskMonitor.next_details m)]>
      (TaskMonitor.task_status m) /\
  TaskMonitor.task_history m' =
    (let history :=
       TaskMonitor.task_history m ++
       [TaskMonitor.mkTaskInfo tid tname TaskMonitor.Completed t0 (Some t1)
          (Some (t1 - t0)) (Some (SchedulerManager.task_success result))
          (SchedulerManager.task_error result) (TaskMonitor.next_details m)] in
     if Nat.ltb TaskMonitor.max_history (length history) then drop 1 history
     else history).
Proof.
  cbv zeta. unfold SchedulerManager.monitored_task, TaskMonitor.complete_task,
    TaskMonitor.start_task.
  cbn [TaskMonitor.task_status TaskMonitor.task_history TaskMonitor.details_store
       TaskMonitor.next_details].
  rewrite lookup_insert_eq.
  cbn [TaskMonitor.task_status TaskMonitor.task_history TaskMonitor.details_store
       TaskMonitor.next_details TaskMonitor.task_id TaskMonitor.task_name
       TaskMonitor.start_time TaskMonitor.details].
  split; [|split].
  - destruct (bool_decide_reflect (SchedulerManager.task_details result = ∅))
      as [->|_].
    + reflexivity.
    + rewrite lookup_insert_eq. cbn [default]. rewrite insert_insert_eq.
      f_equal. unfold TaskMonitor.dict_update, id. apply map_union_empty.
  - apply insert_insert_eq.
  - reflexivity.
Qed.

(** X15: every execution of a managed task is recorded, whatever the task
    does: the wrapper leaves a finished record for it as the newest entry of
    the history and as the task's status, marked successful exactly when the
    callable did not raise, with the error text when it did, the time it
    took, and the returned dictionary (or the value under [result]) as its
    details; the history grows by one record unless it is full. *)
Theorem monitored_task_records (task_id task_name : string)
    (result : SchedulerManager.TaskResult) (t0 t1 : Z) (m : TaskMonitor.Monitor) :
  let m' := SchedulerManager.monitored_task task_id task_name result t0 t1 m in
  let n := length (TaskMonitor.task_history m) in
  (exists record,
     last (TaskMonitor.task_history m') = Some record /\
     TaskMonitor.get_task_status task_id m' = Some record /\
     TaskMonitor.task_id record = task_id /\
     TaskMonitor.task_name record = task_name /\
     TaskMonitor.is_running record = false /\
     TaskMonitor.start_time record = t0 /\
     TaskMonitor.end_time record = Some t1 /\
     TaskMonitor.duration record = Some (t1 - t0) /\
     TaskMonitor.success record =
       Some (match result with
             | SchedulerManager.RaisesError _ => false
             | _ => true
             end) /\
     TaskMonitor.error record =
       match result with
       | SchedulerManager.RaisesError e => Some e
       | _ => None
       end /\
     TaskMonitor.details_of m' record =
       match result with
       | SchedulerManager.ReturnsDict d => d
       | SchedulerManager.ReturnsValue v => <["result" := v]> ∅
       | _ => ∅
       end) /\
  length (TaskMonitor.task_history m') =
    (if Nat.ltb n 1000 then S n else n).
Proof.
  intros m' n.
  destruct (monitored_task_store task_id task_name result t0 t1 m)
    as (Hstore & Hstatus & Hhist).
  fold m' in Hstore, Hstatus, Hhist. cbv zeta in Hhist.
  split.
  - exists (TaskMonitor.mkTaskInfo task_id task_name TaskMonitor.Completed t0
              (Some t1) (Some (t1 - t0))
              (Some (SchedulerManager.task_success result))
              (SchedulerManager.task_error result) (TaskMonitor.next_details m)).
    split; [|split; [|repeat split; try (destruct result; reflexivity)]].
    + rewrite Hhist.
      destruct (TaskMonitor.task_history m) as [|r0 h]; [reflexivity|].
      destruct (Nat.ltb _ _).
      * simpl. rewrite drop_0. apply last_snoc.
      * apply last_snoc.
    + unfold TaskMonitor.get_task_status. rewrite Hstatus.
      apply lookup_insert_eq.
    + unfold TaskMonitor.details_of. rewrite Hstore.
      cbn [TaskMonitor.details]. rewrite lookup_insert_eq. cbn [default].
      destruct result; try reflexivity.
      simpl. unfold TaskMonitor.dict_update. apply map_union_empty.
  - rewrite Hhist. unfold TaskMonitor.max_history.
    destruct (Nat.ltb_spec 1000 (length (TaskMonitor.task_history m ++
       [TaskMonitor.mkTaskInfo task_id task_name TaskMonitor.Completed t0
          (Some t1) (Some (t1 - t0))
          (Some (SchedulerManager.task_success result))
          (SchedulerManager.task_error result) (TaskMonitor.next_details m)])))
      as [Hfull|Hroom];
      rewrite ?length_drop; rewrite length_app in *; cbn [length] in *;
      fold n in Hfull || fold n in Hroom; fold n;
      destruct (Nat.ltb_spec n 1000); lia.
Qed.

(** X16: a wrapped execution writes only its own, fresh [details]
    dictionary: after any sequence of operations on a fresh monitor, what
    the records already in the history show is not changed by a further
    managed execution, nor by starting a task again and updating it. *)
Theorem monitored_task_keeps_older_details (ops : list TaskMonitor.Op)
    (task_id task_name : string) (result : SchedulerManager.TaskResult)
    (t0 t1 : Z) (extra : gmap string string) :
  let m := TaskMonitor.run ops in
  Forall (fun record =>
            TaskMonitor.details_of
              (SchedulerManager.monitored_task task_id task_name result t0 t1 m)
              record
            = TaskMonitor.details_of m record /\
            TaskMonitor.details_of
              (TaskMonitor.update_task task_id extra
                 (TaskMonitor.start_task task_id task_name t0 m))
              record
            = TaskMonitor.details_of m record)
         (TaskMonitor.task_history m).
Proof.
  intros m. destruct (run_details_allocated ops) as [Hh _]. fold m in Hh.
  eapply List.Forall_impl; [|exact Hh]. cbv beta. intros record Hlt. split.
  - destruct (monitored_task_store task_id task_name result t0 t1 m)
      as (Hstore & _ & _).
    unfold TaskMonitor.details_of. rewrite Hstore.
    rewrite lookup_insert_ne by lia. reflexivity.
  - unfold TaskMonitor.update_task, TaskMonitor.start_task.
    cbn [TaskMonitor.task_status]. rewrite lookup_insert_eq.
    unfold TaskMonitor.details_of.
    cbn [TaskMonitor.details_store TaskMonitor.details].
    rewrite !lookup_insert_ne by lia. reflexivity.
Qed.

(** ** Task scheduler: the registry and the library's job list *)

Section RegistryFacts.
Context {Func Kwargs : Type}.
Variable default_task_id : Z -> string.

(** The registry and the library's job list correspond entry by entry,
    and no job object occurs twice. *)
Let paired (s : TaskScheduler.Scheduler Func Kwargs) : Prop :=
  Forall2 TaskScheduler.registered_as (TaskScheduler.jobs s)
          (TaskScheduler.library_jobs s) /\
  NoDup (map TaskScheduler.handle (TaskScheduler.library_jobs s)) /\
  TaskScheduler.handles_allocated s.

Lemma cancel_job_fresh (h : nat)
    (l : list (TaskScheduler.ScheduleJob Func Kwargs)) :
  ~ In h (map TaskScheduler.handle l) -> TaskScheduler.cancel_job h l = l.
Proof.
  unfold TaskScheduler.cancel_job. induction l as [|x l IH]; intros Hn;
    [reflexivity|].
  simpl. destruct (Nat.eqb_spec (TaskScheduler.handle x) h) as [Heq|_].
  - exfalso. apply Hn. now left.
  - simpl. f_equal. apply IH. intros Hin. apply Hn. now right.
Qed.

Lemma cancel_job_at (i : nat) (j : TaskScheduler.ScheduleJob Func Kwargs)
    (l : list (TaskScheduler.ScheduleJob Func Kwargs)) :
  NoDup (map TaskScheduler.handle l) ->
  l !! i = Some j ->
  TaskScheduler.cancel_job (TaskScheduler.handle j) l = take i l ++ drop (S i) l.
Proof.
  revert i. induction l as [|x l IH]; intros i Hnd Hi; [discriminate|].
  simpl in Hnd. apply NoDup_cons in Hnd as [Hx Hnd].
  destruct i as [|i]; simpl in Hi.
  - injection Hi as ->. simpl. unfold TaskScheduler.cancel_job. simpl.
    rewrite Nat.eqb_refl. simpl. rewrite drop_0.
    apply cancel_job_fresh. intros Hin. apply Hx. now apply list_elem_of_In.
  - unfold TaskScheduler.cancel_job. simpl.
    destruct (Nat.eqb_spec (TaskScheduler.handle x) (TaskScheduler.handle j))
      as [Heq|_].
    + exfalso. apply Hx. rewrite Heq. apply list_elem_of_In, in_map.
      apply list_elem_of_In. eapply list_elem_of_lookup_2. exact Hi.
    + simpl. f_equal. now apply IH.
Qed.

Lemma paired_add (f : Func) (n : Z) (i : option string) (kw : Kwargs) (t : Z)
    (s : TaskScheduler.Scheduler Func Kwargs) :
  paired s ->
  paired (snd (TaskScheduler.add_interval_task default_task_id f n i kw t s)).
Proof.
  intros (Hp & Hnd & Hal). split; [|split].
  - simpl. apply Forall2_app; [exact Hp|].
    constructor; [|constructor]. repeat split.
  - simpl. rewrite map_app. apply NoDup_app. split; [exact Hnd|]. split.
    + intros h Hh Hin. apply list_elem_of_singleton in Hin. subst h.
      apply list_elem_of_In, in_map_iff in Hh as (j & Hj & Hin).
      specialize (Hal j Hin). simpl in Hj. lia.
    + apply NoDup_singleton.
  - now apply add_interval_task_allocated.
Qed.

Lemma paired_remove (task_id : string) (s : TaskScheduler.Scheduler Func Kwargs) :
  paired s -> paired (snd (TaskScheduler.remove_job task_id s)).
Proof.
  intros (Hp & Hnd & Hal). pose proof (remove_job_allocated task_id s Hal) as Hal'.
  split; [|split; [|exact Hal']]; clear Hal'; unfold TaskScheduler.remove_job;
    destruct (TaskScheduler.find_job task_id (TaskScheduler.jobs s) 0)
      as [[i job]|] eqn:Hfind; cbn [snd]; try assumption.
  - apply find_job_Some in Hfind as (_ & Hi & _). rewrite Nat.sub_0_r in Hi.
    destruct (Forall2_lookup_l _ _ _ _ _ Hp Hi) as (j & Hj & Hreg).
    destruct Hreg as (Hh & _). cbn [TaskScheduler.jobs TaskScheduler.library_jobs].
    rewrite Hh, (cancel_job_at i j _ Hnd Hj). unfold TaskScheduler.pop_at.
    apply Forall2_app; [now apply Forall2_take | now apply Forall2_drop].
  - cbn [TaskScheduler.library_jobs]. unfold TaskScheduler.cancel_job.
    clear -Hnd. induction (TaskScheduler.library_jobs s) as [|x l IH];
      [constructor|].
    simpl in Hnd. apply NoDup_cons in Hnd as [Hx Hnd]. simpl.
    destruct (negb _); [|now apply IH].
    simpl. apply NoDup_cons. split; [|now apply IH].
    intros Hin. apply Hx. apply list_elem_of_In, in_map_iff in Hin as (y & Hy & Hin).
    apply List.filter_In in Hin as [Hin _].
    rewrite <- Hy. now apply list_elem_of_In, in_map.
Qed.

Lemma paired_run (ops : list (TaskScheduler.Op (Func := Func) (Kwargs := Kwargs))) :
  paired (TaskScheduler.run default_task_id ops).
Proof.
  unfold TaskScheduler.run.
  assert (H0 : paired (TaskScheduler.init (Func := Func) (Kwargs := Kwargs))).
  { split; [constructor|]. split; [constructor|]. intros j []. }
  revert H0. generalize (TaskScheduler.init (Func := Func) (Kwargs := Kwargs)).
  induction ops as [|op ops IH]; intros s Hs; simpl; [exact Hs|].
  apply IH. destruct op as [f n i kw t|i|i n t| |]; simpl.
  - now apply paired_add.
  - now apply paired_remove.
  - unfold TaskScheduler.update_task_interval.
    destruct (TaskScheduler.find_job i (TaskScheduler.jobs s) 0) as [[k job]|];
      [|exact Hs].
    cbv zeta. cbn [snd]. apply paired_add. now apply paired_remove.
  - unfold TaskScheduler.start. destruct (TaskScheduler.running s); exact Hs.
  - unfold TaskScheduler.stop. destruct (TaskScheduler.running s); simpl;
      [|exact Hs].
    split; [constructor|]. split; [constructor|]. intros j [].
Qed.

Lemma registry_paired (ops : list (TaskScheduler.Op (Func := Func) (Kwargs := Kwargs))) :
  let s := TaskScheduler.run default_task_id ops in
  Forall2 TaskScheduler.registered_as (TaskScheduler.jobs s)
          (TaskScheduler.library_jobs s) /\
  NoDup (map TaskScheduler.handle (TaskScheduler.library_jobs s)) /\
  TaskScheduler.handles_allocated s.
Proof. exact (paired_run ops). Qed.

End RegistryFacts.

Section RemovalFacts.
Context {Func Kwargs : Type}.

Lemma find_job_app (task_id : string)
    (l l' : list (TaskScheduler.JobInfo Func Kwargs)) (n : nat) :
  TaskScheduler.find_job task_id (l ++ l') n =
  match TaskScheduler.find_job task_id l n with
  | Some r => Some r
  | None => TaskScheduler.find_job task_id l' (n + length l)
  end.
Proof.
  revert n. induction l as [|j l IH]; intros n; simpl.
  - now rewrite Nat.add_0_r.
  - destruct (String.eqb (TaskScheduler.id j) task_id); [reflexivity|].
    rewrite IH. now replace (S n + length l)%nat with (n + S (length l))%nat by lia.
Qed.

Lemma find_job_bound (task_id : string)
    (l : list (TaskScheduler.JobInfo Func Kwargs)) (n i : nat)
    (job : TaskScheduler.JobInfo Func Kwargs) :
  TaskScheduler.find_job task_id l n = Some (i, job) ->
  (n <= i < n + length l)%nat /\ In job l.
Proof.
  intros H. apply find_job_Some in H as (Hle & Hl & _).
  pose proof (lookup_lt_Some _ _ _ Hl) as Hlt.
  split; [lia|]. apply list_elem_of_In. eapply list_elem_of_lookup_2. exact Hl.
Qed.

Lemma pop_at_app (i : nat) (l l' : list (TaskScheduler.JobInfo Func Kwargs)) :
  (i < length l)%nat ->
  TaskScheduler.pop_at i (l ++ l') = TaskScheduler.pop_at i l ++ l'.
Proof.
  intros Hi. unfold TaskScheduler.pop_at.
  rewrite take_app_le by lia. rewrite drop_app_le by lia.
  now rewrite app_assoc.
Qed.

Lemma pop_at_last (l : list (TaskScheduler.JobInfo Func Kwargs))
    (job : TaskScheduler.JobInfo Func Kwargs) :
  TaskScheduler.pop_at (length l) (l ++ [job]) = l.
Proof.
  unfold TaskScheduler.pop_at.
  rewrite take_app_length. rewrite drop_ge by (rewrite length_app; simpl; lia).
  apply app_nil_r.
Qed.

Lemma cancel_job_app (h : nat) (l l' : list (TaskScheduler.ScheduleJob Func Kwargs)) :
  TaskScheduler.cancel_job h (l ++ l') =
  TaskScheduler.cancel_job h l ++ TaskScheduler.cancel_job h l'.
Proof. unfold TaskScheduler.cancel_job. apply List.filter_app. Qed.

Lemma allocated_fresh (s : TaskScheduler.Scheduler Func Kwargs) (h : nat) :
  TaskScheduler.handles_allocated s -> (TaskScheduler.next_handle s <= h)%nat ->
  ~ In h (map TaskScheduler.handle (TaskScheduler.library_jobs s)).
Proof.
  intros Hal Hle Hin. apply in_map_iff in Hin as (j & Hj & Hin).
  specialize (Hal j Hin). lia.
Qed.
End RemovalFacts.

(** [stop()] clears the registrations only on a scheduler that was
    started. *)
Example stop_needs_start :
  let add := TaskScheduler.AddIntervalTask tt 60 (Some "job") tt 0 in
  TaskScheduler.get_job_count
    (TaskScheduler.run (fun _ => "task_0") [add; TaskScheduler.Stop]) = 1%nat /\
  TaskScheduler.get_job_count
    (TaskScheduler.run (fun _ => "task_0")
       [TaskScheduler.Start; add; TaskScheduler.Stop]) = 0%nat.
Proof. split; reflexivity. Qed.

(** X17: whatever was done to the scheduler since it was created
    (registrations, removals, interval updates, starts and stops), its
    registry and the job list of the scheduling library correspond entry by
    entry, in order: each registered entry refers to a library job of its
    own with the same id, interval, callable and arguments, no library job
    is left behind or shared, the job count is the number of library jobs,
    and every registered entry has a next fire time. *)
Theorem registry_matches_library
    (Func Kwargs : Type) (default_task_id : Z -> string)
    (ops : list (TaskScheduler.Op (Func := Func) (Kwargs := Kwargs))) :
  let s := TaskScheduler.run default_task_id ops in
  Forall2 TaskScheduler.registered_as (TaskScheduler.jobs s)
          (TaskScheduler.library_jobs s) /\
  NoDup (map TaskScheduler.schedule_job (TaskScheduler.jobs s)) /\
  TaskScheduler.get_job_count s = length (TaskScheduler.library_jobs s) /\
  Forall (fun job => is_Some (TaskScheduler.next_fire job s)) (TaskScheduler.jobs s).
Proof.
  intros s. destruct (registry_paired default_task_id ops) as (Hp & Hnd & _).
  fold s in Hp, Hnd.
  assert (Hmap : map TaskScheduler.schedule_job (TaskScheduler.jobs s) =
                 map TaskScheduler.handle (TaskScheduler.library_jobs s)).
  { clear Hnd. induction Hp as [|job j l k Hreg _ IH]; [reflexivity|].
    simpl. destruct Hreg as (-> & _). now rewrite IH. }
  split; [exact Hp|]. split; [now rewrite Hmap|]. split.
  - unfold TaskScheduler.get_job_count. eapply Forall2_length. exact Hp.
  - apply List.Forall_forall. intros job Hin. unfold TaskScheduler.next_fire.
    assert (Hh : In (TaskScheduler.schedule_job job)
                   (map TaskScheduler.handle (TaskScheduler.library_jobs s))).
    { rewrite <- Hmap. now apply in_map. }
    apply in_map_iff in Hh as (j & Hj & Hjin).
    destruct (List.find _ (TaskScheduler.library_jobs s)) as [j'|] eqn:Hfind.
    + simpl. eauto.
    + exfalso. pose proof (List.find_none _ _ Hfind j Hjin) as Hno.
      simpl in Hno. rewrite Hj, Nat.eqb_refl in Hno. discriminate.
Qed.

Lemma find_job_first {Func Kwargs : Type} (task_id : string)
    (l : list (TaskScheduler.JobInfo Func Kwargs)) (n i : nat)
    (job : TaskScheduler.JobInfo Func Kwargs) :
  TaskScheduler.find_job task_id l n = Some (i, job) ->
  Forall (fun j => TaskScheduler.id j <> task_id) (take (i - n) l).
Proof.
  revert n. induction l as [|j l IH]; intros n; simpl; [discriminate|].
  destruct (String.eqb_spec (TaskScheduler.id j) task_id) as [Heq|Hne].
  - intros [= <- <-]. rewrite Nat.sub_diag. constructor.
  - intros H. pose proof (find_job_Some _ _ _ _ _ H) as (Hle & _ & _).
    apply IH in H. replace (i - n)%nat with (S (i - S n)) by lia.
    simpl. constructor; assumption.
Qed.

(** X18: registering does not check for an id that is already in use, and
    removal takes out one entry only, the oldest one with the id. After two
    registrations under the same id, [remove_job] returns [True] and removes
    a single entry: when the id was in use before, the first entry of the
    old registry with that id, together with its library job, and both new
    entries stay; when it was not, the first of the two new entries, and the
    one registered last is then the entry found under the id. In both cases
    the entry registered last stays last in the registry with its library
    job, due one interval after its registration, and some entry is still
    found under the id. *)
Theorem remove_job_leaves_later_duplicate
    (Func Kwargs : Type) (default_task_id : Z -> string)
    (ops : list (TaskScheduler.Op (Func := Func) (Kwargs := Kwargs)))
    (task_id : string) (f1 f2 : Func) (n1 n2 : Z) (kw1 kw2 : Kwargs) (t1 t2 : Z) :
  let s := TaskScheduler.run default_task_id ops in
  let s1 := snd (TaskScheduler.add_interval_task default_task_id f1 n1
                   (Some task_id) kw1 t1 s) in
  let s2 := snd (TaskScheduler.add_interval_task default_task_id f2 n2
                   (Some task_id) kw2 t2 s1) in
  let r := TaskScheduler.remove_job task_id s2 in
  let first := TaskScheduler.mkJobInfo task_id f1 n1 kw1
                 (TaskScheduler.next_handle s) in
  let later := TaskScheduler.mkJobInfo task_id f2 n2 kw2
                 (S (TaskScheduler.next_handle s)) in
  let first_job := TaskScheduler.mkScheduleJob (TaskScheduler.next_handle s) n1
                     (t1 + n1) task_id f1 kw1 in
  let later_job := TaskScheduler.mkScheduleJob (S (TaskScheduler.next_handle s))
                     n2 (t2 + n2) task_id f2 kw2 in
  TaskScheduler.get_job_count s2 = (TaskScheduler.get_job_count s + 2)%nat /\
  fst r = true /\
  TaskScheduler.get_job_count (snd r) = (TaskScheduler.get_job_count s + 1)%nat /\
  last (TaskScheduler.jobs (snd r)) = Some later /\
  (exists i job, TaskScheduler.find_job task_id (TaskScheduler.jobs (snd r)) 0
                 = Some (i, job)) /\
  TaskScheduler.next_fire later (snd r) = Some (t2 + n2) /\
  match TaskScheduler.find_job task_id (TaskScheduler.jobs s) 0 with
  | Some (i, old) =>
      Forall (fun j => TaskScheduler.id j <> task_id)
             (take i (TaskScheduler.jobs s)) /\
      TaskScheduler.jobs s !! i = Some old /\
      TaskScheduler.id old = task_id /\
      TaskScheduler.jobs (snd r) =
        TaskScheduler.pop_at i (TaskScheduler.jobs s) ++ [first; later] /\
      TaskScheduler.library_jobs (snd r) =
        TaskScheduler.cancel_job (TaskScheduler.schedule_job old)
                                 (TaskScheduler.library_jobs s) ++
        [first_job; later_job]
  | None =>
      TaskScheduler.jobs (snd r) = TaskScheduler.jobs s ++ [later] /\
      TaskScheduler.library_jobs (snd r) =
        TaskScheduler.library_jobs s ++ [later_job] /\
      TaskScheduler.find_job task_id (TaskScheduler.jobs (snd r)) 0 =
        Some (length (TaskScheduler.jobs s), later)
  end.
Proof.
  intros s s1 s2 r first later first_job later_job.
  destruct (registry_paired default_task_id ops) as (Hp & Hnd & Hal).
  fold s in Hp, Hnd, Hal.
  assert (Hjobs2 : TaskScheduler.jobs s2 = (TaskScheduler.jobs s ++ [first]) ++ [later])
    by reflexivity.
  assert (Hlib1 : TaskScheduler.library_jobs s1 =
                  TaskScheduler.library_jobs s ++ [first_job]) by reflexivity.
  assert (Hknown : forall k old, TaskScheduler.jobs s !! k = Some old ->
            (TaskScheduler.schedule_job old < TaskScheduler.next_handle s)%nat).
  { intros k old Hk.
    destruct (Forall2_lookup_l _ _ _ _ _ Hp Hk) as (j & Hj & Hreg & _).
    rewrite Hreg. apply Hal, list_elem_of_In.
    eapply list_elem_of_lookup_2. exact Hj. }
  assert (Hfind : exists i job,
            TaskScheduler.find_job task_id (TaskScheduler.jobs s ++ [first]) 0
            = Some (i, job) /\
            (TaskScheduler.schedule_job job <= TaskScheduler.next_handle s)%nat /\
            match TaskScheduler.find_job task_id (TaskScheduler.jobs s) 0 with
            | Some (i0, old) => i = i0 /\ job = old
            | None => i = length (TaskScheduler.jobs s) /\ job = first
            end).
  { rewrite find_job_app.
    destruct (TaskScheduler.find_job task_id (TaskScheduler.jobs s) 0)
      as [[i job]|] eqn:Hs0.
    - exists i, job. split; [reflexivity|]. split; [|auto].
      apply find_job_Some in Hs0 as (_ & Hk & _). rewrite Nat.sub_0_r in Hk.
      specialize (Hknown i job Hk). lia.
    - simpl. rewrite String.eqb_refl.
      exists (length (TaskScheduler.jobs s)), first. simpl. auto. }
  destruct Hfind as (i & job & Hfind & Hold & Hrel).
  assert (Hfind2 : TaskScheduler.find_job task_id (TaskScheduler.jobs s2) 0
                   = Some (i, job)).
  { rewrite Hjobs2, find_job_app, Hfind. reflexivity. }
  destruct (find_job_bound _ _ _ _ _ Hfind) as (Hi & Hin).
  assert (Hr : r = (true,
            TaskScheduler.mkScheduler
              (TaskScheduler.pop_at i (TaskScheduler.jobs s ++ [first]) ++ [later])
              (TaskScheduler.cancel_job (TaskScheduler.schedule_job job)
                 (TaskScheduler.library_jobs s1) ++ [later_job])
              (S (S (TaskScheduler.next_handle s)))
              (TaskScheduler.running s))).
  { subst r. unfold TaskScheduler.remove_job. rewrite Hfind2. f_equal.
    rewrite Hjobs2, pop_at_app by lia. f_equal.
    change (TaskScheduler.library_jobs s2)
      with (TaskScheduler.library_jobs s1 ++ [later_job]).
    rewrite cancel_job_app. f_equal.
    apply cancel_job_fresh. simpl. intros [Heq|[]]. lia. }
  rewrite Hr. cbn [fst snd TaskScheduler.jobs TaskScheduler.library_jobs].
  unfold TaskScheduler.get_job_count.
  split; [rewrite Hjobs2, !length_app; simpl; lia|].
  split; [reflexivity|]. split; [|split; [|split; [|split]]].
  - cbn [TaskScheduler.jobs]. rewrite length_app. simpl.
    pose proof (length_pop_at i (TaskScheduler.jobs s ++ [first])) as Hlen.
    rewrite length_app in Hlen, Hi. simpl in Hlen, Hi. lia.
  - apply last_snoc.
  - rewrite find_job_app.
    destruct (TaskScheduler.find_job task_id
                (TaskScheduler.pop_at i (TaskScheduler.jobs s ++ [first])) 0)
      as [[k j]|]; [eauto|].
    simpl. rewrite String.eqb_refl. eauto.
  - unfold TaskScheduler.next_fire.
    cbn [TaskScheduler.library_jobs TaskScheduler.schedule_job].
    rewrite find_fresh_handle; [reflexivity| |reflexivity].
    change (TaskScheduler.handles_allocated s1).
    now apply add_interval_task_allocated.
  - rewrite Hlib1, cancel_job_app.
    destruct (TaskScheduler.find_job task_id (TaskScheduler.jobs s) 0)
      as [[i0 old]|] eqn:Hs0; destruct Hrel as [-> ->].
    + pose proof (find_job_first _ _ _ _ _ Hs0) as Hbefore.
      pose proof (find_job_bound _ _ _ _ _ Hs0) as (Hi0 & _).
      apply find_job_Some in Hs0 as (_ & Hk & Hid).
      rewrite Nat.sub_0_r in Hbefore, Hk.
      split; [exact Hbefore|]. split; [exact Hk|]. split; [exact Hid|].
      specialize (Hknown i0 old Hk). split.
      * rewrite pop_at_app by lia. now rewrite <- app_assoc.
      * rewrite <- app_assoc. f_equal.
        rewrite (cancel_job_fresh _ [first_job]); [reflexivity|].
        simpl. intros [Heq|[]]. lia.
    + split; [now rewrite pop_at_last|]. split.
      * rewrite cancel_job_fresh by (apply allocated_fresh; [exact Hal | simpl; lia]).
        unfold TaskScheduler.cancel_job. simpl. rewrite Nat.eqb_refl. simpl.
        now rewrite app_nil_r.
      * rewrite pop_at_last, find_job_app, Hs0. simpl.
        now rewrite String.eqb_refl.
Qed.

(** X19: registering a task under an id that is not in use and removing
    it again restores the registry and the library's job list exactly;
    only the allocator of job objects has moved on. *)
Theorem add_then_remove_restores
    (Func Kwargs : Type) (default_task_id : Z -> string)
    (ops : list (TaskScheduler.Op (Func := Func) (Kwargs := Kwargs)))
    (task_id : string) (f : Func) (n : Z) (kw : Kwargs) (t : Z) :
  let s := TaskScheduler.run default_task_id ops in
  TaskScheduler.find_job task_id (TaskScheduler.jobs s) 0 = None ->
  TaskScheduler.remove_job task_id
    (snd (TaskScheduler.add_interval_task default_task_id f n (Some task_id)
            kw t s))
  = (true, TaskScheduler.mkScheduler (TaskScheduler.jobs s)
             (TaskScheduler.library_jobs s)
             (S (TaskScheduler.next_handle s)) (TaskScheduler.running s)).
Proof.
  intros s Hnone.
  destruct (registry_paired default_task_id ops) as (_ & _ & Hal). fold s in Hal.
  unfold TaskScheduler.remove_job.
  cbn [snd TaskScheduler.add_interval_task TaskScheduler.jobs
       TaskScheduler.library_jobs TaskScheduler.next_handle TaskScheduler.handle].
  rewrite find_job_app, Hnone. simpl TaskScheduler.find_job.
  rewrite String.eqb_refl. f_equal. f_equal.
  - apply pop_at_last.
  - cbn [TaskScheduler.schedule_job]. rewrite cancel_job_app.
    rewrite cancel_job_fresh by (apply allocated_fresh; [exact Hal | lia]).
    unfold TaskScheduler.cancel_job. simpl. rewrite Nat.eqb_refl. simpl.
    apply app_nil_r.
Qed.

Lemma add_then_remove_restores_witness :
  TaskScheduler.get_job_count
    (snd (TaskScheduler.remove_job "monitor_all_shares"
            (snd (TaskScheduler.add_interval_task (fun _ => "task_0") tt 3600
                    (Some "monitor_all_shares") tt 0
                    (TaskScheduler.run (fun _ => "task_0") []))))) = 0%nat.
Proof.
  rewrite (add_then_remove_restores unit unit (fun _ => "task_0") []
             "monitor_all_shares" tt 3600 tt 0 eq_refl).
  reflexivity.
Defined.

(** ** Monitor orchestrator: failing saves, configured keys, steady state *)

Lemma attempt_loop_never_synced (backend : nat -> Outcome)
    (target : string) (share_pwd : option string) (retries : Z)
    (file_path : option string) (preserve : bool) (file_info : option FileInfo)
    (dup : Z) (sid fid : string) (attempts : list Z) (env : Env) :
  (forall n, FileSyncer.answer_ok (backend n) = false) ->
  fst (FileSyncer.attempt_loop backend target share_pwd retries file_path
         preserve file_info dup sid fid attempts env) = FileSyncer.SyncFailed.
Proof.
  intros Hfail. revert env.
  induction attempts as [|attempt rest IH]; intros env; simpl; [reflexivity|].
  specialize (Hfail (calls env)).
  destruct (backend (calls env)) as [result|e]; simpl in Hfail.
  - rewrite Hfail. apply IH.
  - apply IH.
Qed.

Lemma transfer_file_fails (backend : nat -> Outcome) (f : FileInfo)
    (share_id : string) (share_pwd : option string) (target : string)
    (preserve : bool) (dup : Z) (e : Env) :
  (forall n, FileSyncer.answer_ok (backend n) = false) ->
  fst (Monitor.transfer_file backend f share_id share_pwd target preserve dup e)
  = false.
Proof.
  intros Hfail. unfold Monitor.transfer_file.
  destruct (file_id f) as [fid|]; [|reflexivity].
  destruct (path f) as [fpath|]; [|reflexivity].
  unfold FileSyncer.sync_file.
  destruct (negb (truthy (Some fid)) || negb (truthy (Some share_id)));
    [reflexivity|].
  pose proof (attempt_loop_never_synced backend target share_pwd 3 (Some fpath)
                preserve (Some f) dup (default "" (Some share_id))
                (default "" (Some fid)) (range (3 + 1)) e Hfail) as H.
  destruct (FileSyncer.attempt_loop _ _ _ _ _ _ _ _ _ _ _ _) as [[r| |] e'];
    simpl in H; [discriminate | reflexivity | reflexivity].
Qed.

Lemma transfer_loop_all_fail (backend : nat -> Outcome) (strftime : Z -> string)
    (share_id share_key : string) (final_pwd : option string) (target : string)
    (preserve : bool) (dup : Z) (fs : list FileInfo) (acc : Monitor.LoopState) :
  (forall n, FileSyncer.answer_ok (backend n) = false) ->
  Monitor.monitor_state
    (snd (Monitor.transfer_loop backend strftime share_id share_key final_pwd
            target preserve dup fs acc))
  = Monitor.monitor_state (snd acc).
Proof.
  intros Hfail. revert acc. induction fs as [|f fs IH]; intros acc;
    [reflexivity|].
  rewrite transfer_loop_cons, IH. destruct acc as [[c m] st].
  rewrite transfer_step_cases. cbv zeta.
  now rewrite (transfer_file_fails backend f share_id final_pwd target preserve
                 dup (Monitor.env st) Hfail).
Qed.

(** X20: a save that fails is never recorded. When every answer of the
    save backend is a failure (an exception or a result whose code is not
    0), a tick changes no share's list of known files and no share's time of
    last transfer, whatever the configuration, the listing and the state it
    starts from; and it reports no transferred file. *)
Theorem failed_transfers_record_nothing
    (parse : string -> option (string * option string * string))
    (listing : string -> option string -> string -> option (list FileInfo))
    (backend : nat -> Outcome) (strftime : Z -> string)
    (cfg : Monitor.ShareConfig) (st : Monitor.State) (key : string) :
  (forall n, FileSyncer.answer_ok (backend n) = false) ->
  let st' := Monitor.monitor_share_link parse listing backend strftime cfg st in
  let before := default no_state (Monitor.monitor_state st !! key) in
  let after := default no_state (Monitor.monitor_state st' !! key) in
  default [] (files after) = default [] (files before) /\
  last_sync_time after = last_sync_time before /\
  (last_synced_files_count after = last_synced_files_count before \/
   last_synced_files_count after = Some 0).
Proof.
  intros Hfail st' before after. subst st' before after.
  destruct (default true (Monitor.enabled cfg)) eqn:Hen.
  2:{ unfold Monitor.monitor_share_link. rewrite Hen. simpl. auto. }
  destruct (parse (Monitor.url cfg)) as [[[share_id link_pwd] host]|] eqn:Hparse.
  2:{ unfold Monitor.monitor_share_link. rewrite Hen, Hparse. simpl. auto. }
  rewrite (monitor_share_link_enabled parse listing backend strftime cfg st
             share_id link_pwd host Hen Hparse).
  cbv zeta.
  set (secret := Monitor.final_password (Monitor.password cfg) link_pwd).
  set (key0 := Monitor.generate_share_key share_id secret).
  destruct (listing share_id secret host) as [file_list|]; [|simpl; auto].
  destruct (FileComparator.get_files_to_sync file_list _) as [|f fs].
  - cbn [Monitor.save_monitor_state Monitor.monitor_state].
    destruct (String.eqb_spec key key0) as [->|Hne].
    + rewrite lookup_insert_eq. cbn [default files last_sync_time
                                       last_synced_files_count]. auto.
    + rewrite lookup_insert_ne by congruence. auto.
  - rewrite transfer_loop_all_fail by exact Hfail. simpl. auto.
Qed.

Lemma failed_transfers_record_nothing_witness :
  let st' := Monitor.monitor_share_link Samples.parse Samples.listing_two
               Samples.always_raises Samples.strftime Samples.share
               Samples.synced_before in
  default [] (files (default no_state (Monitor.monitor_state st' !! "k1-x_abcd")))
  = [Monitor.stamp Samples.a_x "2023-12-31 23:00:00"].
Proof.
  intros st'.
  destruct (failed_transfers_record_nothing Samples.parse Samples.listing_two
              Samples.always_raises Samples.strftime Samples.share
              Samples.synced_before "k1-x_abcd" (fun _ => eq_refl))
    as (Hfiles & _).
  exact Hfiles.
Defined.

Lemma monitor_share_link_other_keys
    (listing : string -> option string -> string -> option (list FileInfo))
    (backend : nat -> Outcome) (strftime : Z -> string)
    (cfg : Monitor.ShareConfig) (st : Monitor.State) (key : string) :
  App.share_key_of cfg <> Some key ->
  Monitor.monitor_state
    (Monitor.monitor_share_link ShareHandler.parse_share_link listing backend
       strftime cfg st) !! key
  = Monitor.monitor_state st !! key.
Proof.
  intros Hkey.
  destruct (default true (Monitor.enabled cfg)) eqn:Hen.
  2:{ unfold Monitor.monitor_share_link. now rewrite Hen. }
  destruct (ShareHandler.parse_share_link (Monitor.url cfg))
    as [[[share_id link_pwd] host]|] eqn:Hparse.
  2:{ unfold Monitor.monitor_share_link. now rewrite Hen, Hparse. }
  destruct (monitor_share_link_frame ShareHandler.parse_share_link listing
              backend strftime cfg st share_id link_pwd host Hen Hparse)
    as (evs & _ & _ & Hframe).
  apply Hframe. intros ->. apply Hkey.
  now apply share_key_of_parse with host.
Qed.

(** X21: a sequential round over the configured shares writes only under
    the keys of these shares, the very keys the console's clean-up computes:
    the record under any other key is left as it was. *)
Theorem monitor_all_touches_configured_keys
    (listing : string -> option string -> string -> option (list FileInfo))
    (backend : nat -> Outcome) (strftime : Z -> string)
    (monitored_shares : list Monitor.ShareConfig) (st : Monitor.State)
    (key : string) :
  key ∉ App.current_share_keys monitored_shares ->
  Monitor.monitor_state
    (Monitor.monitor_all ShareHandler.parse_share_link listing backend strftime
       monitored_shares st) !! key
  = Monitor.monitor_state st !! key.
Proof.
  unfold Monitor.monitor_all, App.current_share_keys. revert st.
  induction monitored_shares as [|cfg shares IH]; intros st Hkey; [reflexivity|].
  cbn [fold_left]. rewrite IH.
  - unfold Monitor.monitor_all_step. cbn [Monitor.monitor_state].
    apply monitor_share_link_other_keys. intros Heq. apply Hkey.
    apply list_elem_of_omap. exists cfg. split; [apply list_elem_of_here | exact Heq].
  - intros Hin. apply Hkey. apply list_elem_of_omap in Hin as (x & Hx & Hk).
    apply list_elem_of_omap. exists x. split; [now apply list_elem_of_further | exact Hk].
Qed.

Lemma monitor_all_touches_configured_keys_witness :
  Monitor.monitor_state
    (Monitor.monitor_all ShareHandler.parse_share_link Samples.listing_two
       Samples.always_ok Samples.strftime [Samples.share] Samples.synced_before)
    !! "k1-x_no_pwd"
  = None.
Proof.
  rewrite (monitor_all_touches_configured_keys Samples.listing_two
             Samples.always_ok Samples.strftime [Samples.share]
             Samples.synced_before "k1-x_no_pwd").
  - reflexivity.
  - apply (bool_decide_unpack _). vm_compute. exact I.
Defined.

Lemma attempt_loop_first_ok (backend : nat -> Outcome)
    (target : string) (share_pwd : option string) (retries : Z)
    (file_path : option string) (preserve : bool) (file_info : option FileInfo)
    (dup : Z) (sid fid : string) (attempt : Z) (rest : list Z) (env : Env) :
  FileSyncer.answer_ok (backend (calls env)) = true ->
  exists result,
    fst (FileSyncer.attempt_loop backend target share_pwd retries file_path
           preserve file_info dup sid fid (attempt :: rest) env)
    = FileSyncer.Synced result.
Proof.
  intros Hok. cbn [FileSyncer.attempt_loop].
  destruct (backend (calls env)) as [result|e]; simpl in Hok; [|discriminate].
  rewrite Hok. now exists result.
Qed.

Lemma transfer_file_succeeds (backend : nat -> Outcome) (f : FileInfo)
    (share_id : string) (share_pwd : option string) (target : string)
    (preserve : bool) (dup : Z) (e : Env) :
  (forall n, FileSyncer.answer_ok (backend n) = true) ->
  share_id <> "" ->
  truthy (file_id f) = true -> path f <> None ->
  fst (Monitor.transfer_file backend f share_id share_pwd target preserve dup e)
  = true.
Proof.
  intros Hok Hsid Hfid Hpath. unfold Monitor.transfer_file.
  destruct (file_id f) as [fid|]; [|discriminate].
  destruct (path f) as [fpath|]; [|congruence].
  unfold FileSyncer.sync_file. rewrite Hfid.
  assert (Hs : truthy (Some share_id) = true).
  { simpl. now rewrite (string_eqb_nonempty _ Hsid). }
  rewrite Hs. cbn [negb orb].
  change (range (3 + 1)) with (0 :: [1; 2; 3]).
  destruct (attempt_loop_first_ok backend target share_pwd 3 (Some fpath)
              preserve (Some f) dup (default "" (Some share_id))
              (default "" (Some fid)) 0 [1; 2; 3] e (Hok (calls e)))
    as [result Hres].
  destruct (FileSyncer.attempt_loop _ _ _ _ _ _ _ _ _ _ _ _) as [o e'].
  simpl in Hres. now rewrite Hres.
Qed.

Lemma NoDup_map_In_eq {A B : Type} (g : A -> B) (l : list A) (x y : A) :
  NoDup (map g l) -> In x l -> In y l -> g x = g y -> x = y.
Proof.
  induction l as [|a l IH]; intros Hnd Hx Hy Heq; [destruct Hx|].
  simpl in Hnd. apply NoDup_cons in Hnd as [Ha Hnd].
  destruct Hx as [<-|Hx], Hy as [<-|Hy]; auto.
  - exfalso. apply Ha. rewrite Heq. now apply list_elem_of_In, in_map.
  - exfalso. apply Ha. rewrite <- Heq. now apply list_elem_of_In, in_map.
Qed.

Lemma NoDup_map_filter_weaken {A B : Type} (g : A -> B) (p q : A -> bool)
    (l : list A) :
  (forall x, p x = true -> q x = true) ->
  NoDup (map g (List.filter q l)) -> NoDup (map g (List.filter p l)).
Proof.
  intros Hpq. induction l as [|a l IH]; intros Hnd; [constructor|].
  simpl in *. destruct (p a) eqn:Hp.
  - rewrite (Hpq a Hp) in Hnd. simpl in *.
    apply NoDup_cons in Hnd as [Ha Hnd]. apply NoDup_cons. split; [|now apply IH].
    intros Hin. apply Ha.
    apply list_elem_of_In, in_map_iff in Hin as (x & Hx & Hin).
    apply List.filter_In in Hin as [Hin Hpx].
    rewrite <- Hx. apply list_elem_of_In, in_map, List.filter_In.
    split; [exact Hin | now apply Hpq].
  - destruct (q a); [|now apply IH]. simpl in Hnd.
    apply NoDup_cons in Hnd as [_ Hnd]. now apply IH.
Qed.

Lemma filter_nil_intro {A : Type} (p : A -> bool) (l : list A) :
  (forall x, In x l -> p x = false) -> List.filter p l = [].
Proof.
  induction l as [|a l IH]; intros H; [reflexivity|].
  simpl. rewrite (H a (or_introl eq_refl)). apply IH. intros x Hx. apply H. now right.
Qed.

(** Whether an entry is due against the values of a path-keyed
    dictionary, and against a known list. *)
Lemma due_lookup (known : list FileInfo) (f : FileInfo) :
  FileComparator.due known f =
  negb (is_directory f) &&
  match PyDict.get (path_key f) (FileComparator.target_map known) with
  | None => true
  | Some k => negb (String.eqb (md5_key f) (md5_key k))
  end.
Proof. unfold FileComparator.due. now rewrite target_map_lookup. Qed.

Lemma due_values (m : PyDict.t FileInfo) (f : FileInfo) :
  Monitor.path_keyed m ->
  FileComparator.due (PyDict.values m) f =
  negb (is_directory f) &&
  match PyDict.get (path_key f) m with
  | None => true
  | Some k => negb (String.eqb (md5_key f) (md5_key k))
  end.
Proof. intros Hm. now rewrite due_lookup, path_keyed_lookup. Qed.

Section SteadyFacts.
Variable backend : nat -> Outcome.
Variable strftime : Z -> string.
Variables (share_id share_key : string) (final_pwd : option string)
          (target : string) (preserve : bool) (dup : Z).
Hypothesis backend_ok : forall n, FileSyncer.answer_ok (backend n) = true.
Hypothesis share_id_given : share_id <> "".

(** A loop all of whose transfers succeed: the count, the dictionary and
    the record it leaves. *)
Lemma transfer_loop_all_succeed (fs : list FileInfo) (c : Z)
    (m : PyDict.t FileInfo) (st : Monitor.State) :
  Forall (fun f => truthy (file_id f) = true /\ path f <> None) fs ->
  NoDup (map path_key fs) ->
  Monitor.path_keyed m ->
  let r := Monitor.transfer_loop backend strftime share_id share_key final_pwd
             target preserve dup fs (c, m, st) in
  fst (fst r) = c + Z.of_nat (length fs) /\
  Monitor.path_keyed (snd (fst r)) /\
  (forall f, In f fs ->
     exists t, PyDict.get (path_key f) (snd (fst r)) = Some (Monitor.stamp f t)) /\
  (forall p, ~ In p (map path_key fs) ->
     PyDict.get p (snd (fst r)) = PyDict.get p m) /\
  (fs <> [] ->
   exists lm ls,
     Monitor.monitor_state (snd r) !! share_key =
     Some (mkShareState lm ls (Some (PyDict.values (snd (fst r))))
             (Some (fst (fst r))))).
Proof.
  revert c m st. induction fs as [|f fs IH]; intros c m st Hall Hnd Hm r.
  - subst r. simpl. split; [lia|]. split; [exact Hm|].
    split; [intros f []|]. split; [reflexivity|]. congruence.
  - subst r. rewrite transfer_loop_cons.
    apply Forall_cons in Hall as [[Hfid Hpath] Hall].
    simpl in Hnd. apply NoDup_cons in Hnd as [Hf Hnd].
    rewrite transfer_step_cases. cbv zeta.
    rewrite (transfer_file_succeeds backend f share_id final_pwd target preserve
               dup (Monitor.env st) backend_ok share_id_given Hfid Hpath).
    set (e1 := snd (Monitor.transfer_file backend f share_id final_pwd target
                      preserve dup (Monitor.env st))).
    set (m1 := PyDict.set (path_key f) (Monitor.stamp f (strftime (now e1))) m).
    assert (Hm1 : Monitor.path_keyed m1)
      by apply (path_keyed_set m (Monitor.stamp f (strftime (now e1))) Hm).
    match goal with
    | |- context [Monitor.transfer_loop _ _ _ _ _ _ _ _ fs (?c1, m1, ?s1)] =>
        specialize (IH c1 m1 s1 Hall Hnd Hm1); set (st1 := s1) in *
    end.
    cbv zeta in IH. destruct IH as (Hc & Hpk & Hin & Hout & Hrec).
    split; [rewrite Hc; simpl length; lia|]. split; [exact Hpk|].
    assert (Hget : PyDict.get (path_key f)
                     (snd (fst (Monitor.transfer_loop backend strftime share_id
                                  share_key final_pwd target preserve dup fs
                                  (c + 1, m1, st1))))
                   = Some (Monitor.stamp f (strftime (now e1)))).
    { rewrite Hout.
      - unfold m1. rewrite pydict_get_set. now rewrite String.eqb_refl.
      - intros Hin'. apply Hf. now apply list_elem_of_In. }
    split; [|split].
    + intros g [<-|Hg]; [eauto | now apply Hin].
    + intros p Hp. rewrite Hout.
      * unfold m1. rewrite pydict_get_set.
        destruct (String.eqb_spec p (path_key f)) as [->|_]; [|reflexivity].
        exfalso. apply Hp. now left.
      * intros Hin'. apply Hp. now right.
    + intros _. destruct fs as [|g fs].
      * rewrite transfer_loop_nil. cbn [fst snd]. unfold st1.
        cbn [Monitor.save_monitor_state Monitor.monitor_state].
        rewrite lookup_insert_eq. eauto.
      * apply Hrec. discriminate.
Qed.
End SteadyFacts.

(** X22: a tick whose transfers all succeed reaches a steady state. When
    the listed files that are not directories have distinct paths and carry
    an identifier and a path, and every save succeeds, then after the tick
    nothing of the same listing is due any more against the share's record,
    and the record counts exactly the files that were due before. *)
Theorem successful_tick_reaches_steady_state
    (parse : string -> option (string * option string * string))
    (listing : string -> option string -> string -> option (list FileInfo))
    (backend : nat -> Outcome) (strftime : Z -> string)
    (cfg : Monitor.ShareConfig) (st : Monitor.State)
    (share_id : string) (link_pwd : option string) (host : string)
    (file_list : list FileInfo) :
  let secret := Monitor.final_password (Monitor.password cfg) link_pwd in
  let key := Monitor.generate_share_key share_id secret in
  let st' := Monitor.monitor_share_link parse listing backend strftime cfg st in
  let before := default no_state (Monitor.monitor_state st !! key) in
  let after := default no_state (Monitor.monitor_state st' !! key) in
  default true (Monitor.enabled cfg) = true ->
  parse (Monitor.url cfg) = Some (share_id, link_pwd, host) ->
  share_id <> "" ->
  listing share_id secret host = Some file_list ->
  (forall n, FileSyncer.answer_ok (backend n) = true) ->
  Forall (fun f => is_directory f = false ->
                   truthy (file_id f) = true /\ path f <> None) file_list ->
  NoDup (map path_key (List.filter (fun f => negb (is_directory f)) file_list)) ->
  FileComparator.get_files_to_sync file_list (default [] (files after)) = [] /\
  last_synced_files_count after =
    Some (Z.of_nat (length (FileComparator.get_files_to_sync file_list
                              (default [] (files before))))).
Proof.
  intros secret key st' before after Hen Hparse Hsid Hlist Hok Hall Hnd.
  subst st' after.
  rewrite (monitor_share_link_enabled parse listing backend strftime cfg st
             share_id link_pwd host Hen Hparse).
  cbv zeta. fold secret. fold key. rewrite Hlist. fold before.
  set (known := default [] (files before)).
  destruct (FileComparator.get_files_to_sync file_list known) as [|f0 fs0] eqn:Hdue.
  - cbn [Monitor.save_monitor_state Monitor.monitor_state].
    rewrite lookup_insert_eq. cbn [default files last_synced_files_count length].
    split; [exact Hdue | reflexivity].
  - rewrite <- Hdue. rewrite (get_files_to_sync_filter file_list known) in Hdue |- *.
    set (updated := List.filter (FileComparator.due known) file_list) in *.
    assert (Hdir : forall x, FileComparator.due known x = true ->
                             negb (is_directory x) = true).
    { intros x Hx. unfold FileComparator.due in Hx.
      now apply andb_true_iff in Hx as [Hx _]. }
    assert (Hall' : Forall (fun f => truthy (file_id f) = true /\ path f <> None)
                      updated).
    { apply List.Forall_forall. intros x Hx.
      apply List.filter_In in Hx as [Hin Hx].
      rewrite List.Forall_forall in Hall. apply (Hall x Hin).
      apply Hdir in Hx. now destruct (is_directory x). }
    assert (Hnd' : NoDup (map path_key updated))
      by (eapply NoDup_map_filter_weaken; [exact Hdir | exact Hnd]).
    destruct (transfer_loop_all_succeed backend strftime share_id key secret
                (Monitor.target_folder_id cfg)
                (default true (Monitor.preserve_path cfg))
                (default 2 (Monitor.duplicate cfg)) Hok Hsid updated 0
                (FileComparator.target_map known)
                (Monitor.mkState (Monitor.monitor_state st)
                   (emit (ListShare share_id secret host) (Monitor.env st)))
                Hall' Hnd' (path_keyed_target_map known))
      as (Hc & Hpk & Hin & Hout & Hrec).
    destruct Hrec as (lm & ls & Hrec); [rewrite Hdue; discriminate|].
    rewrite Hrec. cbn [default id files last_synced_files_count].
    split; [|now rewrite Hc].
    rewrite get_files_to_sync_filter. apply filter_nil_intro. intros f Hf.
    rewrite (due_values _ f Hpk).
    destruct (is_directory f) eqn:Hfdir; [reflexivity|]. cbn [negb andb].
    destruct (FileComparator.due known f) eqn:Hfdue.
    + destruct (Hin f) as [t Ht]; [apply List.filter_In; now split|].
      rewrite Ht. change (md5_key (Monitor.stamp f t)) with (md5_key f).
      now rewrite String.eqb_refl.
    + rewrite Hout.
      * rewrite due_lookup, Hfdir in Hfdue. exact Hfdue.
      * intros Hp. apply in_map_iff in Hp as (g & Hg & Hgin).
        apply List.filter_In in Hgin as [Hgin Hgdue].
        assert (g = f).
        { apply (NoDup_map_In_eq path_key _ g f Hnd); [| |exact Hg];
            apply List.filter_In; split; auto.
          now rewrite Hfdir. }
        subst g. congruence.
Qed.

Lemma successful_tick_reaches_steady_state_witness :
  let st' := Monitor.monitor_share_link Samples.parse Samples.listing_two
               Samples.always_ok Samples.strftime Samples.share
               Samples.synced_before in
  let after := default no_state (Monitor.monitor_state st' !! "k1-x_abcd") in
  FileComparator.get_files_to_sync [Samples.a_x; Samples.b_x]
    (default [] (files after)) = [] /\
  last_synced_files_count after = Some 1.
Proof.
  apply (successful_tick_reaches_steady_state Samples.parse Samples.listing_two
           Samples.always_ok Samples.strftime Samples.share Samples.synced_before
           "k1-x" (Some "abcd") "www.123865.com" [Samples.a_x; Samples.b_x]
           eq_refl eq_refl).
  - discriminate.
  - reflexivity.
  - intros n. reflexivity.
  - repeat constructor; discriminate.
  - apply (bool_decide_unpack _). vm_compute. exact I.
Defined.

(** ** The file name handed to the save API client *)

Lemma flat_filename_no_slash (file_path : string) :
  has_slash (flat_filename file_path) = false.
Proof.
  unfold flat_filename. destruct (has_slash file_path) eqn:H; [|exact H].
  now destruct (rsplit_slash_join file_path H) as [_ Hlast].
Qed.

(** X23: the call of [save_shared_file] behind every save call of
    [sync_file]. Whether it goes through [save_file_to_cloud] or not, each
    save call of a run ends in one call of [save_shared_file] with the file
    identifier, the file information, the target folder and the duplicate
    mode it was given, and with a file name built from the same input: the
    whole path, directories kept, when paths are preserved and a path is
    given; the last path component, directories not kept, when a path is
    given and paths are not preserved; no name, directories not kept, when no
    path is given.  A name handed over without directories never contains a
    slash. *)
Theorem sync_file_calls_save_shared_file (backend : nat -> Outcome)
    (share_id file_id : option string) (target_folder_id : string)
    (share_pwd : option string) (retries : Z) (file_path : option string)
    (preserve_path : bool) (file_info : option FileInfo) (duplicate : Z)
    (env : Env) :
  let env' := snd (FileSyncer.sync_file backend share_id file_id
                     target_folder_id share_pwd retries file_path
                     preserve_path file_info duplicate env) in
  let contain_dir := preserve_path && truthy file_path in
  let filename :=
    if truthy file_path then
      Some (if preserve_path then default "" file_path
            else flat_filename (default "" file_path))
    else None in
  Forall (fun e => is_save e = true ->
                   Request.api_call e =
                   Some (SaveSharedFile (default "" file_id) file_info
                           target_folder_id filename contain_dir duplicate))
         (new_events env env') /\
  (contain_dir = false ->
   match filename with
   | Some given => has_slash given = false
   | None => truthy file_path = false
   end).
Proof.
  intros env' contain_dir filename. split.
  - destruct (sync_file_events backend share_id file_id target_folder_id
                share_pwd retries file_path preserve_path file_info duplicate env)
      as (evs & Htr & Hall).
    subst env'. rewrite (new_events_app _ _ _ Htr).
    eapply List.Forall_impl; [|exact Hall]. cbv beta.
    intros e [->|[s ->]] Hsave; [|discriminate Hsave].
    subst filename contain_dir. unfold FileSyncer.save_call.
    destruct preserve_path, (truthy file_path); reflexivity.
  - subst contain_dir filename.
    destruct (truthy file_path); [|reflexivity].
    destruct preserve_path; [discriminate|].
    intros _. apply flat_filename_no_slash.
Qed.

(** ** Listing a share *)

(** Induction over the tree of a share. *)
Lemma Folder_induction (P : Listing.Folder -> Prop) :
  P Listing.Unavailable ->
  (forall files folders,
     Forall (fun entry => P (snd entry)) folders ->
     P (Listing.Content files folders)) ->
  forall folder, P folder.
Proof.
  intros HU HC. fix IH 1. intros [|files folders]; [exact HU|].
  apply HC. induction folders as [|[folder_name sub] rest IHrest].
  - constructor.
  - constructor; [apply IH | exact IHrest].
Qed.

(** The inner loop over the sub-folders, as a function of its own. *)
Lemma get_file_list_content (current_path : string)
    (files : list Listing.RawFile) (folders : list (string * Listing.Folder)) :
  Listing.get_file_list current_path (Listing.Content files folders) =
  fold_left
    (fun acc entry =>
       match acc with
       | None => None
       | Some all_files =>
           match Listing.get_file_list
                   (Listing.child_path current_path (fst entry)) (snd entry) with
           | None => None
           | Some subfolder_files => Some (all_files ++ subfolder_files)
           end
       end)
    folders (Some (List.map (Listing.file_entry current_path) files)).
Proof.
  cbn [Listing.get_file_list].
  generalize (List.map (Listing.file_entry current_path) files).
  induction folders as [|[folder_name sub] rest IH]; intros acc; [reflexivity|].
  cbn [fold_left fst snd].
  destruct (Listing.get_file_list _ sub) as [l|].
  - apply IH.
  - clear. induction rest as [|x rest IH]; [reflexivity | exact IH].
Qed.

Lemma path_join_parts (a b : string) :
  has_slash b = false ->
  has_slash (a ++ "/" ++ b)%string = true /\
  List.last (split_slash (a ++ "/" ++ b)%string) "" = b /\
  Grouping.rsplit_slash_head (a ++ "/" ++ b)%string = a.
Proof.
  intros Hb. destruct (split_slash_shape b) as (h & t & Hs & Hno & _).
  destruct (Hno Hb) as [-> ->].
  induction a as [|c a IH].
  - change ("" ++ "/" ++ b)%string with (String "/" b).
    cbn [has_slash split_slash Grouping.rsplit_slash_head].
    rewrite Hs, Hb. auto.
  - destruct IH as (Hslash & Hlast & Hhead).
    rewrite append_cons.
    cbn [has_slash split_slash Grouping.rsplit_slash_head].
    rewrite Hslash, Hhead, orb_true_r, andb_false_r. split; [reflexivity|].
    split; [|reflexivity].
    destruct (split_slash_shape (a ++ "/" ++ b)%string) as (h' & t' & Hs' & _ & Hyes).
    rewrite Hs' in Hlast |- *. specialize (Hyes Hslash).
    destruct (Ascii.eqb c "/").
    + rewrite last_cons_nonempty by discriminate. exact Hlast.
    + rewrite last_cons_nonempty by exact Hyes.
      rewrite last_cons_nonempty in Hlast by exact Hyes. exact Hlast.
Qed.

(** The path built for a name without a slash splits back into the folder
    path and the name. *)
Lemma child_path_parts (current_path file_name : string) :
  has_slash file_name = false ->
  flat_filename (Listing.child_path current_path file_name) = file_name /\
  Grouping.directory_of (Listing.child_path current_path file_name) = current_path.
Proof.
  intros Hn. unfold Listing.child_path, flat_filename, Grouping.directory_of.
  destruct (String.eqb_spec current_path "") as [->|Hne].
  - now rewrite Hn.
  - destruct (path_join_parts current_path file_name Hn) as (-> & -> & ->). auto.
Qed.

Lemma listing_fold_None (current_path : string)
    (folders : list (string * Listing.Folder)) :
  fold_left
    (fun acc entry =>
       match acc with
       | None => None
       | Some all_files =>
           match Listing.get_file_list
                   (Listing.child_path current_path (fst entry)) (snd entry) with
           | None => None
           | Some subfolder_files => Some (all_files ++ subfolder_files)
           end
       end)
    folders None = None.
Proof. induction folders as [|x rest IH]; [reflexivity | exact IH]. Qed.

(** A listing succeeds exactly when the listing of every sub-folder does,
    and is then the files of the folder followed by the sub-listings in
    order. *)
Lemma get_file_list_Some (current_path : string)
    (files : list Listing.RawFile) (folders : list (string * Listing.Folder))
    (l : list FileInfo) :
  Listing.get_file_list current_path (Listing.Content files folders) = Some l <->
  exists subs,
    Forall2 (fun entry sub_files =>
               Listing.get_file_list
                 (Listing.child_path current_path (fst entry)) (snd entry)
               = Some sub_files) folders subs /\
    l = List.map (Listing.file_entry current_path) files ++ concat subs.
Proof.
  rewrite get_file_list_content.
  generalize (List.map (Listing.file_entry current_path) files).
  induction folders as [|[folder_name sub] rest IH]; intros acc.
  - simpl. split.
    + intros [= <-]. exists []. split; [constructor | now rewrite app_nil_r].
    + intros (subs & H2 & ->). inversion H2. simpl. now rewrite app_nil_r.
  - cbn [fold_left fst snd].
    destruct (Listing.get_file_list (Listing.child_path current_path folder_name) sub)
      as [sl|] eqn:Hsub.
    + rewrite IH. split.
      * intros (subs & H2 & ->). exists (sl :: subs). split.
        -- constructor; [exact Hsub | exact H2].
        -- simpl. now rewrite app_assoc.
      * intros (subs & H2 & ->). inversion H2 as [|? sl' ? subs' Hhd Htl]; subst.
        simpl in Hhd. rewrite Hsub in Hhd. injection Hhd as <-.
        exists subs'. split; [exact Htl|]. simpl. now rewrite app_assoc.
    + rewrite listing_fold_None. split; [discriminate|].
      intros (subs & H2 & _). inversion H2 as [|? sl' ? subs' Hhd Htl]; subst.
      simpl in Hhd. rewrite Hsub in Hhd. discriminate.
Qed.

Lemma available_content (files : list Listing.RawFile)
    (folders : list (string * Listing.Folder)) :
  Listing.available (Listing.Content files folders) =
  forallb (fun entry => Listing.available (snd entry)) folders.
Proof.
  cbn [Listing.available].
  induction folders as [|[folder_name sub] rest IH]; [reflexivity|].
  cbn [forallb snd]. now rewrite IH.
Qed.

Lemma file_count_content (files : list Listing.RawFile)
    (folders : list (string * Listing.Folder)) :
  Listing.file_count (Listing.Content files folders) =
  (length files +
   list_sum (List.map (fun entry => Listing.file_count (snd entry)) folders))%nat.
Proof.
  cbn [Listing.file_count]. f_equal.
  induction folders as [|[folder_name sub] rest IH]; [reflexivity|].
  cbn [List.map list_sum snd]. now rewrite IH.
Qed.

Lemma well_named_content (files : list Listing.RawFile)
    (folders : list (string * Listing.Folder)) :
  Listing.well_named (Listing.Content files folders) <->
  NoDup (List.map Listing.raw_name files ++ List.map fst folders) /\
  Forall (fun n => n <> "" /\ has_slash n = false)
         (List.map Listing.raw_name files ++ List.map fst folders) /\
  Forall (fun file => Listing.raw_file_id file <> "") files /\
  Forall (fun entry => Listing.well_named (snd entry)) folders.
Proof.
  cbn [Listing.well_named Listing.names].
  assert (Hall : (fix all (l : list (string * Listing.Folder)) : Prop :=
                    match l with
                    | [] => True
                    | (_, sub) :: rest => Listing.well_named sub /\ all rest
                    end) folders <->
                 Forall (fun entry => Listing.well_named (snd entry)) folders).
  { induction folders as [|[folder_name sub] rest IH].
    - split; [constructor | trivial].
    - rewrite Forall_cons. simpl. now rewrite IH. }
  rewrite Hall. reflexivity.
Qed.

Lemma file_entry_listed (current_path : string) (file : Listing.RawFile) :
  Listing.listed_entry (Listing.file_entry current_path file).
Proof.
  unfold Listing.listed_entry. simpl. repeat split; try discriminate.
  exists current_path. split; [reflexivity|].
  intros Hn. unfold path_key. simpl. now apply child_path_parts.
Qed.

Example get_file_list_tree :
  Listing.get_file_list "" Samples.tree = Some [Samples.a_x; Samples.b_x].
Proof. reflexivity. Qed.

(** A listing fails exactly when some folder cannot be listed; otherwise
    it has one entry per file of the tree, each of the expected form. *)
Lemma get_file_list_available (folder : Listing.Folder)
    (current_path : string) :
  if Listing.available folder then
    exists l,
      Listing.get_file_list current_path folder = Some l /\
      length l = Listing.file_count folder /\
      Forall Listing.listed_entry l
  else Listing.get_file_list current_path folder = None.
Proof.
  revert current_path.
  induction folder as [|files folders IH] using Folder_induction;
    intros current_path; [reflexivity|].
  rewrite available_content, file_count_content.
  destruct (forallb _ folders) eqn:Hav.
  - assert (Hsubs : exists subs,
              Forall2 (fun entry sub_files =>
                         Listing.get_file_list
                           (Listing.child_path current_path (fst entry)) (snd entry)
                         = Some sub_files) folders subs /\
              length (concat subs) =
                list_sum (List.map (fun entry => Listing.file_count (snd entry))
                            folders) /\
              Forall Listing.listed_entry (concat subs)).
    { clear files. induction folders as [|[folder_name sub] rest IHrest].
      - exists []. repeat split; constructor.
      - apply Forall_cons in IH as [Hsub Hrest].
        cbn [forallb snd] in Hav. apply andb_true_iff in Hav as [Hav1 Hav2].
        destruct (IHrest Hrest Hav2) as (subs & H2 & Hlen & Hall).
        specialize (Hsub (Listing.child_path current_path folder_name)).
        simpl in Hsub. rewrite Hav1 in Hsub.
        destruct Hsub as (sl & Hsl & Hsllen & Hslall).
        exists (sl :: subs). split; [|split].
        + constructor; [exact Hsl | exact H2].
        + simpl. rewrite length_app, Hlen, Hsllen. reflexivity.
        + simpl. apply Forall_app. split; assumption. }
    destruct Hsubs as (subs & H2 & Hlen & Hall).
    exists (List.map (Listing.file_entry current_path) files ++ concat subs).
    split; [|split].
    + apply get_file_list_Some. now exists subs.
    + rewrite length_app, length_map, Hlen. reflexivity.
    + apply Forall_app. split; [|exact Hall].
      apply List.Forall_forall. intros f Hf.
      apply in_map_iff in Hf as (file & <- & _). apply file_entry_listed.
  - destruct (Listing.get_file_list current_path (Listing.Content files folders))
      as [l|] eqn:Hl; [|reflexivity].
    exfalso. apply get_file_list_Some in Hl as (subs & H2 & _).
    clear files. revert subs H2.
    induction folders as [|[folder_name sub] rest IHrest]; intros subs H2;
      [discriminate|].
    apply Forall_cons in IH as [Hsub Hrest].
    inversion H2 as [|? sl ? subs' Hhd Htl]; subst.
    cbn [forallb snd] in Hav. apply andb_false_iff in Hav as [Hav|Hav].
    + specialize (Hsub (Listing.child_path current_path folder_name)).
      simpl in Hsub, Hhd. rewrite Hav in Hsub. congruence.
    + now apply (IHrest Hrest Hav subs').
Qed.

Lemma tree_files_content (files : list Listing.RawFile)
    (folders : list (string * Listing.Folder)) :
  Listing.tree_files (Listing.Content files folders) =
  List.map (fun file => ([], file)) files ++
  concat (List.map
            (fun entry =>
               List.map (fun located => (fst entry :: fst located, snd located))
                        (Listing.tree_files (snd entry)))
            folders).
Proof.
  cbn [Listing.tree_files]. f_equal.
  induction folders as [|[folder_name sub] rest IH]; [reflexivity|].
  cbn [List.map concat fst snd]. now rewrite IH.
Qed.

(** A listing is the walk of the tree: files of a folder first, then the
    sub-folders in turn, each file with the path of its own folder. *)
Lemma get_file_list_tree_files (folder : Listing.Folder) :
  forall current_path l,
    Listing.get_file_list current_path folder = Some l ->
    l = List.map (Listing.located_entry current_path) (Listing.tree_files folder).
Proof.
  induction folder as [|files folders IH] using Folder_induction;
    intros current_path l Hl; [discriminate|].
  apply get_file_list_Some in Hl as (subs & H2 & ->).
  rewrite tree_files_content, map_app, map_map. f_equal.
  clear files. revert subs H2.
  induction folders as [|[folder_name sub] rest IHrest]; intros subs H2.
  - inversion H2. reflexivity.
  - inversion H2 as [|? sl ? subs' Hhd Htl]; subst.
    apply Forall_cons in IH as [IHsub IHall].
    cbn [List.map concat fst snd]. rewrite map_app, map_map.
    f_equal; [|now apply IHrest].
    apply IHsub in Hhd. exact Hhd.
Qed.

(** X24: the listing of a share is all or nothing, and when it succeeds it
    is the walk of the tree. It fails exactly when some folder of the share
    cannot be listed. Otherwise it returns, in this order, the files of the
    folder it starts from and then those of each sub-folder in turn (and so
    on inside each), one entry per file of the tree and no other: the entry
    of a file carries the file's identifier, name, size and fingerprint and
    the path of the file's own folder followed by the name. Each entry is a
    file (never a directory), not yet stamped, and for a name without a
    slash the flat file name used for saving is the name and the directory
    used for grouping is the folder. *)
Theorem get_file_list_all_or_nothing (folder : Listing.Folder)
    (current_path : string) :
  if Listing.available folder then
    Listing.get_file_list current_path folder =
      Some (List.map (Listing.located_entry current_path)
                     (Listing.tree_files folder)) /\
    length (Listing.tree_files folder) = Listing.file_count folder /\
    Forall (fun located =>
              let f := Listing.located_entry current_path located in
              file_id f = Some (Listing.raw_file_id (snd located)) /\
              name f = Listing.raw_name (snd located) /\
              fsize f = Listing.raw_size (snd located) /\
              md5 f = Some (Listing.raw_etag (snd located)) /\
              path f = Some (Listing.child_path
                               (Listing.folder_path current_path (fst located))
                               (Listing.raw_name (snd located))) /\
              Listing.listed_entry f)
           (Listing.tree_files folder)
  else Listing.get_file_list current_path folder = None.
Proof.
  pose proof (get_file_list_available folder current_path) as H.
  destruct (Listing.available folder); [|exact H].
  destruct H as (l & Hl & Hlen & Hall).
  pose proof (get_file_list_tree_files folder current_path l Hl) as ->.
  split; [exact Hl|]. split; [now rewrite length_map in Hlen|].
  apply List.Forall_forall. intros located Hin. cbv zeta.
  do 5 (split; [reflexivity|]). apply file_entry_listed.
Qed.

Lemma has_slash_all_chars (s : string) :
  has_slash s = false -> ShareHandler.all_chars ShareHandler.not_slash s = true.
Proof.
  induction s as [|c s IH]; [reflexivity|]. simpl.
  intros H. apply orb_false_iff in H as [Hc Hs].
  unfold ShareHandler.not_slash. rewrite Hc. simpl. now apply IH.
Qed.

Lemma append_inj_l (a b c : string) : (a ++ b)%string = (a ++ c)%string -> b = c.
Proof.
  induction a as [|x a IH]; [trivial|].
  rewrite !append_cons. intros [= H]. now apply IH.
Qed.

Lemma child_path_inj (current_path a b : string) :
  Listing.child_path current_path a = Listing.child_path current_path b -> a = b.
Proof.
  unfold Listing.child_path. destruct (String.eqb current_path ""); [trivial|].
  intros H. apply append_inj_l in H. now apply (append_inj_l "/").
Qed.

Lemma child_path_nested (current_path folder_name rel : string) :
  folder_name <> "" ->
  Listing.child_path (Listing.child_path current_path folder_name) rel =
  Listing.child_path current_path (folder_name ++ "/" ++ rel)%string.
Proof.
  intros Hn. unfold Listing.child_path.
  destruct (String.eqb_spec current_path "") as [->|Hne].
  - now rewrite (string_eqb_nonempty _ Hn).
  - assert (Hne' : (current_path ++ "/" ++ folder_name)%string <> "").
    { destruct current_path; [congruence | discriminate]. }
    rewrite (string_eqb_nonempty _ Hne').
    rewrite !append_assoc. reflexivity.
Qed.

(** The first component of a relative path. *)
Lemma first_component_nested (folder_name rel : string) :
  has_slash folder_name = false ->
  ShareHandler.take_while ShareHandler.not_slash (folder_name ++ "/" ++ rel)%string
  = folder_name.
Proof.
  intros Hn.
  destruct (take_while_app ShareHandler.not_slash folder_name ("/" ++ rel)%string)
    as [Ht _]; [now apply has_slash_all_chars | | exact Ht].
  right. now exists "/"%char, rel.
Qed.

Lemma first_component_name (file_name : string) :
  has_slash file_name = false ->
  ShareHandler.take_while ShareHandler.not_slash file_name = file_name.
Proof. intros Hn. now apply take_while_id, has_slash_all_chars. Qed.

Lemma NoDup_map_injective {A B : Type} (g : A -> B) (l : list A) :
  (forall x y, g x = g y -> x = y) -> NoDup l -> NoDup (map g l).
Proof.
  intros Hinj. induction l as [|a l IH]; intros Hnd; [constructor|].
  apply NoDup_cons in Hnd as [Ha Hnd]. simpl. apply NoDup_cons.
  split; [|now apply IH].
  intros Hin. apply Ha. apply list_elem_of_In, in_map_iff in Hin as (y & Hy & Hin).
  apply Hinj in Hy. subst y. now apply list_elem_of_In.
Qed.

(** The paths of a listing relative to the folder it starts from:
    distinct, and each beginning with a name of that folder. *)
Lemma get_file_list_relative (folder : Listing.Folder) :
  forall current_path l,
    Listing.well_named folder ->
    Listing.get_file_list current_path folder = Some l ->
    exists rels,
      List.map path_key l = List.map (Listing.child_path current_path) rels /\
      NoDup rels /\
      Forall (fun rel =>
                In (ShareHandler.take_while ShareHandler.not_slash rel)
                   (Listing.names folder)) rels /\
      Forall (fun f => truthy (file_id f) = true) l.
Proof.
  induction folder as [|files folders IH] using Folder_induction;
    intros current_path l Hwn Hl; [discriminate|].
  apply well_named_content in Hwn as (Hnd & Hnames & Hids & Hsubs).
  apply get_file_list_Some in Hl as (subs & H2 & ->).
  apply NoDup_app in Hnd as (Hndf & Hdisj & Hndd).
  apply Forall_app in Hnames as [Hnf Hnfold].
  assert (Hblocks : exists rels,
            List.map path_key (concat subs) =
              List.map (Listing.child_path current_path) rels /\
            NoDup rels /\
            Forall (fun rel =>
                      In (ShareHandler.take_while ShareHandler.not_slash rel)
                         (List.map fst folders)) rels /\
            Forall (fun f => truthy (file_id f) = true) (concat subs)).
  { clear Hdisj Hndf Hnf Hids files.
    revert subs H2.
    induction folders as [|[folder_name sub] rest IHrest]; intros subs H2.
    - inversion H2. exists []. repeat split; constructor.
    - inversion H2 as [|? sl ? subs' Hhd Htl]; subst. simpl in Hhd.
      apply Forall_cons in IH as [IHsub IHall].
      apply Forall_cons in Hsubs as [Hsub Hsubs].
      simpl in Hndd. apply NoDup_cons in Hndd as [Hfresh Hndd].
      simpl in Hnfold. apply Forall_cons in Hnfold as [[Hne Hns] Hnfold].
      destruct (IHrest IHall Hndd Hnfold Hsubs subs' Htl)
        as (rels_rest & Hmap_rest & Hnd_rest & Hheads_rest & Hids_rest).
      destruct (IHsub _ _ Hsub Hhd) as (rels_sub & Hmap_sub & Hnd_sub & _ & Hids_sub).
      exists (List.map (fun rel => (folder_name ++ "/" ++ rel)%string) rels_sub
              ++ rels_rest).
      split; [|split; [|split]].
      + simpl. rewrite !map_app, Hmap_rest, Hmap_sub, map_map. f_equal.
        apply map_ext. intros rel. now apply child_path_nested.
      + apply NoDup_app. split; [|split; [|exact Hnd_rest]].
        * apply NoDup_map_injective; [|exact Hnd_sub].
          intros x y H. apply append_inj_l in H. now apply (append_inj_l "/").
        * intros rel Hin Hin'.
          apply list_elem_of_In, in_map_iff in Hin as (r & <- & _).
          rewrite List.Forall_forall in Hheads_rest.
          apply list_elem_of_In, Hheads_rest in Hin'.
          rewrite first_component_nested in Hin' by exact Hns.
          apply Hfresh. now apply list_elem_of_In.
      + apply Forall_app. split.
        * apply List.Forall_forall. intros rel Hin.
          apply in_map_iff in Hin as (r & <- & _).
          rewrite first_component_nested by exact Hns. now left.
        * eapply List.Forall_impl; [|exact Hheads_rest].
          intros rel Hin. now right.
      + simpl. apply Forall_app. split; assumption. }
  destruct Hblocks as (rels & Hmap & Hndr & Hheads & Hidsr).
  exists (List.map Listing.raw_name files ++ rels).
  split; [|split; [|split]].
  - rewrite !map_app, Hmap, !map_map. reflexivity.
  - apply NoDup_app. split; [exact Hndf|]. split; [|exact Hndr].
    intros rel Hin Hin'.
    rewrite List.Forall_forall in Hheads.
    apply list_elem_of_In, Hheads in Hin'.
    assert (Hns : has_slash rel = false).
    { rewrite List.Forall_forall in Hnf.
      now apply list_elem_of_In, Hnf in Hin as [_ Hns]. }
    rewrite first_component_name in Hin' by exact Hns.
    apply (Hdisj rel Hin). now apply list_elem_of_In.
  - cbn [Listing.names]. apply Forall_app. split.
    + apply List.Forall_forall. intros rel Hin.
      assert (Hns : has_slash rel = false).
      { rewrite List.Forall_forall in Hnf. now apply Hnf in Hin as [_ Hns]. }
      rewrite first_component_name by exact Hns.
      apply in_or_app. now left.
    + eapply List.Forall_impl; [|exact Hheads].
      intros rel Hin. apply in_or_app. now right.
  - apply Forall_app. split; [|exact Hidsr].
    apply List.Forall_forall. intros f Hf.
    apply in_map_iff in Hf as (file & <- & Hfile).
    rewrite List.Forall_forall in Hids. specialize (Hids file Hfile).
    simpl. now rewrite (string_eqb_nonempty _ Hids).
Qed.

Lemma get_file_list_entries (folder : Listing.Folder) :
  forall current_path l,
    Listing.get_file_list current_path folder = Some l ->
    Forall Listing.listed_entry l.
Proof.
  induction folder as [|files folders IH] using Folder_induction;
    intros current_path l Hl; [discriminate|].
  apply get_file_list_Some in Hl as (subs & H2 & ->).
  apply Forall_app. split.
  - apply List.Forall_forall. intros f Hf.
    apply in_map_iff in Hf as (file & <- & _). apply file_entry_listed.
  - clear files. revert subs H2.
    induction folders as [|[folder_name sub] rest IHrest]; intros subs H2.
    + inversion H2. constructor.
    + inversion H2 as [|? sl ? subs' Hhd Htl]; subst.
      apply Forall_cons in IH as [IHsub IHall]. simpl.
      apply Forall_app. split; [eapply IHsub; exact Hhd | now apply IHrest].
Qed.

(** X25: in a share whose names are not empty and have no slash, whose
    names inside one folder are distinct and whose files have identifiers,
    no two listed entries have the same path, and every entry carries an
    identifier and a path: the listing is one that the change detector and
    the transfer loop handle without collisions. *)
Theorem get_file_list_distinct_paths (folder : Listing.Folder)
    (current_path : string) (l : list FileInfo) :
  Listing.well_named folder ->
  Listing.get_file_list current_path folder = Some l ->
  NoDup (List.map path_key l) /\
  Forall (fun f => is_directory f = false ->
                   truthy (file_id f) = true /\ path f <> None) l /\
  NoDup (List.map path_key (List.filter (fun f => negb (is_directory f)) l)).
Proof.
  intros Hwn Hl.
  destruct (get_file_list_relative folder current_path l Hwn Hl)
    as (rels & Hmap & Hnd & _ & Hids).
  assert (Hpaths : NoDup (List.map path_key l)).
  { rewrite Hmap. apply NoDup_map_injective; [|exact Hnd].
    apply child_path_inj. }
  pose proof (get_file_list_entries folder current_path l Hl)
    as Hentries.
  split; [exact Hpaths|]. split.
  - apply List.Forall_forall. intros f Hf _.
    rewrite List.Forall_forall in Hids, Hentries.
    split; [now apply Hids|].
    destruct (Hentries f Hf) as (_ & _ & _ & dir & Hp & _). congruence.
  - replace (List.filter (fun f => negb (is_directory f)) l) with l; [exact Hpaths|].
    symmetry. apply List.forallb_filter_id, forallb_forall.
    rewrite List.Forall_forall in Hentries. intros f Hf.
    destruct (Hentries f Hf) as (Hdir & _). now rewrite Hdir.
Qed.

Lemma get_file_list_distinct_paths_witness :
  NoDup (List.map path_key [Samples.a_x; Samples.b_x]).
Proof.
  apply (get_file_list_distinct_paths Samples.tree "" [Samples.a_x; Samples.b_x]).
  - simpl. repeat split; apply (bool_decide_unpack _); vm_compute; exact I.
  - reflexivity.
Defined.

(** ** Configured shares *)

Lemma filter_length_eq {A : Type} (p : A -> bool) (l : list A) :
  length (List.filter p l) = length l -> List.filter p l = l.
Proof.
  induction l as [|a l IH]; [reflexivity|]. simpl.
  destruct (p a); simpl.
  - intros [= H]. now rewrite IH.
  - intros H. pose proof (List.filter_length_le p l). lia.
Qed.

Lemma remove_monitored_share_filter (share_url : string)
    (shares : list Monitor.ShareConfig) :
  fst (ConfigManager.remove_monitored_share share_url shares) =
  List.filter (fun share => negb (String.eqb (Monitor.url share) share_url)) shares.
Proof.
  unfold ConfigManager.remove_monitored_share. cbv zeta.
  destruct (Nat.eqb_spec
              (length (List.filter
                         (fun share => negb (String.eqb (Monitor.url share) share_url))
                         shares))
              (length shares)) as [Heq|Hne]; simpl; [|reflexivity].
  symmetry. now apply filter_length_eq.
Qed.

Lemma existsb_url_In (share_url : string) (shares : list Monitor.ShareConfig) :
  existsb (fun share => String.eqb (Monitor.url share) share_url) shares = true <->
  In share_url (List.map Monitor.url shares).
Proof.
  rewrite existsb_exists, in_map_iff. split.
  - intros (x & Hin & Heq). apply String.eqb_eq in Heq. eauto.
  - intros (x & Heq & Hin). exists x. split; [exact Hin|]. now apply String.eqb_eq.
Qed.

Lemma apply_urls_distinct (shares : list Monitor.ShareConfig)
    (op : ConfigManager.Op) :
  NoDup (List.map Monitor.url shares) ->
  NoDup (List.map Monitor.url (ConfigManager.apply shares op)).
Proof.
  intros Hnd. destruct op as [u t e p pw|u]; simpl.
  - unfold ConfigManager.add_monitored_share.
    destruct (existsb _ shares) eqn:Hex; simpl; [exact Hnd|].
    rewrite map_app. apply NoDup_app. split; [exact Hnd|].
    split; [|apply NoDup_singleton].
    intros x Hx Hx'. apply list_elem_of_singleton in Hx'. subst x.
    cbn [Monitor.url] in Hx.
    apply list_elem_of_In, existsb_url_In in Hx. congruence.
  - rewrite remove_monitored_share_filter.
    eapply (NoDup_map_filter_weaken Monitor.url _ (fun _ => true)).
    + reflexivity.
    + clear -Hnd. induction shares as [|x l IH]; [constructor|].
      simpl in *. apply NoDup_cons in Hnd as [Hx Hnd].
      apply NoDup_cons. split; [|now apply IH].
      intros Hin. apply Hx.
      replace (List.filter (fun _ => true) l) with l in Hin; [exact Hin|].
      clear. induction l as [|y l IH]; [reflexivity|]. simpl. now rewrite <- IH.
Qed.

(** X26: starting from the empty list of the default configuration, no
    sequence of additions and removals ever leaves two configured shares
    with the same address; after an addition the address is configured,
    after a removal it is not, and the file is written only when the list
    changed. *)
Theorem monitored_shares_stay_distinct (ops : list ConfigManager.Op)
    (share_url target_folder_id : string) (enabled preserve_path : bool)
    (password : option string) :
  let shares := ConfigManager.run ops in
  let added := ConfigManager.add_monitored_share share_url target_folder_id
                 enabled preserve_path password shares in
  let removed := ConfigManager.remove_monitored_share share_url shares in
  NoDup (List.map Monitor.url shares) /\
  In share_url (List.map Monitor.url (fst added)) /\
  ~ In share_url (List.map Monitor.url (fst removed)) /\
  (snd added = false <-> fst added = shares) /\
  (snd removed = false <-> fst removed = shares).
Proof.
  intros shares added removed.
  assert (Hnd : NoDup (List.map Monitor.url shares)).
  { subst shares. unfold ConfigManager.run.
    assert (H0 : NoDup (List.map Monitor.url [])) by constructor.
    revert H0. generalize (@nil Monitor.ShareConfig).
    induction ops as [|op ops IH]; intros l Hl; simpl; [exact Hl|].
    apply IH. now apply apply_urls_distinct. }
  split; [exact Hnd|]. subst added removed. split; [|split; [|split]].
  - unfold ConfigManager.add_monitored_share.
    destruct (existsb _ shares) eqn:Hex; simpl.
    + now apply existsb_url_In.
    + rewrite map_app. apply in_or_app. right. now left.
  - rewrite remove_monitored_share_filter. intros Hin.
    apply in_map_iff in Hin as (x & Hx & Hin).
    apply List.filter_In in Hin as [_ Hne].
    rewrite <- Hx, String.eqb_refl in Hne. discriminate.
  - unfold ConfigManager.add_monitored_share.
    destruct (existsb _ shares); simpl; split; try reflexivity; try discriminate.
    intros H. apply (f_equal (@length _)) in H. rewrite length_app in H.
    simpl in H. lia.
  - unfold ConfigManager.remove_monitored_share. cbv zeta.
    destruct (Nat.eqb_spec
                (length (List.filter
                           (fun share => negb (String.eqb (Monitor.url share) share_url))
                           shares))
                (length shares)) as [Heq|Hne]; simpl.
    + split; reflexivity.
    + split; [discriminate|]. intros H. rewrite H in Hne. congruence.
Qed.

(** X27: adding a share whose address is not configured and removing it
    again gives the list back, and both steps write the file. *)
Theorem add_then_remove_share_restores (share_url target_folder_id : string)
    (enabled preserve_path : bool) (password : option string)
    (shares : list Monitor.ShareConfig) :
  ~ In share_url (List.map Monitor.url shares) ->
  let added := ConfigManager.add_monitored_share share_url target_folder_id
                 enabled preserve_path password shares in
  snd added = true /\
  ConfigManager.remove_monitored_share share_url (fst added) = (shares, true).
Proof.
  intros Hnew added. subst added. unfold ConfigManager.add_monitored_share.
  destruct (existsb _ shares) eqn:Hex.
  { exfalso. apply Hnew. now apply existsb_url_In. }
  cbn [fst snd]. split; [reflexivity|].
  assert (Hkeep : List.filter
                    (fun share => negb (String.eqb (Monitor.url share) share_url))
                    shares = shares).
  { clear Hex. induction shares as [|x l IH]; [reflexivity|]. simpl.
    destruct (String.eqb_spec (Monitor.url x) share_url) as [Heq|_].
    - exfalso. apply Hnew. now left.
    - simpl. f_equal. apply IH. intros Hin. apply Hnew. now right. }
  unfold ConfigManager.remove_monitored_share. cbv zeta.
  rewrite List.filter_app, Hkeep. cbn [List.filter Monitor.url].
  rewrite String.eqb_refl. cbn [negb]. rewrite app_nil_r, length_app.
  cbn [length].
  destruct (Nat.eqb_spec (length shares) (length shares + 1)) as [Heq|_]; [lia|].
  reflexivity.
Qed.

Lemma add_then_remove_share_restores_witness :
  ConfigManager.remove_monitored_share "https://www.123865.com/s/k2"
    (fst (ConfigManager.add_monitored_share "https://www.123865.com/s/k2" "42"
            true true None [Samples.share]))
  = ([Samples.share], true).
Proof.
  apply (add_then_remove_share_restores "https://www.123865.com/s/k2" "42"
           true true None [Samples.share]).
  simpl. intros [H|[]]. discriminate H.
Defined.
